(** * Fulfilment pipeline of the Telegram content bot

    A shallow embedding of the delivery pipeline found in
    [content_manager.py], [database.py], [delivery_automater.py] and
    [Continous_delivery.py]: the keyword matcher, the "recent" selection,
    the payment ledger operations, the delivery executor, the batch pass
    and the back-off loop.

    Conventions of the embedding.
    - Python [str] values are [string]s; the text is taken to be ASCII, so
      [str.lower] folds [A-Z] and [str.split()] cuts at the ASCII white
      space characters Python recognises.
    - Python's binary64 arithmetic in the matcher is read over exact
      rationals ([Q]); every score is [100], [80] or [m / n * 60] with
      [m < n] token counts of one and the same hint.  [Binary64Facts]
      checks, with the machine operations, that both readings accept and
      order the same for hints of up to 64 (resp. 32) words.
    - Timestamps are integers (microseconds), SQL [NULL] is [None].
    - A table is a list of its rows.  The queries sort on one key and the
      store is free in the order of rows with equal keys; [order_by] sorts
      stably, so the order of a table's list stands for the order the
      store yields equal keys in (not for the order of insertion), and it
      is arbitrary.  What is to hold of every answer of the store is
      stated for every rearrangement of the list, and every arrangement
      by the key is the answer on some rearrangement
      ([RecentFacts.any_tie_order_is_listed]).
    - Calls that leave the process (database, Drive, Telegram, sleeping)
      may raise; whether the next such call raises is read from a script
      of booleans carried by the world.  What they raise is an
      [Exception], except for the sleeps of [run_continuous], whose loop
      has a handler for [asyncio.CancelledError]: there a second entry of
      the script tells a cancellation from another exception.
    - Console and logger output does not raise and is not recorded, except
      for the "Processing payment" line of the batch pass, which marks the
      order of attempts. *)

From Stdlib Require Import List String Ascii ZArith QArith Qminmax Bool Lia.
From Stdlib Require Import Permutation Sorted.
From Stdlib Require Import Floats.PrimFloat.
Import ListNotations.

Local Close Scope Q_scope.
Local Open Scope string_scope.
Local Open Scope list_scope.

(* ================================================================== *)
(** ** Text primitives: [str.lower], [str.split], [in]                 *)
(* ================================================================== *)

Module Text.

Definition lower_char (c : ascii) : ascii :=
  let n := nat_of_ascii c in
  if (65 <=? n)%nat && (n <=? 90)%nat then ascii_of_nat (n + 32) else c.

(** [s.lower()] *)
Fixpoint lower (s : string) : string :=
  match s with
  | EmptyString => EmptyString
  | String c s' => String (lower_char c) (lower s')
  end.

(** [str.isspace] on ASCII: TAB, LF, VT, FF, CR, FS, GS, RS, US and the
    blank. *)
Definition is_space (c : ascii) : bool :=
  let n := nat_of_ascii c in
  ((9 <=? n)%nat && (n <=? 13)%nat) ||
  ((28 <=? n)%nat && (n <=? 32)%nat).

(** [s.split()] with no argument: maximal runs of non-space characters.
    [cur] is the token being read. *)
Fixpoint split_from (s : string) (cur : string) : list string :=
  match s with
  | EmptyString =>
      match cur with EmptyString => [] | _ => [cur] end
  | String c s' =>
      if is_space c then
        match cur with
        | EmptyString => split_from s' EmptyString
        | _ => cur :: split_from s' EmptyString
        end
      else split_from s' (cur ++ String c EmptyString)
  end.

Definition split (s : string) : list string := split_from s EmptyString.

(** [sub in s] *)
Fixpoint contains (s sub : string) : bool :=
  String.prefix sub s ||
  match s with
  | EmptyString => false
  | String _ s' => contains s' sub
  end.

(** Python truthiness of an optional string argument. *)
Definition truthy (o : option string) : bool :=
  match o with
  | Some (String _ _) => true
  | _ => false
  end.

End Text.

(* ================================================================== *)
(** ** Rows and dictionaries                                           *)
(* ================================================================== *)

(** A row of [content_library]; also the dictionary returned by
    [Database.get_content_from_cms_library]. *)
Record ContentRow := mkContentRow {
  content_id : string;
  content_name : string;
  google_drive_file_id : string;
  file_type : string;
  uploaded_at : Z
}.

(** The dictionary built by [ContentManager.list_contents]. *)
Record Content := mkContent {
  id : string;
  name : string;
  type : string;
  drive_id : string;
  c_uploaded_at : Z
}.

Definition listed (r : ContentRow) : Content :=
  mkContent (content_id r) (content_name r) (file_type r)
            (google_drive_file_id r) (uploaded_at r).

(* ================================================================== *)
(** ** The keyword matcher ([ContentManager.find_best_content_match])  *)
(* ================================================================== *)

Module Matcher.
Import Text.

Definition Qlt_bool (x y : Q) : bool := negb (Qle_bool y x).

(** Number of hint words found in the name. *)
Definition matching_words (user_input_lower content_name_lower : string) : nat :=
  List.length (filter (fun word => contains content_name_lower word)
                      (split user_input_lower)).

(** The score computed in the loop body.  [None] stands for the
    [ZeroDivisionError] the division would raise on an empty word list. *)
Definition score (user_input_lower content_name_lower : string) : option Q :=
  if (user_input_lower =? content_name_lower)%string then Some 100%Q
  else if forallb (fun word => contains content_name_lower word)
                  (split user_input_lower) then Some 80%Q
  else
    match List.length (split user_input_lower) with
    | O => None
    | S _ as total =>
        Some ((inject_Z (Z.of_nat (matching_words user_input_lower content_name_lower))
               / inject_Z (Z.of_nat total)) * 60)%Q
    end.

(** The [for content in all_contents] loop, threading
    [(best_match, best_score)]. *)
Fixpoint match_loop (user_input_lower : string) (all_contents : list Content)
    (best_match : option Content) (best_score : Q) : option (option Content * Q) :=
  match all_contents with
  | [] => Some (best_match, best_score)
  | content :: rest =>
      match score user_input_lower (lower (name content)) with
      | None => None
      | Some s =>
          if Qlt_bool best_score s
          then match_loop user_input_lower rest (Some content) s
          else match_loop user_input_lower rest best_match best_score
      end
  end.

(** The body of [find_best_content_match] once the listing is at hand.
    An exception inside the [try] block yields [None]. *)
Definition best_match_in (user_input : string) (all_contents : list Content)
    : option Content :=
  match all_contents with
  | [] => None
  | _ =>
      match match_loop (lower user_input) all_contents None 0%Q with
      | None => None
      | Some (Some best_match, best_score) =>
          if Qle_bool 40%Q best_score then Some best_match else None
      | Some (None, _) => None
      end
  end.

(** The score of a listed item against a hint, as the selection sees it. *)
Definition score_of (user_input : string) (content : Content) : option Q :=
  score (lower user_input) (lower (name content)).

(** The scoring rule in the words of the specification. *)
Definition all_tokens_in (hint_lower name_lower : string) : Prop :=
  forall token, In token (split hint_lower) -> contains name_lower token = true.

(** [c] is the first item of [l] whose score is the greatest, and that
    score is [q]. *)
Definition first_best (hint : string) (l : list Content) (c : Content) (q : Q) : Prop :=
  exists l1 l2,
    l = l1 ++ c :: l2 /\
    score_of hint c = Some q /\
    (forall x q', In x l1 -> score_of hint x = Some q' -> (q' < q)%Q) /\
    (forall x q', In x l2 -> score_of hint x = Some q' -> (q' <= q)%Q).

(** State of the selection loop after the items [seen]. *)
Definition loop_inv (hint : string) (seen : list Content)
    (best_match : option Content) (best_score : Q) : Prop :=
  match best_match with
  | None =>
      best_score = 0%Q /\
      forall x q, In x seen -> score_of hint x = Some q -> (q <= 0)%Q
  | Some c =>
      exists l1 l2,
        seen = l1 ++ c :: l2 /\
        score_of hint c = Some best_score /\
        (forall x q, In x l1 -> score_of hint x = Some q -> (q < best_score)%Q) /\
        (forall x q, In x l2 -> score_of hint x = Some q -> (q <= best_score)%Q)
  end.

End Matcher.

(* ================================================================== *)
(** ** The partial score in binary64                                   *)
(* ================================================================== *)

(** Python evaluates [matching_words / total * 60] in binary64; the
    quotient of two small integers is the correctly rounded one.  These
    definitions compute that value with the machine operations, to be
    compared with the exact reading used by [Matcher.score]. *)
Module Binary64.

Fixpoint float_of_nat (n : nat) : float :=
  match n with
  | O => 0%float
  | S k => (float_of_nat k + 1)%float
  end.

Definition partial_score (matching total : nat) : float :=
  (float_of_nat matching / float_of_nat total * 60)%float.

Definition exact_partial_score (matching total : nat) : Q :=
  (inject_Z (Z.of_nat matching) / inject_Z (Z.of_nat total) * 60)%Q.

(** [best_score >= 40] gives the same answer in both readings. *)
Definition same_acceptance (matching total : nat) : bool :=
  Bool.eqb (PrimFloat.leb 40%float (partial_score matching total))
           (Qle_bool 40%Q (exact_partial_score matching total)).

(** [score > best_score] between two partial scores of one hint gives
    the same answer in both readings. *)
Definition same_order (m1 m2 total : nat) : bool :=
  Bool.eqb (PrimFloat.ltb (partial_score m1 total) (partial_score m2 total))
           (Matcher.Qlt_bool (exact_partial_score m1 total)
                             (exact_partial_score m2 total)).

(** A partial score stays below the 80 of the all-words case. *)
Definition below_eighty (matching total : nat) : bool :=
  PrimFloat.ltb (partial_score matching total) 80%float.

Definition upto (n : nat) : list nat := seq 0 (S n).

End Binary64.

(* ================================================================== *)
(** ** The world: tables, flags, the fault script and the trace        *)
(* ================================================================== *)

(** A row of [payments]. *)
Record Payment := mkPayment {
  payment_id : string;
  user_id : Z;
  amount : Z;
  currency : string;
  status : string;
  p_content_id : option string;
  request_timestamp : Z;
  completion_timestamp : option Z
}.

(** A row of [users]. *)
Record User := mkUser {
  u_user_id : Z;
  username : option string
}.

(** The dictionary built by [Database.get_pending_payments_for_admin]. *)
Record Delivery := mkDelivery {
  d_payment_id : string;
  d_user_id : Z;
  d_amount : Z;
  d_currency : string;
  d_request_timestamp : Z
}.

(** How a user is named in messages: ["@name"] or ["User <id>"]. *)
Inductive Username :=
| AtName (n : string)
| UserNo (uid : Z).

(** What the process does to the outside, newest first in the trace. *)
Inductive event :=
| Downloaded (google_drive_file_id : string)
| SentVideo (chat_id : Z) (title : string)
| SentDocument (chat_id : Z) (title : string)
| Linked (payment_id : string) (content_id : string)
| AdminNotified (title : string) (who : Username) (payment_id : string)
| LogProcessing (payment_id : string) (user_id : Z)
| Slept (seconds : Q).

Inductive exn :=
| DatabaseError
| DriveError
| TelegramError
| InitError
| SleepError
| TypeError
| NameError
| CancelledError.   (* asyncio.CancelledError *)

Record World := mkWorld {
  payments : list Payment;
  content_library : list ContentRow;
  users : list User;
  initialized : bool;          (* DeliveryAutomator.initialized *)
  cm_initialized : bool;       (* ContentManager.initialized *)
  processed_count : nat;       (* ContinuousDelivery.processed_count *)
  error_count : nat;           (* ContinuousDelivery.error_count *)
  faults : list bool;          (* does the next outside call raise? *)
  trace : list event
}.

Definition with_payments (ps : list Payment) (w : World) : World :=
  mkWorld ps (content_library w) (users w) (initialized w) (cm_initialized w)
          (processed_count w) (error_count w) (faults w) (trace w).

Definition with_initialized (b : bool) (w : World) : World :=
  mkWorld (payments w) (content_library w) (users w) b (cm_initialized w)
          (processed_count w) (error_count w) (faults w) (trace w).

Definition with_cm_initialized (b : bool) (w : World) : World :=
  mkWorld (payments w) (content_library w) (users w) (initialized w) b
          (processed_count w) (error_count w) (faults w) (trace w).

Definition with_processed_count (n : nat) (w : World) : World :=
  mkWorld (payments w) (content_library w) (users w) (initialized w)
          (cm_initialized w) n (error_count w) (faults w) (trace w).

Definition with_error_count (n : nat) (w : World) : World :=
  mkWorld (payments w) (content_library w) (users w) (initialized w)
          (cm_initialized w) (processed_count w) n (faults w) (trace w).

Definition with_faults (fs : list bool) (w : World) : World :=
  mkWorld (payments w) (content_library w) (users w) (initialized w)
          (cm_initialized w) (processed_count w) (error_count w) fs (trace w).

Definition with_trace (t : list event) (w : World) : World :=
  mkWorld (payments w) (content_library w) (users w) (initialized w)
          (cm_initialized w) (processed_count w) (error_count w) (faults w) t.

(* ================================================================== *)
(** ** A state and exception monad                                     *)
(* ================================================================== *)

Inductive result (A : Type) :=
| Ok (a : A)
| Raise (e : exn).
Arguments Ok {A} a.
Arguments Raise {A} e.

Definition M (A : Type) : Type := World -> result A * World.

Definition ret {A} (a : A) : M A := fun w => (Ok a, w).

Definition raise {A} (e : exn) : M A := fun w => (Raise e, w).

Definition bind {A B} (m : M A) (k : A -> M B) : M B :=
  fun w =>
    match m w with
    | (Ok a, w') => k a w'
    | (Raise e, w') => (Raise e, w')
    end.

(** [try: m  except Exception as e: h e] *)
Definition try_except {A} (m : M A) (h : exn -> M A) : M A :=
  fun w =>
    match m w with
    | (Ok a, w') => (Ok a, w')
    | (Raise e, w') => h e w'
    end.

Declare Scope monad_scope.
Delimit Scope monad_scope with monad.
Notation "x <- m ;; k" := (bind m (fun x => k))
  (at level 61, m at next level, right associativity) : monad_scope.
Notation "m ;; k" := (bind m (fun _ => k))
  (at level 61, right associativity) : monad_scope.
Local Open Scope monad_scope.

Definition get_world : M World := fun w => (Ok w, w).

Definition modify (f : World -> World) : M unit := fun w => (Ok tt, f w).

(** One call that leaves the process: it consumes the head of the fault
    script and raises [e] when that head is [true]. *)
Definition outside (e : exn) : M unit :=
  fun w =>
    let w' := with_faults (tl (faults w)) w in
    if hd false (faults w) then (Raise e, w') else (Ok tt, w').

Definition emit (ev : event) : M unit :=
  modify (fun w => with_trace (ev :: trace w) w).

(** Result and final world of a run. *)
Definition value {A} (r : result A * World) : result A := fst r.
Definition final {A} (r : result A * World) : World := snd r.

(* ================================================================== *)
(** ** [ORDER BY]: a stable insertion sort                             *)
(* ================================================================== *)

(** [ORDER BY key] on the rows [l], for one order of rows with equal
    keys: the one [l] lists them in.  The store fixes no such order, and
    [l] ranges over all of them. *)
Section OrderBy.
Context {A : Type}.
Variable before : A -> A -> bool.

Fixpoint insert_row (x : A) (l : list A) : list A :=
  match l with
  | [] => [x]
  | y :: l' => if before x y then x :: l else y :: insert_row x l'
  end.

Fixpoint order_by (l : list A) : list A :=
  match l with
  | [] => []
  | x :: l' => insert_row x (order_by l')
  end.
End OrderBy.

(* ================================================================== *)
(** ** [database.py]                                                   *)
(* ================================================================== *)

Module Database.

(** [UPDATE payments SET content_id = ..., status = 'delivered'] on one
    row. *)
Definition deliver_row (cid : string) (p : Payment) : Payment :=
  mkPayment (payment_id p) (user_id p) (amount p) (currency p)
            "delivered" (Some cid) (request_timestamp p)
            (completion_timestamp p).

Definition set_status (st : string) (now : Z) (p : Payment) : Payment :=
  mkPayment (payment_id p) (user_id p) (amount p) (currency p)
            st (p_content_id p) (request_timestamp p) (Some now).

Definition expire_row (p : Payment) : Payment :=
  mkPayment (payment_id p) (user_id p) (amount p) (currency p)
            "expired" (p_content_id p) (request_timestamp p)
            (completion_timestamp p).

Definition has_payment (pid : string) (w : World) : bool :=
  existsb (fun p => (payment_id p =? pid)%string) (payments w).

Definition has_content (cid : string) (w : World) : bool :=
  existsb (fun c => (content_id c =? cid)%string) (content_library w).

Definition has_user (uid : Z) (w : World) : bool :=
  existsb (fun u => (u_user_id u =? uid)%Z) (users w).

(** [INSERT INTO payments ... 'pending']; the primary key and the
    reference to [users] are checked by the store. *)
Definition add_pending_payment (now : Z) (pid : string) (uid amt : Z)
    (cur : string) : M unit :=
  outside DatabaseError ;;
  w <- get_world ;;
  if has_payment pid w || negb (has_user uid w) then raise DatabaseError
  else modify (with_payments
                 (payments w ++ [mkPayment pid uid amt cur "pending" None now None])).

(** [UPDATE payments SET status = %s, completion_timestamp = NOW() ...] *)
Definition update_payment_status (now : Z) (pid st : string) : M unit :=
  outside DatabaseError ;;
  w <- get_world ;;
  modify (with_payments
            (map (fun p => if (payment_id p =? pid)%string
                           then set_status st now p else p)
                 (payments w))).

Definition get_payment_details (pid : string) : M (option Payment) :=
  outside DatabaseError ;;
  w <- get_world ;;
  ret (find (fun p => (payment_id p =? pid)%string) (payments w)).

(** [expiry_hours] is [Config.REQUEST_EXPIRY_HOURS]; timestamps count
    microseconds. *)
Definition cleanup_expired_pending_payments (expiry_hours now : Z) : M unit :=
  outside DatabaseError ;;
  w <- get_world ;;
  modify (with_payments
            (map (fun p =>
                    if (status p =? "pending")%string &&
                       (request_timestamp p + expiry_hours * 3600000000 <? now)%Z
                    then expire_row p else p)
                 (payments w))).

Definition get_content_from_cms_library (cid : string) : M (option ContentRow) :=
  outside DatabaseError ;;
  w <- get_world ;;
  ret (find (fun c => (content_id c =? cid)%string) (content_library w)).

(** The [UPDATE] of the write-back.  The constraint [fk_content] lets a
    row take only a [content_id] present in [content_library]. *)
Definition link_content_to_payment (pid cid : string) : M unit :=
  outside DatabaseError ;;
  w <- get_world ;;
  if has_payment pid w && negb (has_content cid w) then raise DatabaseError
  else
    modify (with_payments
              (map (fun p => if (payment_id p =? pid)%string
                             then deliver_row cid p else p)
                   (payments w))) ;;
    emit (Linked pid cid).

Definition is_pending_delivery (p : Payment) : bool :=
  (status p =? "completed")%string &&
  match p_content_id p with None => true | Some _ => false end.

Definition oldest_first (p q : Payment) : bool :=
  (request_timestamp p <=? request_timestamp q)%Z.

Definition delivery_of (p : Payment) : Delivery :=
  mkDelivery (payment_id p) (user_id p) (amount p) (currency p)
             (request_timestamp p).

(** [... WHERE status = 'completed' AND content_id IS NULL
     ORDER BY request_timestamp ASC] *)
Definition pending_rows (ps : list Payment) : list Payment :=
  order_by oldest_first (filter is_pending_delivery ps).

Definition get_pending_payments_for_admin : M (list Delivery) :=
  outside DatabaseError ;;
  w <- get_world ;;
  ret (map delivery_of (pending_rows (payments w))).

Definition get_user_info (uid : Z) : M (option User) :=
  outside DatabaseError ;;
  w <- get_world ;;
  ret (find (fun u => (u_user_id u =? uid)%Z) (users w)).

End Database.

(* ================================================================== *)
(** ** [content_manager.py]                                            *)
(* ================================================================== *)

Module ContentManager.

(** Pool and schema set-up; on success the manager is initialised. *)
Definition initialize : M unit :=
  try_except
    (outside InitError ;;
     modify (with_cm_initialized true))
    (fun e => raise e).

Definition ensure_initialized : M unit :=
  w <- get_world ;;
  if cm_initialized w then ret tt else initialize.

Definition newest_first (a b : ContentRow) : bool :=
  (uploaded_at b <=? uploaded_at a)%Z.

(** [... FROM content_library ORDER BY uploaded_at DESC LIMIT %s] *)
Definition listing (limit : nat) (rows : list ContentRow) : list Content :=
  map listed (firstn limit (order_by newest_first rows)).

(** [list_contents(limit)] with no search term, as the pipeline calls
    it. *)
Definition list_contents (limit : nat) : M (list Content) :=
  ensure_initialized ;;
  try_except
    (outside DatabaseError ;;
     w <- get_world ;;
     ret (listing limit (content_library w)))
    (fun _ => ret []).

Definition find_best_content_match (user_input : string) : M (option Content) :=
  ensure_initialized ;;
  try_except
    (all_contents <- list_contents 1000 ;;
     ret (Matcher.best_match_in user_input all_contents))
    (fun _ => ret None).

End ContentManager.

(* ================================================================== *)
(** ** [delivery_automater.py]                                         *)
(* ================================================================== *)

Module DeliveryAutomator.
Import Text.

(** Pool and schema, bot, Drive credentials, then the content manager;
    only then is the flag set. *)
Definition initialize : M unit :=
  try_except
    (outside InitError ;;
     ContentManager.initialize ;;
     modify (with_initialized true))
    (fun e => raise e).

Definition ensure_initialized : M unit :=
  w <- get_world ;;
  if initialized w then ret tt else initialize.

Definition get_pending_deliveries : M (list Delivery) :=
  ensure_initialized ;;
  try_except Database.get_pending_payments_for_admin (fun _ => ret []).

(** Metadata request, download, then one of the two send calls.  Every
    exception is reported and raised again. *)
Definition _send_content_to_user (uid : Z) (google_drive_file_id file_type title : string)
    : M unit :=
  try_except
    (outside DriveError ;;                 (* files().get(...).execute() *)
     outside DriveError ;;                 (* the next_chunk loop *)
     emit (Downloaded google_drive_file_id) ;;
     if (lower file_type =? "video")%string then
       outside TelegramError ;;
       emit (SentVideo uid title)
     else
       outside TelegramError ;;
       emit (SentDocument uid title))
    (fun e => raise e).

Definition display_name (user_info : option User) (uid : Z) : Username :=
  match user_info with
  | Some u =>
      match username u with
      | Some (String a s) => AtName (String a s)
      | _ => UserNo uid
      end
  | None => UserNo uid
  end.

(** The [if content_id: ... elif content_name: ... else: ...] part of
    [process_delivery]: the row to deliver, or [None] where the source
    returns [False]. *)
Definition choose_content (cid cname : option string) : M (option ContentRow) :=
  if truthy cid then
    content <- Database.get_content_from_cms_library
                 (match cid with Some c => c | None => EmptyString end) ;;
    match content with
    | None => ret None
    | Some c => ret (Some c)
    end
  else if truthy cname then
    content_match <- ContentManager.find_best_content_match
                       (match cname with Some n => n | None => EmptyString end) ;;
    match content_match with
    | Some m =>
        content <- Database.get_content_from_cms_library (id m) ;;
        match content with
        | None => raise TypeError   (* content['google_drive_file_id'] on None *)
        | Some c => ret (Some c)
        end
    | None => ret None
    end
  else ret None.

(** From [user_id = payment['user_id']] to [return True]: transmit, write
    back, tell the operator. *)
Definition send_and_record (pid : string) (payment : Payment) (who : Username)
    (content : ContentRow) : M bool :=
  _send_content_to_user (user_id payment) (google_drive_file_id content)
                        (file_type content) (content_name content) ;;
  Database.link_content_to_payment pid (content_id content) ;;
  try_except
    (outside TelegramError ;;
     emit (AdminNotified (content_name content) who pid))
    (fun _ => ret tt) ;;
  ret true.

(** The [try] block of [process_delivery]. *)
Definition deliver (pid : string) (cid cname : option string) : M bool :=
  payment <- Database.get_payment_details pid ;;
  match payment with
  | None => ret false
  | Some payment =>
      if negb (status payment =? "completed")%string then ret false
      else
        user_info <- Database.get_user_info (user_id payment) ;;
        let who := display_name user_info (user_id payment) in
        chosen <- choose_content cid cname ;;
        match chosen with
        | None => ret false
        | Some content => send_and_record pid payment who content
        end
  end.

Definition process_delivery (pid : string) (cid cname : option string) : M bool :=
  ensure_initialized ;;
  try_except (deliver pid cid cname) (fun _ => ret false).

(** Whatever the strategy name, the head of the listing is returned. *)
Definition _determine_content_to_deliver (uid : Z) (pid strategy : string)
    : M (option Content) :=
  try_except
    (contents <- ContentManager.list_contents 1000 ;;
     ret (hd_error contents))
    (fun _ => ret None).

End DeliveryAutomator.

(* ================================================================== *)
(** ** [Continous_delivery.py]                                         *)
(* ================================================================== *)

Module ContinuousDelivery.

Definition initialize : M bool :=
  try_except (DeliveryAutomator.initialize ;; ret true) (fun _ => ret false).

(** One turn of the [for delivery in pending_deliveries] loop. *)
Definition process_one (delivery : Delivery) (counts : nat * nat) : M (nat * nat) :=
  let '(success_count, error_count_) := counts in
  emit (LogProcessing (d_payment_id delivery) (d_user_id delivery)) ;;
  content_to_deliver <-
    DeliveryAutomator._determine_content_to_deliver
      (d_user_id delivery) (d_payment_id delivery) "recent" ;;
  match content_to_deliver with
  | Some content =>
      success <- DeliveryAutomator.process_delivery
                   (d_payment_id delivery) (Some (id content)) None ;;
      if success then
        modify (fun w => with_processed_count (S (processed_count w)) w) ;;
        ret (S success_count, error_count_)
      else
        modify (fun w => with_error_count (S (error_count w)) w) ;;
        ret (success_count, S error_count_)
  | None =>
      modify (fun w => with_error_count (S (error_count w)) w) ;;
      ret (success_count, S error_count_)
  end.

Fixpoint process_each (pending : list Delivery) (counts : nat * nat) : M (nat * nat) :=
  match pending with
  | [] => ret counts
  | delivery :: rest =>
      counts' <- process_one delivery counts ;;
      process_each rest counts'
  end.

(** The [try] block of [check_and_process_deliveries]. *)
Definition batch_pass : M (nat * nat) :=
  pending_deliveries <- DeliveryAutomator.get_pending_deliveries ;;
  match pending_deliveries with
  | [] => ret (0, 0)%nat
  | _ => process_each pending_deliveries (0, 0)%nat
  end.

Definition check_and_process_deliveries : M (nat * nat) :=
  try_except batch_pass (fun _ => ret (0, 0)%nat).

(** [await asyncio.sleep(seconds)] *)
Definition sleep (seconds : Q) : M unit :=
  outside SleepError ;;
  emit (Slept seconds).

(** The ceiling-limited delay computed in the handler. *)
Definition backoff_time (retry_count : nat) : Z :=
  Z.min (60 * 2 ^ Z.of_nat retry_count) 3600.

(** The name [random] as the module binds it.  The file imports
    [asyncio], [sys], [os], [time], [signal], [logging] and [datetime]
    only, so the name is unbound. *)
Definition module_random : option Q := None.

(** The [try] block of the loop of [run_with_exponential_backoff];
    [retry_count] is the local variable as the block finds it. *)
Definition backoff_try (check_interval : Z) (retry_count : nat) : M nat :=
  let retry_count := 0%nat in            (* retry_count = 0 *)
  check_and_process_deliveries ;;
  let wait_time := inject_Z check_interval in
  sleep wait_time ;;
  ret retry_count.

(** The [except Exception] block of that loop.  The block is entered
    with the value the [try] block left in [retry_count], which is the
    [0] assigned by its first statement.  [random] is the value
    [random.random()] yields when the name is bound. *)
Definition backoff_except (random : option Q) (retry_count : nat) : M nat :=
  let retry_count := S retry_count in    (* retry_count += 1 *)
  let backoff_time := backoff_time retry_count in
  let jitter := (inject_Z backoff_time * (1 # 10))%Q in
  match random with
  | None => raise NameError
  | Some r =>
      let wait_time := (inject_Z backoff_time + (r * jitter * 2 - jitter))%Q in
      sleep wait_time ;;
      ret retry_count
  end.

(** One turn of the [while self.running] loop; the result is the value
    of [retry_count] at the end of the turn. *)
Definition backoff_cycle (random : option Q) (check_interval : Z)
    (retry_count : nat) : M nat :=
  try_except
    (backoff_try check_interval retry_count)
    (fun e => backoff_except random 0%nat).

(** The loop, for as many turns as [running] stays set. *)
Fixpoint backoff_loop (random : option Q) (check_interval : Z)
    (turns : nat) (retry_count : nat) : M nat :=
  match turns with
  | O => ret retry_count
  | S turns' =>
      retry_count' <- backoff_cycle random check_interval retry_count ;;
      backoff_loop random check_interval turns' retry_count'
  end.

(** [turns] is the number of turns taken before a signal clears
    [self.running].  The closing [cleanup], which shuts the pool and the
    Drive client and touches neither tables nor trace, is left out. *)
Definition run_with_exponential_backoff (random : option Q)
    (check_interval : Z) (turns : nat) : M unit :=
  ok <- initialize ;;
  if negb ok then ret tt
  else
    let retry_count := 0%nat in
    backoff_loop random check_interval turns retry_count ;;
    ret tt.

(** [await asyncio.sleep(seconds)] in [run_continuous], whose loop tells
    a cancellation from other exceptions: when the fault script makes
    the sleep raise, the next entry of the script says whether what it
    raises is [asyncio.CancelledError]. *)
Definition sleep_or_cancel (seconds : Q) : M unit :=
  fun w =>
    let w1 := with_faults (tl (faults w)) w in
    if hd false (faults w) then
      let w2 := with_faults (tl (faults w1)) w1 in
      if hd false (faults w1) then (Raise CancelledError, w2)
      else (Raise SleepError, w2)
    else emit (Slept seconds) w1.

(** [try: m  except asyncio.CancelledError: c  except Exception as e: h e] *)
Definition try_except_cancelled {A} (m c : M A) (h : exn -> M A) : M A :=
  fun w =>
    match m w with
    | (Ok a, w') => (Ok a, w')
    | (Raise CancelledError, w') => c w'
    | (Raise e, w') => h e w'
    end.

(** One turn of the loop of [run_continuous]; the result says whether
    the loop goes on: [false] is the [break] of the cancellation
    handler. *)
Definition continuous_cycle (check_interval : Z) : M bool :=
  try_except_cancelled
    (check_and_process_deliveries ;;
     sleep_or_cancel (inject_Z check_interval) ;;
     ret true)
    (ret false)
    (fun _ => sleep_or_cancel 60%Q ;; ret true).

End ContinuousDelivery.

(* ================================================================== *)
(** ** Sample data                                                     *)
(* ================================================================== *)

Module Sample.

Definition movie_a : ContentRow := mkContentRow "a1" "Movie A" "drive-a" "video" 900.
Definition movie_b : ContentRow := mkContentRow "b2" "Movie B" "drive-b" "document" 1000.

(** Two rows uploaded at the same instant; the one with the greater
    [content_id] is stored first. *)
Definition twin_b : ContentRow := mkContentRow "b2" "Movie B" "drive-b" "video" 1000.
Definition twin_a : ContentRow := mkContentRow "a1" "Movie A" "drive-a" "video" 1000.

Definition alice : User := mkUser 7 (Some "alice").

Definition paid (pid : string) (at_ : Z) : Payment :=
  mkPayment pid 7 500 "USD" "completed" None at_ (Some (at_ + 1)%Z).

Definition unpaid (pid : string) (at_ : Z) : Payment :=
  mkPayment pid 7 500 "USD" "pending" None at_ None.

(** An initialised world with the given tables, fault script and an
    empty trace. *)
Definition world (ps : list Payment) (lib : list ContentRow) (fs : list bool) : World :=
  mkWorld ps lib [alice] true true 0 0 fs [].

(** The same before [initialize] has run. *)
Definition cold_world (ps : list Payment) (lib : list ContentRow) (fs : list bool) : World :=
  mkWorld ps lib [alice] false false 0 0 fs [].

End Sample.

(* ================================================================== *)
(** ** Vocabulary of the properties                                    *)
(* ================================================================== *)

Definition is_transmission (ev : event) : bool :=
  match ev with
  | SentVideo _ _ | SentDocument _ _ => true
  | _ => false
  end.

Definition is_write_back (ev : event) : bool :=
  match ev with
  | Linked _ _ => true
  | _ => false
  end.

Definition is_attempt (ev : event) : bool :=
  match ev with
  | LogProcessing _ _ => true
  | _ => false
  end.

(** The payments a stretch of trace shows as taken up by the batch loop,
    in the order they were taken up. *)
Definition attempted (evs : list event) : list string :=
  rev (flat_map (fun ev => match ev with
                           | LogProcessing pid _ => [pid]
                           | _ => []
                           end) evs).

(** The delays a stretch of trace shows, in the order they were slept. *)
Definition delays (evs : list event) : list Q :=
  rev (flat_map (fun ev => match ev with
                           | Slept q => [q]
                           | _ => []
                           end) evs).

(** The invariant of a payment row: a content reference is present
    exactly on delivered rows, and it names a catalogue entry. *)
Definition row_ok (library : list ContentRow) (p : Payment) : Prop :=
  (p_content_id p <> None <-> status p = "delivered") /\
  (forall cid, p_content_id p = Some cid ->
               exists c, In c library /\ content_id c = cid).

Definition ledger_ok (w : World) : Prop :=
  forall p, In p (payments w) -> row_ok (content_library w) p.

(** [r] is the first stored row among those uploaded last. *)
Definition first_latest (rows : list ContentRow) (r : ContentRow) : Prop :=
  exists l1 l2,
    rows = l1 ++ r :: l2 /\
    (forall x, In x l1 -> (uploaded_at x < uploaded_at r)%Z) /\
    (forall x, In x l2 -> (uploaded_at x <= uploaded_at r)%Z).

(** A run leaves every final world in relation [R] to its start. *)
Definition respects (R : World -> World -> Prop) {A} (m : M A) : Prop :=
  forall w, R w (final (m w)).

(** Nothing but the fault script and the two flags may differ, and the
    flags are only ever set. *)
Definition quiet (w w' : World) : Prop :=
  payments w' = payments w /\
  content_library w' = content_library w /\
  users w' = users w /\
  trace w' = trace w /\
  processed_count w' = processed_count w /\
  error_count w' = error_count w /\
  (initialized w = true -> initialized w' = true) /\
  (cm_initialized w = true -> cm_initialized w' = true).

(** Tables other than [payments] are kept, flags are only ever set. *)
Definition keeps_catalog (w w' : World) : Prop :=
  content_library w' = content_library w /\
  users w' = users w /\
  (initialized w = true -> initialized w' = true) /\
  (cm_initialized w = true -> cm_initialized w' = true).

(** The ledger invariant survives the run. *)
Definition keeps_ledger_ok (w w' : World) : Prop :=
  content_library w' = content_library w /\
  (ledger_ok w -> ledger_ok w').

(** [w'] is [w] with [evs] added to the trace and [ps] for the ledger,
    up to what [quiet] lets differ. *)
Definition effect (w : World) (evs : list event) (ps : list Payment)
    (w' : World) : Prop :=
  quiet (with_trace (evs ++ trace w) (with_payments ps w)) w'.

(** What one call of [process_delivery] may add to the trace and do to the
    ledger: [evs] is the added stretch, newest first. *)
Inductive delivery_outcome (w : World) (pid : string)
    : list event -> bool -> list Payment -> Prop :=
| NothingDone :
    delivery_outcome w pid [] false (payments w)
| FetchedOnly d :
    delivery_outcome w pid [Downloaded d] false (payments w)
| SentNotLinked d sent :
    is_transmission sent = true ->
    delivery_outcome w pid [sent; Downloaded d] false (payments w)
| Delivered d sent cid notes :
    is_transmission sent = true ->
    Database.has_content cid w = true ->
    (notes = [] \/ exists t u, notes = [AdminNotified t u pid]) ->
    delivery_outcome w pid (notes ++ [Linked pid cid; sent; Downloaded d]) true
      (map (fun p => if (payment_id p =? pid)%string
                     then Database.deliver_row cid p else p) (payments w)).

(* ================================================================== *)
(** ** [database.py]: the remaining operations                         *)
(* ================================================================== *)

Definition with_users (us : list User) (w : World) : World :=
  mkWorld (payments w) (content_library w) us (initialized w) (cm_initialized w)
          (processed_count w) (error_count w) (faults w) (trace w).

Definition with_content_library (lib : list ContentRow) (w : World) : World :=
  mkWorld (payments w) lib (users w) (initialized w) (cm_initialized w)
          (processed_count w) (error_count w) (faults w) (trace w).

(** The dictionary returned by [Database.get_content_by_name]: it has no
    [uploaded_at]. *)
Record NamedContent := mkNamedContent {
  n_content_id : string;
  n_content_name : string;
  n_file_type : string;
  n_google_drive_file_id : string
}.

Module Store.
Import Text.

Definition named (r : ContentRow) : NamedContent :=
  mkNamedContent (content_id r) (content_name r) (file_type r)
                 (google_drive_file_id r).

(** [... WHERE LOWER(content_name) = LOWER(%s)], then [fetchone]. *)
Definition get_content_by_name (content_name_ : string) : M (option NamedContent) :=
  outside DatabaseError ;;
  w <- get_world ;;
  ret (option_map named
         (find (fun c => (lower (content_name c) =? lower content_name_)%string)
               (content_library w))).

(** [INSERT INTO users ... ON CONFLICT (user_id) DO UPDATE ...], on the
    columns the record keeps. *)
Definition add_or_update_user (uid : Z) (username_ : option string) : M unit :=
  outside DatabaseError ;;
  w <- get_world ;;
  modify (with_users
            (if Database.has_user uid w
             then map (fun u => if (u_user_id u =? uid)%Z
                                then mkUser uid username_ else u) (users w)
             else users w ++ [mkUser uid username_])).

Definition has_content_name (nm : string) (w : World) : bool :=
  existsb (fun c => (content_name c =? nm)%string) (content_library w).

(** [INSERT INTO content_library ...]: the primary key and the [UNIQUE]
    name are checked by the store; the error is logged and raised
    again.  [now] is the [NOW()] of the [uploaded_at] default. *)
Definition add_content_to_cms_library (now : Z)
    (cid nm drive ft : string) : M unit :=
  try_except
    (outside DatabaseError ;;
     w <- get_world ;;
     if Database.has_content cid w || has_content_name nm w
     then raise DatabaseError
     else modify (with_content_library
                    (content_library w ++ [mkContentRow cid nm drive ft now])))
    (fun e => raise e).

Definition newest_payment_first (p q : Payment) : bool :=
  (request_timestamp q <=? request_timestamp p)%Z.

(** [... WHERE user_id = %s ORDER BY request_timestamp DESC LIMIT 5] *)
Definition user_payment_rows (uid : Z) (ps : list Payment) : list Payment :=
  firstn 5 (order_by newest_payment_first
              (filter (fun p => (user_id p =? uid)%Z) ps)).

Definition get_user_payments (uid : Z) : M (list (string * Z * string)) :=
  outside DatabaseError ;;
  w <- get_world ;;
  ret (map (fun p => (payment_id p, request_timestamp p, status p))
           (user_payment_rows uid (payments w))).

(** [SELECT payment_id, status FROM payments ORDER BY request_timestamp DESC] *)
Definition get_all_payment_ids : M (list (string * string)) :=
  outside DatabaseError ;;
  w <- get_world ;;
  ret (map (fun p => (payment_id p, status p))
           (order_by newest_payment_first (payments w))).

End Store.

(* ================================================================== *)
(** ** SQL [LIKE]                                                      *)
(* ================================================================== *)

Module Like.

Definition percent : ascii := "%"%char.
Definition underscore : ascii := "_"%char.
Definition backslash : ascii := "\"%char.

(** Some suffix of [s] satisfies [m]. *)
Fixpoint any_suffix (m : string -> bool) (s : string) : bool :=
  m s ||
  match s with
  | EmptyString => false
  | String _ s' => any_suffix m s'
  end.

(** [s LIKE p]: [%] stands for any run of characters, [_] for any one
    character, and the backslash makes the next character literal.  A
    pattern that ends in a lone backslash is an error of the store; the
    patterns built by [list_contents] end in [%] and never get there. *)
Fixpoint like (p s : string) {struct p} : bool :=
  match p with
  | EmptyString =>
      match s with EmptyString => true | _ => false end
  | String c p' =>
      if Ascii.eqb c percent then any_suffix (like p') s
      else if Ascii.eqb c underscore then
        match s with
        | String _ s' => like p' s'
        | EmptyString => false
        end
      else if Ascii.eqb c backslash then
        match p' with
        | String c2 p'' =>
            match s with
            | String c' s' => Ascii.eqb c2 c' && like p'' s'
            | EmptyString => false
            end
        | EmptyString => false
        end
      else
        match s with
        | String c' s' => Ascii.eqb c c' && like p' s'
        | EmptyString => false
        end
  end.

(** No character of [t] has a meaning of its own in a pattern. *)
Fixpoint plain (t : string) : bool :=
  match t with
  | EmptyString => true
  | String c t' =>
      negb (Ascii.eqb c percent) && negb (Ascii.eqb c underscore) &&
      negb (Ascii.eqb c backslash) && plain t'
  end.

End Like.

(* ================================================================== *)
(** ** [content_manager.py]: the remaining operations                  *)
(* ================================================================== *)

(** An element of the list handed to [add_content_bulk]; [None] is a
    missing key. *)
Record ContentData := mkContentData {
  cd_name : option string;
  cd_drive_id : option string;
  cd_type : option string
}.

Inductive BulkError :=
| FailedToAdd                 (* 'Failed to add content' *)
| MissingKey (key : string)   (* str(KeyError) *)
| Raised (e : exn).

(** A row of the results of [add_content_bulk]. *)
Inductive BulkResult :=
| BulkSuccess (name id drive_id type : string)
| BulkFailure (name : string) (error : BulkError).

Module Library.
Import Text.

(** [add_content(content_name, google_drive_file_id, file_type)];
    [uuid] is the outcome of [uuid.uuid4()]. *)
Definition add_content (uuid : string) (now : Z) (nm drive ft : string)
    : M (option string) :=
  ContentManager.ensure_initialized ;;
  try_except
    (let content_id_ := uuid in
     Store.add_content_to_cms_library now content_id_ nm drive ft ;;
     ret (Some content_id_))
    (fun _ => ret None).

(** One turn of the loop of [add_content_bulk]; [i] numbers the turn. *)
Definition add_one (uuid4 : nat -> string) (clock : nat -> Z) (i : nat)
    (content_data : ContentData) : M (bool * BulkResult) :=
  let shown := match cd_name content_data with Some n => n | None => "unknown" end in
  match cd_name content_data with
  | None => ret (false, BulkFailure shown (MissingKey "name"))
  | Some content_name_ =>
      match cd_drive_id content_data with
      | None => ret (false, BulkFailure shown (MissingKey "drive_id"))
      | Some google_drive_file_id_ =>
          let file_type_ := match cd_type content_data with
                            | Some t => t
                            | None => "document"
                            end in
          try_except
            (content_id_ <- add_content (uuid4 i) (clock i) content_name_
                              google_drive_file_id_ file_type_ ;;
             match content_id_ with
             | Some (String a s) =>
                 ret (true, BulkSuccess content_name_ (String a s)
                                        google_drive_file_id_ file_type_)
             | _ => ret (false, BulkFailure content_name_ FailedToAdd)
             end)
            (fun e => ret (false, BulkFailure shown (Raised e)))
      end
  end.

Fixpoint add_each (uuid4 : nat -> string) (clock : nat -> Z) (i : nat)
    (content_list : list ContentData) (acc : nat * nat * list BulkResult)
    : M (nat * nat * list BulkResult) :=
  match content_list with
  | [] => ret acc
  | content_data :: rest =>
      let '(success_count, error_count_, results) := acc in
      r <- add_one uuid4 clock i content_data ;;
      let '(ok, row) := r in
      add_each uuid4 clock (S i) rest
        (if ok then (S success_count, error_count_, results ++ [row])
         else (success_count, S error_count_, results ++ [row]))
  end.

Definition add_content_bulk (uuid4 : nat -> string) (clock : nat -> Z)
    (content_list : list ContentData) : M (nat * nat * list BulkResult) :=
  ContentManager.ensure_initialized ;;
  add_each uuid4 clock 0 content_list (0, 0, [])%nat.

(** [... WHERE LOWER(content_name) LIKE LOWER(%s) ORDER BY uploaded_at
    DESC LIMIT %s] with the parameter ['%' + search_term + '%']. *)
Definition search_listing (limit : nat) (search_term : string)
    (rows : list ContentRow) : list Content :=
  map listed
      (firstn limit
         (order_by ContentManager.newest_first
            (filter (fun r =>
                       Like.like
                         (lower (String Like.percent
                                   (search_term ++ String Like.percent EmptyString)))
                         (lower (content_name r)))
                    rows))).

(** [list_contents(limit, search_term)] *)
Definition list_contents (limit : nat) (search_term : option string)
    : M (list Content) :=
  ContentManager.ensure_initialized ;;
  try_except
    (outside DatabaseError ;;
     w <- get_world ;;
     if truthy search_term
     then ret (search_listing limit
                 (match search_term with Some t => t | None => EmptyString end)
                 (content_library w))
     else ret (ContentManager.listing limit (content_library w)))
    (fun _ => ret []).

End Library.

(* ================================================================== *)
(** ** [delivery_automater.py]: the remaining operations               *)
(* ================================================================== *)

(** A row gathered by [process_all_pending]. *)
Inductive DeliveryRow :=
| RowSuccess (payment_id : string) (user_id : Z) (content_id content_name : string)
| RowError (payment_id : string) (user_id : Z) (error : string).

(** An entry of the list returned by [list_pending]; [None] in
    [l_username] is the text 'No username', [Some n] is ['@' + n]. *)
Record PendingDetail := mkPendingDetail {
  l_payment_id : string;
  l_user_id : Z;
  l_username : option string;
  l_amount : Z;
  l_currency : string;
  l_request_timestamp : Z
}.

Module Automator.

(** One turn of the loop of [process_all_pending]. *)
Definition record_one (strategy : string) (delivery : Delivery)
    (acc : nat * nat * list DeliveryRow) : M (nat * nat * list DeliveryRow) :=
  let '(success_count, error_count_, results) := acc in
  let payment_id_ := d_payment_id delivery in
  let user_id_ := d_user_id delivery in
  content_to_deliver <-
    DeliveryAutomator._determine_content_to_deliver user_id_ payment_id_ strategy ;;
  match content_to_deliver with
  | Some content =>
      success <- DeliveryAutomator.process_delivery payment_id_ (Some (id content)) None ;;
      if success then
        ret (S success_count, error_count_,
             results ++ [RowSuccess payment_id_ user_id_ (id content) (name content)])
      else
        ret (success_count, S error_count_,
             results ++ [RowError payment_id_ user_id_ "Delivery failed"])
  | None =>
      ret (success_count, S error_count_,
           results ++ [RowError payment_id_ user_id_
                         "Could not determine content to deliver"])
  end.

Fixpoint record_each (strategy : string) (pending : list Delivery)
    (acc : nat * nat * list DeliveryRow) : M (nat * nat * list DeliveryRow) :=
  match pending with
  | [] => ret acc
  | delivery :: rest =>
      acc' <- record_one strategy delivery acc ;;
      record_each strategy rest acc'
  end.

(** [process_all_pending(matching_strategy)] up to its summary line: the
    result is [None] when nothing is pending, else the two counters and
    the rows that the CSV export which follows would write. *)
Definition process_all_pending (matching_strategy : string)
    : M (option (nat * nat * list DeliveryRow)) :=
  DeliveryAutomator.ensure_initialized ;;
  pending_deliveries <- DeliveryAutomator.get_pending_deliveries ;;
  match pending_deliveries with
  | [] => ret None
  | _ =>
      r <- record_each matching_strategy pending_deliveries (0, 0, [])%nat ;;
      ret (Some r)
  end.

Definition shown_username (user_info : option User) : option string :=
  match user_info with
  | Some u =>
      match username u with
      | Some (String a s) => Some (String a s)
      | _ => None
      end
  | None => None
  end.

Definition detail_of (delivery : Delivery) : M PendingDetail :=
  user_info <- Database.get_user_info (d_user_id delivery) ;;
  ret (mkPendingDetail (d_payment_id delivery) (d_user_id delivery)
                       (shown_username user_info) (d_amount delivery)
                       (d_currency delivery) (d_request_timestamp delivery)).

Fixpoint detail_each (pending : list Delivery) : M (list PendingDetail) :=
  match pending with
  | [] => ret []
  | delivery :: rest =>
      d <- detail_of delivery ;;
      ds <- detail_each rest ;;
      ret (d :: ds)
  end.

(** [list_pending()] *)
Definition list_pending : M (list PendingDetail) :=
  pending <- DeliveryAutomator.get_pending_deliveries ;;
  match pending with
  | [] => ret []
  | _ => detail_each pending
  end.

End Automator.

(* ================================================================== *)
(** ** [Continous_delivery.py]: the fixed-interval loop                *)
(* ================================================================== *)

Module Scheduler.

(** The [while self.running] loop of [run_continuous], for as many turns
    as [running] stays set, unless a [break] leaves it before. *)
Fixpoint continuous_loop (check_interval : Z) (turns : nat) : M unit :=
  match turns with
  | O => ret tt
  | S turns' =>
      go_on <- ContinuousDelivery.continuous_cycle check_interval ;;
      if go_on then continuous_loop check_interval turns' else ret tt
  end.

Definition run_continuous (check_interval : Z) (turns : nat) : M unit :=
  ok <- ContinuousDelivery.initialize ;;
  if negb ok then ret tt
  else continuous_loop check_interval turns.

End Scheduler.

(* ================================================================== *)
(** ** Vocabulary of the further properties                            *)
(* ================================================================== *)

(** The send call [_send_content_to_user] makes for a file type. *)
Definition transmission_of (uid : Z) (file_type_ title : string) : event :=
  if (Text.lower file_type_ =? "video")%string
  then SentVideo uid title
  else SentDocument uid title.

(** The payments a stretch of trace shows as written back, in the order
    of the write-backs. *)
Definition linked (evs : list event) : list string :=
  rev (flat_map (fun ev => match ev with
                           | Linked pid _ => [pid]
                           | _ => []
                           end) evs).

(** The write-back of [cid] on the rows of payment [pid]. *)
Definition deliver_rows (pid cid : string) (ps : list Payment) : list Payment :=
  map (fun p => if (payment_id p =? pid)%string
                then Database.deliver_row cid p else p) ps.

(** Payment [pid] has a row awaiting delivery. *)
Definition queued (ps : list Payment) (pid : string) : Prop :=
  exists p, In p ps /\ payment_id p = pid /\ Database.is_pending_delivery p = true.

Definition row_payment_id (r : DeliveryRow) : string :=
  match r with
  | RowSuccess pid _ _ _ => pid
  | RowError pid _ _ => pid
  end.

Definition is_success_row (r : DeliveryRow) : bool :=
  match r with
  | RowSuccess _ _ _ _ => true
  | RowError _ _ _ => false
  end.

(** Every row of payment [pid] is delivered and carries a content
    reference. *)
Definition settled (ps : list Payment) (pid : string) : Prop :=
  forall p, In p ps -> payment_id p = pid ->
            status p = "delivered" /\ p_content_id p <> None.

(** The entry [list_pending] builds for a pending delivery, given the
    [users] table. *)
Definition detail_in (us : list User) (delivery : Delivery) : PendingDetail :=
  mkPendingDetail (d_payment_id delivery) (d_user_id delivery)
    (Automator.shown_username
       (find (fun u => (u_user_id u =? d_user_id delivery)%Z) us))
    (d_amount delivery) (d_currency delivery) (d_request_timestamp delivery).

(** The columns of a catalogue row that [add_content_bulk] reports. *)
Definition reported (r : ContentRow) : string * string * string * string :=
  (content_name r, content_id r, google_drive_file_id r, file_type r).

(** The same columns, read off the success rows of a bulk result. *)
Definition successes (rows : list BulkResult)
    : list (string * string * string * string) :=
  flat_map (fun row => match row with
                       | BulkSuccess n i d t => [(n, i, d, t)]
                       | BulkFailure _ _ => []
                       end) rows.

(** Identifiers and names are keys of the catalogue. *)
Definition catalog_keys_ok (lib : list ContentRow) : Prop :=
  NoDup (map content_id lib) /\ NoDup (map content_name lib).

(** The name a row of a bulk result carries, and the name
    [add_content_bulk] shows for an entry: ['unknown'] when the key is
    missing. *)
Definition bulk_name (row : BulkResult) : string :=
  match row with
  | BulkSuccess n _ _ _ => n
  | BulkFailure n _ => n
  end.

Definition shown_name (content_data : ContentData) : string :=
  match cd_name content_data with
  | Some n => n
  | None => "unknown"
  end.

(** The trace has only grown, and the added stretch shows the waits
    [qs], in the order they were slept. *)
Definition waited (qs : list Q) (w w' : World) : Prop :=
  exists evs, trace w' = evs ++ trace w /\ delays evs = qs.

(* ================================================================== *)
(** ** The scoring rule in the words of the specification              *)
(* ================================================================== *)

(** Modelled from the spec: the notions the scoring rule is worded in,
    "lower-cased", "white-space delimited token", "substring" and
    "matched tokens", written without the functions of [Text] and
    [Matcher], to compare these with. *)
Module Wording.

(** Modelled from the spec: [sub] is a substring of [s]. *)
Definition occurs_in (sub s : string) : Prop :=
  exists pre post, s = (pre ++ sub ++ post)%string.

(** Every character of [s] satisfies [P]. *)
Fixpoint every (P : ascii -> Prop) (s : string) : Prop :=
  match s with
  | EmptyString => True
  | String c s' => P c /\ every P s'
  end.

(** The ASCII white space: TAB, LF, VT, FF, CR, FS, GS, RS, US and the
    blank. *)
Definition white_space : list ascii :=
  map ascii_of_nat [9; 10; 11; 12; 13; 28; 29; 30; 31; 32]%nat.

Definition white (c : ascii) : Prop := In c white_space.

Definition blank (s : string) : Prop := every white s.

(** A token: not empty, and free of white space. *)
Definition token (t : string) : Prop :=
  t <> EmptyString /\ every (fun c => ~ white c) t.

(** What follows a token: the end of the text, or white space. *)
Definition token_ends (rest : string) : Prop :=
  rest = EmptyString \/ exists c r, rest = String c r /\ white c.

(** Modelled from the spec: [ts] are the white-space delimited tokens of
    [s], from left to right. *)
Inductive tokens_of : string -> list string -> Prop :=
| tokens_none s :
    blank s -> tokens_of s []
| tokens_next gap t rest ts :
    blank gap -> token t -> token_ends rest -> tokens_of rest ts ->
    tokens_of (gap ++ t ++ rest)%string (t :: ts).

Definition capitals : list ascii := list_ascii_of_string "ABCDEFGHIJKLMNOPQRSTUVWXYZ".
Definition smalls : list ascii := list_ascii_of_string "abcdefghijklmnopqrstuvwxyz".

(** [c'] is [c] in lower case: a capital letter becomes the small letter
    at the same place of the alphabet, any other character stays. *)
Definition lower_case_of (c c' : ascii) : Prop :=
  In (c, c') (combine capitals smalls) \/ (~ In c capitals /\ c' = c).

(** Modelled from the spec: [s'] is [s] lower-cased. *)
Inductive lower_cased : string -> string -> Prop :=
| lower_cased_nil : lower_cased EmptyString EmptyString
| lower_cased_cons c c' s s' :
    lower_case_of c c' -> lower_cased s s' ->
    lower_cased (String c s) (String c' s').

(** Modelled from the spec: [n] of the tokens [ts] are substrings of
    [name] (a token that comes twice counts twice). *)
Inductive matched_tokens (name : string) : list string -> nat -> Prop :=
| matched_none : matched_tokens name [] 0
| matched_hit t ts n :
    occurs_in t name -> matched_tokens name ts n ->
    matched_tokens name (t :: ts) (S n)
| matched_miss t ts n :
    ~ occurs_in t name -> matched_tokens name ts n ->
    matched_tokens name (t :: ts) n.

End Wording.

(* ================================================================== *)
(** * Properties                                                       *)
(* ================================================================== *)

(** ** The keyword matcher *)

(** ** The text primitives against the wording of the specification *)

Module WordingFacts.
Import Text Matcher Wording.

Lemma prefix_occurs sub s :
  String.prefix sub s = true <-> exists post, s = (sub ++ post)%string.
Proof.
  revert s. induction sub as [|a sub IH]; intros s.
  - split; [intros _; exists s; reflexivity|intros _; destruct s; reflexivity].
  - destruct s as [|b s].
    + split; [discriminate|intros [post H]; discriminate H].
    + cbn [String.prefix]. destruct (ascii_dec a b) as [<-|Hn].
      * rewrite IH. split.
        -- intros [post ->]. exists post. reflexivity.
        -- intros [post H]. injection H as ->. exists post. reflexivity.
      * split; [discriminate|].
        intros [post H]. injection H as E _. symmetry in E. contradiction.
Qed.

(** [sub in s] is the substring relation. *)
Lemma contains_occurs s sub : contains s sub = true <-> occurs_in sub s.
Proof.
  unfold occurs_in. induction s as [|a s IH]; cbn [contains].
  - rewrite orb_false_r, prefix_occurs. split.
    + intros [post H]. exists EmptyString, post. exact H.
    + intros (pre & post & H). destruct pre as [|c pre]; [|discriminate H].
      exists post. exact H.
  - rewrite orb_true_iff, prefix_occurs, IH. split.
    + intros [[post H]|(pre & post & H)].
      * exists EmptyString, post. exact H.
      * exists (String a pre), post. cbn [append]. rewrite H. reflexivity.
    + intros (pre & post & H). destruct pre as [|c pre].
      * left. exists post. exact H.
      * right. cbn [append] in H. injection H as _ H. exists pre, post. exact H.
Qed.

Lemma contains_not_occurs s sub : contains s sub = false <-> ~ occurs_in sub s.
Proof.
  rewrite <- contains_occurs. destruct (contains s sub); split; congruence.
Qed.

Lemma in_existsb (c : ascii) (l : list ascii) :
  In c l <-> existsb (Ascii.eqb c) l = true.
Proof.
  rewrite existsb_exists. split.
  - intros H. exists c. split; [exact H|apply Ascii.eqb_refl].
  - intros (x & Hx & E). apply Ascii.eqb_eq in E. subst x. exact Hx.
Qed.

Lemma is_space_existsb c : is_space c = existsb (Ascii.eqb c) white_space.
Proof. destruct c as [[] [] [] [] [] [] [] []]; reflexivity. Qed.

(** [str.isspace] holds of the listed characters and of no other. *)
Lemma is_space_white c : is_space c = true <-> white c.
Proof. unfold white. rewrite in_existsb, is_space_existsb. reflexivity. Qed.

Lemma is_space_not_white c : is_space c = false <-> ~ white c.
Proof.
  rewrite <- is_space_white. destruct (is_space c); split; congruence.
Qed.

Lemma every_app P a b : every P (a ++ b)%string <-> every P a /\ every P b.
Proof.
  induction a as [|c a IH]; cbn [append every]; [tauto|]. rewrite IH. tauto.
Qed.

Lemma append_empty_r s : (s ++ EmptyString)%string = s.
Proof. induction s as [|c s IH]; cbn [append]; [reflexivity|rewrite IH; reflexivity]. Qed.

Lemma append_assoc a b c : ((a ++ b) ++ c)%string = (a ++ b ++ c)%string.
Proof. induction a as [|x a IH]; cbn [append]; [reflexivity|rewrite IH; reflexivity]. Qed.

(** White space in front of a text adds no token. *)
Lemma tokens_after_white c s ts :
  white c -> tokens_of s ts -> tokens_of (String c s) ts.
Proof.
  intros Hc H. destruct H as [s Hb|gap t rest ts Hg Ht He Hr].
  - apply tokens_none. split; assumption.
  - change (String c (gap ++ t ++ rest)%string)
      with ((String c gap) ++ t ++ rest)%string.
    apply tokens_next; [split; assumption|assumption..].
Qed.

(** The scan of [str.split()]: [cur] is the token being read. *)
Lemma split_from_tokens s :
  forall cur,
    every (fun c => ~ white c) cur ->
    tokens_of (cur ++ s)%string (split_from s cur).
Proof.
  induction s as [|c s IH]; intros cur Hcur; cbn [split_from].
  - rewrite append_empty_r. destruct cur as [|a cur].
    + apply tokens_none. exact I.
    + assert (Ht : token (String a cur)) by (split; [discriminate|exact Hcur]).
      pose proof (tokens_next EmptyString (String a cur) EmptyString [] I Ht
                    (or_introl eq_refl) (tokens_none EmptyString I)) as H.
      cbn [append] in H. rewrite append_empty_r in H. exact H.
  - destruct (is_space c) eqn:Hc.
    + apply is_space_white in Hc.
      assert (Hrest : tokens_of (String c s) (split_from s EmptyString)).
      { apply tokens_after_white; [exact Hc|]. exact (IH EmptyString I). }
      destruct cur as [|a cur].
      * exact Hrest.
      * apply (tokens_next EmptyString (String a cur) (String c s)).
        -- exact I.
        -- split; [discriminate|exact Hcur].
        -- right. exists c, s. split; [reflexivity|exact Hc].
        -- exact Hrest.
    + apply is_space_not_white in Hc.
      replace (cur ++ String c s)%string
        with ((cur ++ String c EmptyString) ++ s)%string
        by (rewrite append_assoc; reflexivity).
      apply IH. apply every_app. split; [exact Hcur|]. split; [exact Hc|exact I].
Qed.

(** [str.split()] yields the white-space delimited tokens. *)
Lemma split_tokens s : tokens_of s (split s).
Proof. exact (split_from_tokens s EmptyString I). Qed.

Lemma lower_char_case c :
  existsb (fun p => Ascii.eqb (fst p) c && Ascii.eqb (snd p) (lower_char c))
          (combine capitals smalls) = true
  \/ (existsb (Ascii.eqb c) capitals = false /\ lower_char c = c).
Proof.
  destruct c as [[] [] [] [] [] [] [] []];
    first [left; vm_compute; reflexivity | right; split; vm_compute; reflexivity].
Qed.

Lemma lower_char_lower_case c : lower_case_of c (lower_char c).
Proof.
  destruct (lower_char_case c) as [H|[H E]].
  - left. apply existsb_exists in H. destruct H as ([a b] & Hin & Hab).
    apply andb_true_iff in Hab. destruct Hab as [Ha Hb].
    apply Ascii.eqb_eq in Ha, Hb. cbn [fst snd] in *. subst. exact Hin.
  - right. split; [|exact E]. rewrite in_existsb, H. discriminate.
Qed.

(** [str.lower] lower-cases. *)
Lemma lower_lower_cased s : lower_cased s (lower s).
Proof.
  induction s as [|c s IH]; cbn [lower]; constructor;
    [apply lower_char_lower_case|exact IH].
Qed.

(** The count of the partial-overlap branch is the number of matched
    tokens. *)
Lemma matching_words_matched u n : matched_tokens n (split u) (matching_words u n).
Proof.
  unfold matching_words. induction (split u) as [|t ts IH]; cbn [filter List.length].
  - constructor.
  - destruct (contains n t) eqn:E.
    + cbn [List.length]. apply matched_hit; [apply contains_occurs; exact E|exact IH].
    + apply matched_miss; [apply contains_not_occurs; exact E|exact IH].
Qed.

Lemma all_tokens_occur u n :
  all_tokens_in u n <-> (forall t, In t (split u) -> occurs_in t n).
Proof.
  unfold all_tokens_in. split; intros H t Ht; apply contains_occurs, H, Ht.
Qed.

(** The wording determines what it describes. *)
Lemma lower_case_of_unique c c' : lower_case_of c c' -> c' = lower_char c.
Proof.
  intros [H|[Hn ->]].
  - cbn in H.
    repeat (destruct H as [H|H]; [injection H as <- <-; reflexivity|]).
    destruct H.
  - destruct (lower_char_case c) as [H|[_ E]]; [|symmetry; exact E].
    exfalso. apply Hn.
    apply existsb_exists in H. destruct H as ([a b] & Hin & Hab).
    apply andb_true_iff in Hab. destruct Hab as [Ha _].
    apply Ascii.eqb_eq in Ha. cbn [fst] in Ha. subst a.
    exact (in_combine_l _ _ _ _ Hin).
Qed.

Lemma lower_cased_unique s s' : lower_cased s s' -> s' = lower s.
Proof.
  induction 1 as [|c c' s s' Hc _ IH]; cbn [lower]; [reflexivity|].
  rewrite (lower_case_of_unique _ _ Hc), IH. reflexivity.
Qed.

Lemma matched_tokens_unique n ts m :
  matched_tokens n ts m ->
  m = List.length (filter (fun word => contains n word) ts).
Proof.
  induction 1 as [|t ts m Ho _ IH|t ts m Ho _ IH]; cbn [filter].
  - reflexivity.
  - apply contains_occurs in Ho. rewrite Ho. cbn [List.length]. rewrite IH. reflexivity.
  - apply contains_not_occurs in Ho. rewrite Ho. exact IH.
Qed.

Lemma split_from_blank gap s :
  blank gap -> split_from (gap ++ s)%string EmptyString = split_from s EmptyString.
Proof.
  induction gap as [|c gap IH]; intros Hb; cbn [append]; [reflexivity|].
  destruct Hb as [Hc Hb]. apply is_space_white in Hc.
  cbn [split_from]. rewrite Hc. apply IH. exact Hb.
Qed.

Lemma split_from_token t rest :
  forall cur,
    every (fun c => ~ white c) t ->
    split_from (t ++ rest)%string cur = split_from rest (cur ++ t)%string.
Proof.
  induction t as [|c t IH]; intros cur Ht; cbn [append].
  - rewrite append_empty_r. reflexivity.
  - destruct Ht as [Hc Ht]. apply is_space_not_white in Hc.
    cbn [split_from]. rewrite Hc, (IH _ Ht), append_assoc. reflexivity.
Qed.

Lemma tokens_of_unique s ts : tokens_of s ts -> ts = split s.
Proof.
  unfold split. induction 1 as [s Hb|gap t rest ts Hg [Hne Ht] He _ IH].
  - rewrite <- (append_empty_r s), (split_from_blank s EmptyString Hb). reflexivity.
  - rewrite (split_from_blank gap _ Hg), (split_from_token t rest EmptyString Ht).
    cbn [append]. destruct t as [|a t]; [contradiction|].
    destruct He as [->|(c & r & -> & Hc)].
    + rewrite IH. reflexivity.
    + apply is_space_white in Hc. rewrite IH. cbn [split_from]. rewrite Hc. reflexivity.
Qed.

End WordingFacts.

Module MatcherFacts.
Import Text Matcher.

Lemma filter_length_lt {A} (f : A -> bool) (l : list A) :
  forallb f l = false -> (List.length (filter f l) < List.length l)%nat.
Proof.
  induction l as [|a l IH]; simpl; [discriminate|].
  intros H. pose proof (filter_length_le f l) as Hle.
  destruct (f a); simpl in *.
  - apply IH in H. lia.
  - lia.
Qed.

Lemma forallb_all_tokens u n :
  forallb (fun word => contains n word) (split u) = true <-> all_tokens_in u n.
Proof. unfold all_tokens_in. apply forallb_forall. Qed.

(** The partial-overlap quotient lies in [[0, 60)]. *)
Lemma partial_bounds (m k : nat) :
  (m < S k)%nat ->
  (0 <= inject_Z (Z.of_nat m) / inject_Z (Z.of_nat (S k)) * 60 /\
   inject_Z (Z.of_nat m) / inject_Z (Z.of_nat (S k)) * 60 < 60)%Q.
Proof.
  intros Hlt.
  assert (Hpos : (0 < inject_Z (Z.of_nat (S k)))%Q).
  { change 0%Q with (inject_Z 0). rewrite <- Zlt_Qlt. lia. }
  assert (Hm : (0 <= inject_Z (Z.of_nat m))%Q).
  { change 0%Q with (inject_Z 0). rewrite <- Zle_Qle. lia. }
  split.
  - apply Qmult_le_0_compat; [|discriminate].
    apply Qle_shift_div_l; [exact Hpos|].
    rewrite Qmult_0_l. exact Hm.
  - setoid_replace 60%Q with (1 * 60)%Q at 2 by reflexivity.
    apply Qmult_lt_compat_r; [reflexivity|].
    apply Qlt_shift_div_r; [exact Hpos|].
    rewrite Qmult_1_l. rewrite <- Zlt_Qlt. lia.
Qed.

(** The division of the partial-overlap branch never meets a zero
    divisor: the scoring function is total. *)
Lemma score_total u n : exists q, score u n = Some q.
Proof.
  unfold score.
  destruct (u =? n)%string; [eauto|].
  destruct (forallb _ (split u)) eqn:Hall; [eauto|].
  destruct (List.length (split u)) eqn:Hlen; [|eauto].
  apply length_zero_iff_nil in Hlen. rewrite Hlen in Hall. discriminate.
Qed.

Lemma score_cases u n q :
  score u n = Some q ->
  (u = n /\ q = 100%Q) \/
  (u <> n /\ all_tokens_in u n /\ q = 80%Q) \/
  (u <> n /\ ~ all_tokens_in u n /\
   (0 < List.length (split u))%nat /\
   q = (inject_Z (Z.of_nat (matching_words u n))
        / inject_Z (Z.of_nat (List.length (split u))) * 60)%Q /\
   (0 <= q /\ q < 60)%Q).
Proof.
  unfold score.
  destruct (String.eqb_spec u n) as [E|E].
  - intros [= <-]. left. auto.
  - destruct (forallb _ (split u)) eqn:Hall.
    + intros [= <-]. right. left. repeat split; auto.
      apply forallb_all_tokens. exact Hall.
    + destruct (List.length (split u)) eqn:Hlen; [discriminate|].
      intros [= <-]. right. right.
      assert (Hnot : ~ all_tokens_in u n).
      { intros Hc. apply forallb_all_tokens in Hc. congruence. }
      repeat split; auto; try lia;
        apply partial_bounds; unfold matching_words;
        rewrite <- Hlen; apply filter_length_lt; exact Hall.
Qed.

Lemma score_nonneg u n q : score u n = Some q -> (0 <= q)%Q.
Proof.
  intros H. destruct (score_cases _ _ _ H) as [[_ ->]|[(_ & _ & ->)|(_ & _ & _ & _ & Hq & _)]];
    try discriminate. exact Hq.
Qed.

Lemma Qlt_bool_true x y : Qlt_bool x y = true <-> (x < y)%Q.
Proof.
  unfold Qlt_bool. rewrite negb_true_iff. split; intros H.
  - apply Qnot_le_lt. intros Hle. apply Qle_bool_iff in Hle. congruence.
  - destruct (Qle_bool y x) eqn:E; [|reflexivity].
    apply Qle_bool_iff in E. exfalso. exact (Qlt_not_le _ _ H E).
Qed.

Lemma Qlt_bool_false x y : Qlt_bool x y = false <-> (y <= x)%Q.
Proof.
  unfold Qlt_bool. rewrite negb_false_iff. apply Qle_bool_iff.
Qed.

Lemma match_loop_inv hint rest :
  forall seen bm bs,
    loop_inv hint seen bm bs ->
    exists bm' bs',
      match_loop (lower hint) rest bm bs = Some (bm', bs') /\
      loop_inv hint (seen ++ rest) bm' bs'.
Proof.
  induction rest as [|c rest IH]; intros seen bm bs Hinv; simpl.
  - rewrite app_nil_r. eauto.
  - destruct (score_total (lower hint) (lower (name c))) as [s Hs].
    rewrite Hs.
    replace (seen ++ c :: rest) with ((seen ++ [c]) ++ rest)
      by (rewrite <- app_assoc; reflexivity).
    destruct (Qlt_bool bs s) eqn:Hcmp.
    + apply Qlt_bool_true in Hcmp. apply IH.
      exists seen, []. split; [reflexivity|]. split; [exact Hs|].
      split; [|intros x q []].
      intros x q Hx Hq. destruct bm as [c0|]; simpl in Hinv.
      * destruct Hinv as (l1 & l2 & -> & Hc0 & Hl1 & Hl2).
        apply in_app_or in Hx. destruct Hx as [Hx|[<-|Hx]].
        -- eapply Qlt_trans; [eapply Hl1; eauto|exact Hcmp].
        -- rewrite Hc0 in Hq. injection Hq as <-. exact Hcmp.
        -- eapply Qle_lt_trans; [eapply Hl2; eauto|exact Hcmp].
      * destruct Hinv as [-> Hall].
        eapply Qle_lt_trans; [eapply Hall; eauto|exact Hcmp].
    + apply Qlt_bool_false in Hcmp. apply IH.
      destruct bm as [c0|]; simpl in *.
      * destruct Hinv as (l1 & l2 & -> & Hc0 & Hl1 & Hl2).
        exists l1, (l2 ++ [c]). rewrite <- app_assoc. simpl.
        repeat split; auto.
        intros x q Hx Hq. apply in_app_or in Hx. destruct Hx as [Hx|[<-|[]]].
        -- eapply Hl2; eauto.
        -- unfold score_of in Hq. rewrite Hs in Hq. injection Hq as <-. exact Hcmp.
      * destruct Hinv as [-> Hall]. split; [reflexivity|].
        intros x q Hx Hq. apply in_app_or in Hx. destruct Hx as [Hx|[<-|[]]].
        -- eapply Hall; eauto.
        -- unfold score_of in Hq. rewrite Hs in Hq. injection Hq as <-. exact Hcmp.
Qed.

Lemma split_at_two {A} (l1 l1' l2 l2' : list A) (c c' : A) :
  l1 ++ c :: l2 = l1' ++ c' :: l2' ->
  (l1 = l1' /\ c = c' /\ l2 = l2') \/
  (In c l1' /\ In c' l2) \/
  (In c' l1 /\ In c l2').
Proof.
  revert l1'. induction l1 as [|a l1 IH]; intros [|a' l1']; simpl; intros H.
  - injection H as -> ->. auto.
  - injection H as -> ->. right. left. split; [auto|apply in_elt].
  - injection H as -> <-. right. right. split; [auto|apply in_elt].
  - injection H as -> H. destruct (IH _ H) as [(-> & -> & ->)|[[? ?]|[? ?]]]; auto.
Qed.

Lemma first_best_unique hint l c q c' q' :
  first_best hint l c q -> first_best hint l c' q' -> c = c' /\ q = q'.
Proof.
  intros (l1 & l2 & -> & Hc & Hl1 & Hl2) (l1' & l2' & E & Hc' & Hl1' & Hl2').
  destruct (split_at_two _ _ _ _ _ _ E) as [(-> & -> & ->)|[[Hin Hin']|[Hin Hin']]].
  - split; congruence.
  - exfalso. pose proof (Hl1' _ _ Hin Hc). pose proof (Hl2 _ _ Hin' Hc').
    eapply Qlt_not_le; eauto.
  - exfalso. pose proof (Hl1 _ _ Hin Hc'). pose proof (Hl2' _ _ Hin' Hc).
    eapply Qlt_not_le; eauto.
Qed.

Lemma best_match_in_run hint l :
  l <> [] ->
  (exists c q, match_loop (lower hint) l None 0%Q = Some (Some c, q) /\
               first_best hint l c q) \/
  (match_loop (lower hint) l None 0%Q = Some (None, 0%Q) /\
   forall x q, In x l -> score_of hint x = Some q -> (q <= 0)%Q).
Proof.
  intros _.
  destruct (match_loop_inv hint l [] None 0%Q) as (bm & bs & Hrun & Hinv).
  { split; [reflexivity|intros x q []]. }
  simpl in Hinv. destruct bm as [c|]; simpl in Hinv.
  - left. exists c, bs. split; [exact Hrun|exact Hinv].
  - right. destruct Hinv as [-> Hall]. auto.
Qed.

Lemma best_match_in_some hint l c :
  best_match_in hint l = Some c <->
  exists q, first_best hint l c q /\ (40 <= q)%Q.
Proof.
  destruct l as [|c0 l0].
  { simpl. split; [discriminate|].
    intros (q & (l1 & l2 & E & _) & _). destruct l1; discriminate. }
  assert (Hne : c0 :: l0 <> []) by discriminate.
  unfold best_match_in.
  destruct (best_match_in_run hint (c0 :: l0) Hne)
    as [(c1 & q1 & Hrun & Hfb)|[Hrun Hall]]; rewrite Hrun.
  - destruct (Qle_bool 40 q1) eqn:Hle.
    + apply Qle_bool_iff in Hle. split.
      * intros [= <-]. eauto.
      * intros (q & Hfb' & _).
        destruct (first_best_unique _ _ _ _ _ _ Hfb Hfb') as [-> _]. reflexivity.
    + split; [discriminate|].
      intros (q & Hfb' & Hq).
      destruct (first_best_unique _ _ _ _ _ _ Hfb Hfb') as [_ ->].
      apply Qle_bool_iff in Hq. congruence.
  - split; [discriminate|].
    intros (q & (l1 & l2 & E & Hc & _) & Hq). exfalso.
    assert (Hin : In c (c0 :: l0)) by (rewrite E; apply in_elt).
    pose proof (Hall _ _ Hin Hc) as H0.
    assert (H40 : (40 <= 0)%Q) by (eapply Qle_trans; eauto).
    revert H40. compute. intros H. apply H. reflexivity.
Qed.

Lemma first_best_max hint l c q x q' :
  first_best hint l c q -> In x l -> score_of hint x = Some q' -> (q' <= q)%Q.
Proof.
  intros (l1 & l2 & -> & Hc & Hl1 & Hl2) Hin Hx.
  apply in_app_or in Hin. destruct Hin as [Hin|[<-|Hin]].
  - apply Qlt_le_weak. eauto.
  - rewrite Hc in Hx. injection Hx as <-. apply Qle_refl.
  - eauto.
Qed.

Lemma best_match_in_none hint l :
  best_match_in hint l = None <->
  forall x q, In x l -> score_of hint x = Some q -> (q < 40)%Q.
Proof.
  destruct l as [|c0 l0].
  { simpl. split; [intros _ x q []|reflexivity]. }
  assert (Hne : c0 :: l0 <> []) by discriminate.
  unfold best_match_in.
  destruct (best_match_in_run hint (c0 :: l0) Hne)
    as [(c1 & q1 & Hrun & Hfb)|[Hrun Hall]]; rewrite Hrun.
  - destruct (Qle_bool 40 q1) eqn:Hle.
    + split; [discriminate|]. intros H. exfalso.
      apply Qle_bool_iff in Hle.
      destruct Hfb as (l1 & l2 & E & Hc & _).
      assert (Hin : In c1 (c0 :: l0)) by (rewrite E; apply in_elt).
      pose proof (H _ _ Hin Hc). eapply Qlt_not_le; eauto.
    + split; [|reflexivity]. intros _ x q Hin Hx.
      eapply Qle_lt_trans; [eapply first_best_max; eauto|].
      apply Qnot_le_lt. intros Hc. apply Qle_bool_iff in Hc. congruence.
  - split; [|reflexivity]. intros _ x q Hin Hx.
    eapply Qle_lt_trans; [eapply Hall; eauto|]. reflexivity.
Qed.


(** The scenario of the specification: the hint ["movie a"] scores
    ["Movie A"] at 100 and ["Movie Alpha"] at 80; two of three words give
    exactly 40, which is accepted. *)
Example score_movie_a_exact :
  score (lower "movie a") (lower "Movie A") = Some 100%Q.
Proof. reflexivity. Qed.

Example score_movie_alpha_all_words :
  score (lower "movie a") (lower "Movie Alpha") = Some 80%Q.
Proof. reflexivity. Qed.

Example score_two_of_three :
  exists q, score (lower "red blue zzz") (lower "Red and Blue") = Some q /\ (q == 40)%Q.
Proof. eexists. split; [reflexivity|reflexivity]. Qed.

Example best_match_first_of_equals :
  best_match_in "movie"
    [mkContent "c2" "Movie B" "video" "d2" 10; mkContent "c1" "Movie A" "video" "d1" 9]
  = Some (mkContent "c2" "Movie B" "video" "d2" 10).
Proof. reflexivity. Qed.

(** C4.  In the words of the specification: let [h] and [n] be the hint
    and the name lower-cased, [tokens] the white-space delimited tokens
    of [h], and [matched] the number of these that are substrings of [n]
    (each of the four is determined by the wording alone).  The score is
    100 exactly when [h] equals [n]; otherwise 80 exactly when every
    token is a substring of [n]; otherwise it is [matched] over the
    number of tokens, times 60 (there is a token then).  The matcher
    returns an item exactly when that item is the first one of the
    listing carrying the greatest score and this score is at least 40; it
    returns nothing exactly when every score is below 40. *)
Theorem keyword_score_and_selection (hint : string) (all_contents : list Content) :
  (forall nm : string,
     exists h n tokens matched q,
       (Wording.lower_cased hint h /\
        forall h', Wording.lower_cased hint h' -> h' = h) /\
       (Wording.lower_cased nm n /\
        forall n', Wording.lower_cased nm n' -> n' = n) /\
       (Wording.tokens_of h tokens /\
        forall tokens', Wording.tokens_of h tokens' -> tokens' = tokens) /\
       (Wording.matched_tokens n tokens matched /\
        forall matched', Wording.matched_tokens n tokens matched' -> matched' = matched) /\
       score (lower hint) (lower nm) = Some q /\
       (q == 100 <-> h = n)%Q /\
       (h = n -> q = 100%Q) /\
       (h <> n ->
          ((q == 80)%Q <-> (forall t, In t tokens -> Wording.occurs_in t n)) /\
          ((forall t, In t tokens -> Wording.occurs_in t n) -> q = 80%Q)) /\
       (h <> n ->
        ~ (forall t, In t tokens -> Wording.occurs_in t n) ->
          tokens <> [] /\
          (matched < List.length tokens)%nat /\
          q = (inject_Z (Z.of_nat matched)
               / inject_Z (Z.of_nat (List.length tokens)) * 60)%Q)) /\
  (forall c,
     best_match_in hint all_contents = Some c <->
     exists q, first_best hint all_contents c q /\ (40 <= q)%Q) /\
  (best_match_in hint all_contents = None <->
   forall x q, In x all_contents -> score_of hint x = Some q -> (q < 40)%Q).
Proof.
  split; [|split].
  - intros nm. destruct (score_total (lower hint) (lower nm)) as [q Hq].
    exists (lower hint), (lower nm), (split (lower hint)),
      (matching_words (lower hint) (lower nm)), q.
    split; [split; [apply WordingFacts.lower_lower_cased
                   |apply WordingFacts.lower_cased_unique]|].
    split; [split; [apply WordingFacts.lower_lower_cased
                   |apply WordingFacts.lower_cased_unique]|].
    split; [split; [apply WordingFacts.split_tokens
                   |apply WordingFacts.tokens_of_unique]|].
    split; [split; [apply WordingFacts.matching_words_matched
                   |apply WordingFacts.matched_tokens_unique]|].
    split; [exact Hq|].
    rewrite <- (WordingFacts.all_tokens_occur (lower hint) (lower nm)).
    destruct (score_cases _ _ _ Hq)
      as [[E ->]|[(NE & Hall & ->)|(NE & Hnot & Hlen & Hval & Hlo & Hhi)]].
    + repeat split; auto; try reflexivity; try contradiction.
    + repeat split; auto; try reflexivity; try contradiction.
      intros H. discriminate H.
    + assert (Hq100 : ~ (q == 100)%Q).
      { intros E. rewrite E in Hhi. revert Hhi. compute. discriminate. }
      assert (Hq80 : ~ (q == 80)%Q).
      { intros E. rewrite E in Hhi. revert Hhi. compute. discriminate. }
      repeat split; auto; try contradiction.
      * intros E. destruct (split (lower hint)); [simpl in Hlen; lia|discriminate].
      * unfold matching_words. apply filter_length_lt.
        destruct (forallb (fun word => contains (lower nm) word) (split (lower hint)))
          eqn:Hall; [|reflexivity].
        exfalso. apply Hnot. apply forallb_all_tokens. exact Hall.
  - intros c. apply best_match_in_some.
  - apply best_match_in_none.
Qed.

(** With no word in the hint, an item whose lower-cased name differs from
    the lower-cased hint scores 80. *)
Lemma score_no_words hint nm :
  split (lower hint) = [] ->
  lower nm <> lower hint ->
  score (lower hint) (lower nm) = Some 80%Q.
Proof.
  intros Hs Hne. unfold score. rewrite Hs. simpl.
  destruct (String.eqb_spec (lower hint) (lower nm)) as [E|_]; [congruence|reflexivity].
Qed.

(** C9, as the code has it.  When the hint has no word (it is empty or
    white space only), no score computation divides by zero, and the first
    item of a non-empty listing is returned, with score 80, provided no
    listed name equals the hint after lower-casing. *)
Theorem empty_hint_selects_first (hint : string) (first : Content) (rest : list Content) :
  split (lower hint) = [] ->
  (forall x, In x (first :: rest) -> exists q, score_of hint x = Some q) /\
  ((forall x, In x (first :: rest) -> lower (name x) <> lower hint) ->
   best_match_in hint (first :: rest) = Some first /\
   score_of hint first = Some 80%Q).
Proof.
  intros Hs. split.
  - intros x _. apply score_total.
  - intros Hne.
    assert (H80 : forall x, In x (first :: rest) -> score_of hint x = Some 80%Q).
    { intros x Hx. apply score_no_words; auto. }
    split; [|apply H80; left; reflexivity].
    apply best_match_in_some. exists 80%Q. split; [|discriminate].
    exists [], rest. split; [reflexivity|]. split; [apply H80; left; reflexivity|].
    split; [intros x q []|].
    intros x q Hx Hq. rewrite (H80 x (or_intror Hx)) in Hq.
    injection Hq as <-. apply Qle_refl.
Qed.

Lemma empty_hint_selects_first_witness :
  split (lower "  ") = [] /\
  best_match_in "  " [mkContent "c1" "Movie A" "video" "d1" 9;
                      mkContent "c2" "Movie B" "document" "d2" 8]
  = Some (mkContent "c1" "Movie A" "video" "d1" 9).
Proof.
  split; [reflexivity|].
  apply (empty_hint_selects_first "  " (mkContent "c1" "Movie A" "video" "d1" 9)
           [mkContent "c2" "Movie B" "document" "d2" 8] eq_refl).
  intros x [<-|[<-|[]]]; discriminate.
Defined.

(** C9 as stated fails: with a hint of one blank and a listing whose
    second item is named by one blank, that second item (score 100) is
    returned, not the first (score 80). *)
Lemma empty_hint_first_item_refuted :
  split (lower " ") = [] /\
  score_of " " (mkContent "c1" "Movie A" "video" "d1" 9) = Some 80%Q /\
  score_of " " (mkContent "c2" " " "document" "d2" 8) = Some 100%Q /\
  best_match_in " " [mkContent "c1" "Movie A" "video" "d1" 9;
                     mkContent "c2" " " "document" "d2" 8]
  = Some (mkContent "c2" " " "document" "d2" 8) /\
  best_match_in " " [mkContent "c1" "Movie A" "video" "d1" 9;
                     mkContent "c2" " " "document" "d2" 8]
  <> Some (mkContent "c1" "Movie A" "video" "d1" 9).
Proof.
  repeat split; try reflexivity. discriminate.
Qed.

End MatcherFacts.

(** ** Binary64 and exact scores agree *)

Module Binary64Facts.
Import Binary64.

(** Two words of three give exactly [40.0], which is accepted. *)
Example two_of_three_is_forty :
  PrimFloat.eqb (partial_score 2 3) 40%float = true.
Proof. vm_compute. reflexivity. Qed.

(** For hints of up to 64 words the acceptance test agrees. *)
Lemma acceptance_agrees_upto_64 :
  forallb (fun total =>
             forallb (fun matching => same_acceptance matching total) (upto total))
          (seq 1 64) = true.
Proof. vm_compute. reflexivity. Qed.

(** For hints of up to 32 words the comparison of two partial scores
    agrees, and every partial score is below 80. *)
Lemma order_agrees_upto_32 :
  forallb (fun total =>
             forallb (fun m1 =>
                        below_eighty m1 total &&
                        forallb (fun m2 => same_order m1 m2 total) (upto total))
                     (upto total))
          (seq 1 32) = true.
Proof. vm_compute. reflexivity. Qed.

End Binary64Facts.

(** ** Runs of the monad *)

Module RunFacts.

Lemma run_bind {A B} (m : M A) (k : A -> M B) w :
  bind m k w =
  match m w with
  | (Ok a, w') => k a w'
  | (Raise e, w') => (Raise e, w')
  end.
Proof. reflexivity. Qed.

Lemma run_try {A} (m : M A) (h : exn -> M A) w :
  try_except m h w =
  match m w with
  | (Ok a, w') => (Ok a, w')
  | (Raise e, w') => h e w'
  end.
Proof. reflexivity. Qed.

(** A [try] whose handler returns a value never raises. *)
Lemma try_ret_total {A} (m : M A) (d : A) w :
  exists a, value (try_except m (fun _ => ret d) w) = Ok a.
Proof.
  unfold try_except, value. destruct (m w) as [[a|e] w']; simpl; eauto.
Qed.

Section Respects.
Variable R : World -> World -> Prop.
Hypothesis R_refl : forall w, R w w.
Hypothesis R_trans : forall a b c, R a b -> R b c -> R a c.

Lemma respects_ret {A} (a : A) : respects R (ret a).
Proof. intros w. apply R_refl. Qed.

Lemma respects_raise {A} (e : exn) : respects R (@raise A e).
Proof. intros w. apply R_refl. Qed.

Lemma respects_get_world : respects R get_world.
Proof. intros w. apply R_refl. Qed.

Lemma respects_bind {A B} (m : M A) (k : A -> M B) :
  respects R m -> (forall a, respects R (k a)) -> respects R (bind m k).
Proof.
  intros Hm Hk w. unfold final. rewrite run_bind.
  specialize (Hm w). unfold final in Hm.
  destruct (m w) as [[a|e] w']; simpl in *.
  - eapply R_trans; [exact Hm|apply Hk].
  - exact Hm.
Qed.

Lemma respects_try {A} (m : M A) (h : exn -> M A) :
  respects R m -> (forall e, respects R (h e)) -> respects R (try_except m h).
Proof.
  intros Hm Hh w. unfold final. rewrite run_try.
  specialize (Hm w). unfold final in Hm.
  destruct (m w) as [[a|e] w']; simpl in *.
  - exact Hm.
  - eapply R_trans; [exact Hm|apply Hh].
Qed.
Lemma respects_try_cancelled {A} (m c : M A) (h : exn -> M A) :
  respects R m -> respects R c -> (forall e, respects R (h e)) ->
  respects R (ContinuousDelivery.try_except_cancelled m c h).
Proof.
  intros Hm Hc Hh w. unfold final, ContinuousDelivery.try_except_cancelled.
  specialize (Hm w). unfold final in Hm.
  destruct (m w) as [[a|e] w']; simpl in *; [exact Hm|].
  destruct e; (eapply R_trans; [exact Hm|]); first [apply Hc|apply Hh].
Qed.
End Respects.

Lemma respects_weaken (R R' : World -> World -> Prop) {A} (m : M A) :
  (forall w w', R w w' -> R' w w') -> respects R m -> respects R' m.
Proof. intros H Hm w. apply H, Hm. Qed.

Lemma quiet_refl w : quiet w w.
Proof. unfold quiet. tauto. Qed.

Lemma quiet_trans a b c : quiet a b -> quiet b c -> quiet a c.
Proof. unfold quiet. intuition congruence. Qed.

Lemma keeps_catalog_refl w : keeps_catalog w w.
Proof. unfold keeps_catalog. tauto. Qed.

Lemma keeps_catalog_trans a b c :
  keeps_catalog a b -> keeps_catalog b c -> keeps_catalog a c.
Proof. unfold keeps_catalog. intuition congruence. Qed.

Lemma keeps_ledger_ok_refl w : keeps_ledger_ok w w.
Proof. unfold keeps_ledger_ok. tauto. Qed.

Lemma keeps_ledger_ok_trans a b c :
  keeps_ledger_ok a b -> keeps_ledger_ok b c -> keeps_ledger_ok a c.
Proof. unfold keeps_ledger_ok. intuition congruence. Qed.

Lemma quiet_keeps_catalog w w' : quiet w w' -> keeps_catalog w w'.
Proof. unfold quiet, keeps_catalog. tauto. Qed.

Lemma quiet_keeps_ledger_ok w w' : quiet w w' -> keeps_ledger_ok w w'.
Proof.
  unfold quiet, keeps_ledger_ok, ledger_ok.
  intros (Hp & Hl & _). split; [exact Hl|].
  rewrite Hp, Hl. auto.
Qed.

Lemma outside_quiet e : respects quiet (outside e).
Proof.
  intros w. unfold outside, final.
  destruct (hd false (faults w)); simpl; unfold quiet; simpl; tauto.
Qed.

Lemma set_cm_initialized_quiet : respects quiet (modify (with_cm_initialized true)).
Proof. intros w. unfold quiet; simpl; tauto. Qed.

Lemma set_initialized_quiet : respects quiet (modify (with_initialized true)).
Proof. intros w. unfold quiet; simpl; tauto. Qed.

End RunFacts.

Create HintDb quiet_db.
#[export] Hint Resolve RunFacts.outside_quiet RunFacts.set_cm_initialized_quiet
  RunFacts.set_initialized_quiet : quiet_db.

(** Decompose a run along its binds, handlers and case splits. *)
Ltac respects_walk refl trans known :=
  repeat first
    [ apply (RunFacts.respects_ret _ refl)
    | apply (RunFacts.respects_raise _ refl)
    | apply (RunFacts.respects_get_world _ refl)
    | solve [ known ]
    | apply (RunFacts.respects_bind _ trans); [ | intros ? ]
    | apply (RunFacts.respects_try _ trans); [ | intros ? ]
    | match goal with
      | |- respects _ (if ?b then _ else _) => destruct b
      | |- respects _ (match ?x with _ => _ end) => destruct x
      end ].

Ltac quiet_walk :=
  respects_walk RunFacts.quiet_refl RunFacts.quiet_trans ltac:(eauto with quiet_db).

Module QuietFacts.

Lemma get_payment_details_quiet pid :
  respects quiet (Database.get_payment_details pid).
Proof. unfold Database.get_payment_details. quiet_walk. Qed.

Lemma get_user_info_quiet uid :
  respects quiet (Database.get_user_info uid).
Proof. unfold Database.get_user_info. quiet_walk. Qed.

Lemma get_content_quiet cid :
  respects quiet (Database.get_content_from_cms_library cid).
Proof. unfold Database.get_content_from_cms_library. quiet_walk. Qed.

Lemma get_pending_payments_quiet :
  respects quiet Database.get_pending_payments_for_admin.
Proof. unfold Database.get_pending_payments_for_admin. quiet_walk. Qed.

Lemma cm_initialize_quiet : respects quiet ContentManager.initialize.
Proof. unfold ContentManager.initialize. quiet_walk. Qed.

Lemma cm_ensure_initialized_quiet : respects quiet ContentManager.ensure_initialized.
Proof.
  unfold ContentManager.ensure_initialized.
  pose proof cm_initialize_quiet. quiet_walk.
Qed.

Lemma list_contents_quiet limit : respects quiet (ContentManager.list_contents limit).
Proof.
  unfold ContentManager.list_contents.
  pose proof cm_ensure_initialized_quiet. quiet_walk.
Qed.

Lemma find_best_content_match_quiet hint :
  respects quiet (ContentManager.find_best_content_match hint).
Proof.
  unfold ContentManager.find_best_content_match.
  pose proof cm_ensure_initialized_quiet. pose proof list_contents_quiet.
  quiet_walk.
Qed.

Lemma initialize_quiet : respects quiet DeliveryAutomator.initialize.
Proof.
  unfold DeliveryAutomator.initialize.
  pose proof cm_initialize_quiet. quiet_walk.
Qed.

Lemma ensure_initialized_quiet : respects quiet DeliveryAutomator.ensure_initialized.
Proof.
  unfold DeliveryAutomator.ensure_initialized.
  pose proof initialize_quiet. quiet_walk.
Qed.

Lemma get_pending_deliveries_quiet :
  respects quiet DeliveryAutomator.get_pending_deliveries.
Proof.
  unfold DeliveryAutomator.get_pending_deliveries.
  pose proof ensure_initialized_quiet. pose proof get_pending_payments_quiet.
  quiet_walk.
Qed.

Lemma determine_content_quiet uid pid strategy :
  respects quiet (DeliveryAutomator._determine_content_to_deliver uid pid strategy).
Proof.
  unfold DeliveryAutomator._determine_content_to_deliver.
  pose proof list_contents_quiet. quiet_walk.
Qed.

End QuietFacts.

#[export] Hint Resolve QuietFacts.get_payment_details_quiet
  QuietFacts.get_user_info_quiet QuietFacts.get_content_quiet
  QuietFacts.get_pending_payments_quiet QuietFacts.cm_initialize_quiet
  QuietFacts.cm_ensure_initialized_quiet QuietFacts.list_contents_quiet
  QuietFacts.find_best_content_match_quiet QuietFacts.initialize_quiet
  QuietFacts.ensure_initialized_quiet QuietFacts.get_pending_deliveries_quiet
  QuietFacts.determine_content_quiet : quiet_db.

(** ** [ORDER BY] *)

Module OrderFacts.

Section Generic.
Context {A : Type}.
Variable before : A -> A -> bool.
Hypothesis before_total : forall a b, before a b = true \/ before b a = true.
Hypothesis before_trans :
  forall a b c, before a b = true -> before b c = true -> before a c = true.

Lemma insert_row_perm x l : Permutation (x :: l) (insert_row before x l).
Proof.
  induction l as [|y l IH]; simpl; [reflexivity|].
  destruct (before x y); [reflexivity|].
  rewrite perm_swap. apply perm_skip. exact IH.
Qed.

Lemma order_by_perm l : Permutation l (order_by before l).
Proof.
  induction l as [|x l IH]; simpl; [reflexivity|].
  rewrite <- insert_row_perm. apply perm_skip. exact IH.
Qed.

Lemma order_by_nil l : order_by before l = [] -> l = [].
Proof.
  intros H. pose proof (order_by_perm l) as P. rewrite H in P.
  apply Permutation_sym, Permutation_nil in P. exact P.
Qed.

Lemma insert_row_sorted x l :
  StronglySorted (fun a b => before a b = true) l ->
  StronglySorted (fun a b => before a b = true) (insert_row before x l).
Proof.
  induction 1 as [|y l Hs IH Hy]; simpl.
  - constructor; constructor.
  - destruct (before x y) eqn:E.
    + constructor; [constructor; assumption|].
      constructor; [exact E|].
      rewrite Forall_forall in *. intros z Hz. eauto.
    + constructor; [exact IH|].
      assert (Hyx : before y x = true).
      { destruct (before_total x y); congruence. }
      rewrite Forall_forall in *. intros z Hz.
      apply (Permutation_in _ (Permutation_sym (insert_row_perm x l))) in Hz.
      destruct Hz as [<-|Hz]; auto.
Qed.

Lemma order_by_sorted l :
  StronglySorted (fun a b => before a b = true) (order_by before l).
Proof.
  induction l; simpl; [constructor|apply insert_row_sorted; assumption].
Qed.

(** The head of the sorted list is the first stored row that no other
    row strictly precedes. *)
Lemma order_by_head l r rest :
  order_by before l = r :: rest ->
  exists l1 l2,
    l = l1 ++ r :: l2 /\
    (forall x, In x l1 -> before x r = false) /\
    (forall x, In x l2 -> before r x = true).
Proof.
  revert r rest. induction l as [|x l IH]; simpl; intros r rest H; [discriminate|].
  destruct (order_by before l) as [|y s] eqn:E.
  - apply order_by_nil in E. subst l. simpl in H. injection H as <- <-.
    exists [], []. repeat split; intros z [].
  - destruct (IH _ _ eq_refl) as (l1 & l2 & -> & H1 & H2).
    simpl in H. destruct (before x y) eqn:Exy; injection H as <- <-.
    + exists [], (l1 ++ y :: l2). split; [reflexivity|].
      split; [intros z []|]. intros z Hz.
      apply in_app_or in Hz. destruct Hz as [Hz|[<-|Hz]].
      * apply before_trans with y; [exact Exy|].
        destruct (before_total y z) as [T|T]; [exact T|].
        rewrite (H1 _ Hz) in T. discriminate.
      * exact Exy.
      * apply before_trans with y; auto.
    + exists (x :: l1), l2. split; [reflexivity|].
      split; [|exact H2]. intros z [<-|Hz]; auto.
Qed.

(** Any order the store may return (a sorted rearrangement) is the
    order of some storage order: that very list. *)
Lemma order_by_fixes_sorted l :
  StronglySorted (fun a b => before a b = true) l -> order_by before l = l.
Proof.
  induction 1 as [|x l Hs IH Hx]; simpl; [reflexivity|].
  rewrite IH. destruct l as [|y l]; [reflexivity|]. simpl.
  inversion Hx as [|? ? Hxy _]; subst. rewrite Hxy. reflexivity.
Qed.
End Generic.

Lemma oldest_first_total a b :
  Database.oldest_first a b = true \/ Database.oldest_first b a = true.
Proof. unfold Database.oldest_first. lia. Qed.

Lemma oldest_first_trans a b c :
  Database.oldest_first a b = true -> Database.oldest_first b c = true ->
  Database.oldest_first a c = true.
Proof. unfold Database.oldest_first. lia. Qed.

Lemma newest_first_total a b :
  ContentManager.newest_first a b = true \/ ContentManager.newest_first b a = true.
Proof. unfold ContentManager.newest_first. lia. Qed.

Lemma newest_first_trans a b c :
  ContentManager.newest_first a b = true -> ContentManager.newest_first b c = true ->
  ContentManager.newest_first a c = true.
Proof. unfold ContentManager.newest_first. lia. Qed.

(** The pending rows are exactly the completed rows without content,
    oldest request first. *)
Lemma pending_rows_spec ps :
  Permutation (Database.pending_rows ps) (filter Database.is_pending_delivery ps) /\
  (forall p, In p (Database.pending_rows ps) <->
             In p ps /\ status p = "completed" /\ p_content_id p = None) /\
  StronglySorted (fun a b => (request_timestamp a <= request_timestamp b)%Z)
                 (Database.pending_rows ps).
Proof.
  unfold Database.pending_rows.
  pose proof (order_by_perm Database.oldest_first
                (filter Database.is_pending_delivery ps)) as P.
  split; [symmetry; exact P|]. split.
  - intros p. split.
    + intros Hin. apply (Permutation_in _ (Permutation_sym P)) in Hin.
      apply filter_In in Hin. destruct Hin as [Hin Hp].
      unfold Database.is_pending_delivery in Hp.
      apply andb_true_iff in Hp. destruct Hp as [Hs Hc].
      apply String.eqb_eq in Hs. destruct (p_content_id p); [discriminate|]. auto.
    + intros (Hin & Hs & Hc). apply (Permutation_in _ P).
      apply filter_In. split; [exact Hin|].
      unfold Database.is_pending_delivery. rewrite Hs, Hc. reflexivity.
  - pose proof (order_by_sorted Database.oldest_first oldest_first_total
                  oldest_first_trans (filter Database.is_pending_delivery ps)) as S.
    eapply StronglySorted_ind with
      (P := StronglySorted (fun a b => (request_timestamp a <= request_timestamp b)%Z));
      [constructor| |exact S].
    intros a l _ IH Ha. constructor; [exact IH|].
    rewrite Forall_forall in *. intros x Hx. specialize (Ha x Hx).
    unfold Database.oldest_first in Ha. lia.
Qed.

(** The head of a non-empty listing is the first stored row among those
    with the latest upload time. *)
Lemma listing_head limit rows :
  rows <> [] ->
  exists r, hd_error (ContentManager.listing (S limit) rows) = Some (listed r) /\
            first_latest rows r.
Proof.
  intros Hne. unfold ContentManager.listing.
  destruct (order_by ContentManager.newest_first rows) as [|r rest] eqn:E.
  - apply order_by_nil in E. contradiction.
  - exists r. split; [reflexivity|].
    destruct (order_by_head _ newest_first_total newest_first_trans _ _ _ E)
      as (l1 & l2 & -> & H1 & H2).
    exists l1, l2. split; [reflexivity|].
    unfold ContentManager.newest_first in *.
    split; intros x Hx; [specialize (H1 x Hx)|specialize (H2 x Hx)]; lia.
Qed.

Lemma first_latest_unique rows r r' :
  first_latest rows r -> first_latest rows r' -> r = r'.
Proof.
  intros (l1 & l2 & -> & H1 & H2) (l1' & l2' & E & H1' & H2').
  destruct (MatcherFacts.split_at_two _ _ _ _ _ _ E)
    as [(_ & -> & _)|[[Hin Hin']|[Hin Hin']]]; [reflexivity| |];
    exfalso.
  - specialize (H1' _ Hin). specialize (H2 _ Hin'). lia.
  - specialize (H1 _ Hin). specialize (H2' _ Hin'). lia.
Qed.

End OrderFacts.

(** ** The "recent" selection *)

Module RecentFacts.
Import RunFacts.

(** With the manager initialised and the query answered, the selection is
    the head of the listing. *)
Lemma determine_content_run uid pid strategy w :
  cm_initialized w = true ->
  hd false (faults w) = false ->
  value (DeliveryAutomator._determine_content_to_deliver uid pid strategy w)
  = Ok (hd_error (ContentManager.listing 1000 (content_library w))).
Proof.
  intros Hcm Hf.
  unfold DeliveryAutomator._determine_content_to_deliver,
    ContentManager.list_contents, ContentManager.ensure_initialized,
    try_except, bind, get_world, outside, ret, value.
  simpl. rewrite Hcm. simpl. rewrite Hf. reflexivity.
Qed.

Lemma determine_content_head uid pid strategy w :
  content_library w <> [] ->
  cm_initialized w = true ->
  hd false (faults w) = false ->
  exists r,
    value (DeliveryAutomator._determine_content_to_deliver uid pid strategy w)
    = Ok (Some (listed r)) /\
    In r (content_library w) /\
    (forall x, In x (content_library w) -> (uploaded_at x <= uploaded_at r)%Z).
Proof.
  intros Hne Hcm Hf.
  destruct (OrderFacts.listing_head 999 _ Hne) as (r & Hhd & Hfl).
  exists r. rewrite (determine_content_run _ _ _ _ Hcm Hf).
  split; [rewrite Hhd; reflexivity|].
  destruct Hfl as (l1 & l2 & E & H1 & H2).
  split; [rewrite E; apply in_elt|].
  intros x Hx. rewrite E in Hx. apply in_app_or in Hx.
  destruct Hx as [Hx|[<-|Hx]]; [specialize (H1 _ Hx)| |specialize (H2 _ Hx)]; lia.
Qed.

Lemma list_contents_run limit w :
  cm_initialized w = true ->
  hd false (faults w) = false ->
  value (ContentManager.list_contents limit w)
  = Ok (ContentManager.listing limit (content_library w)).
Proof.
  intros Hcm Hf.
  unfold ContentManager.list_contents, ContentManager.ensure_initialized,
    try_except, bind, get_world, outside, ret, value.
  simpl. rewrite Hcm. simpl. rewrite Hf. reflexivity.
Qed.

(** C5, as the code has it.  On a non-empty catalogue, with the listing
    query answered, the "recent" selection returns a row whose
    [uploaded_at] is the latest.  The query sorts on [uploaded_at] alone
    and the store is free in the order of rows that share a value
    ([content_id] plays no part), so the same holds on the same rows in
    any order: the row returned then is again one with the latest
    [uploaded_at], and it is the same row whenever only one row has that
    value.  Every answer the query admits, that is every arrangement of
    the rows by descending [uploaded_at], is the listing on some such
    order. *)
Theorem recent_returns_latest (w : World) (uid : Z) (pid strategy : string) :
  content_library w <> [] ->
  cm_initialized w = true ->
  hd false (faults w) = false ->
  exists r,
    value (DeliveryAutomator._determine_content_to_deliver uid pid strategy w)
    = Ok (Some (listed r)) /\
    In r (content_library w) /\
    (forall x, In x (content_library w) -> (uploaded_at x <= uploaded_at r)%Z) /\
    (forall w2 uid2 pid2 strategy2,
       Permutation (content_library w) (content_library w2) ->
       cm_initialized w2 = true ->
       hd false (faults w2) = false ->
       exists r2,
         value (DeliveryAutomator._determine_content_to_deliver uid2 pid2 strategy2 w2)
         = Ok (Some (listed r2)) /\
         In r2 (content_library w) /\
         uploaded_at r2 = uploaded_at r /\
         ((forall x, In x (content_library w) ->
                     uploaded_at x = uploaded_at r -> x = r) ->
          r2 = r)) /\
    (forall answer,
       Permutation (content_library w) answer ->
       StronglySorted (fun a b => (uploaded_at b <= uploaded_at a)%Z) answer ->
       exists w2,
         Permutation (content_library w) (content_library w2) /\
         cm_initialized w2 = true /\
         hd false (faults w2) = false /\
         value (ContentManager.list_contents 1000 w2)
         = Ok (map listed (firstn 1000 answer))).
Proof.
  intros Hne Hcm Hf.
  destruct (determine_content_head uid pid strategy w Hne Hcm Hf)
    as (r & Hv & Hin & Hmax).
  exists r. split; [exact Hv|]. split; [exact Hin|]. split; [exact Hmax|]. split.
  - intros w2 uid2 pid2 strategy2 P Hcm2 Hf2.
    assert (Hne2 : content_library w2 <> []).
    { intros E. rewrite E in P. apply Permutation_sym, Permutation_nil in P.
      contradiction. }
    destruct (determine_content_head uid2 pid2 strategy2 w2 Hne2 Hcm2 Hf2)
      as (r2 & Hv2 & Hin2 & Hmax2).
    assert (Hin2' : In r2 (content_library w))
      by (apply (Permutation_in _ (Permutation_sym P)); exact Hin2).
    assert (Heq : uploaded_at r2 = uploaded_at r).
    { pose proof (Hmax r2 Hin2').
      pose proof (Hmax2 r (Permutation_in _ P Hin)). lia. }
    exists r2. split; [exact Hv2|]. split; [exact Hin2'|]. split; [exact Heq|].
    intros Huniq. apply Huniq; assumption.
  - intros answer P S.
    exists (with_content_library answer w).
    split; [exact P|]. split; [exact Hcm|]. split; [exact Hf|].
    rewrite (list_contents_run 1000 (with_content_library answer w) Hcm Hf).
    unfold ContentManager.listing. cbn [content_library with_content_library].
    rewrite (OrderFacts.order_by_fixes_sorted ContentManager.newest_first); [reflexivity|].
    clear -S. induction S as [|a l _ IH Ha]; constructor; [exact IH|].
    rewrite Forall_forall in *. intros x Hx. specialize (Ha x Hx).
    unfold ContentManager.newest_first. apply Z.leb_le. exact Ha.
Qed.

Lemma recent_returns_latest_witness :
  content_library (Sample.world [] [Sample.movie_a; Sample.movie_b] []) <> [] /\
  exists r,
    value (DeliveryAutomator._determine_content_to_deliver 7 "p1" "recent"
             (Sample.world [] [Sample.movie_a; Sample.movie_b] []))
    = Ok (Some (listed r)) /\
    In r [Sample.movie_a; Sample.movie_b].
Proof.
  split; [discriminate|].
  destruct (recent_returns_latest
              (Sample.world [] [Sample.movie_a; Sample.movie_b] []) 7 "p1" "recent")
    as (r & Hv & Hin & _); [discriminate|reflexivity|reflexivity|].
  exists r. split; [exact Hv|exact Hin].
Defined.

(** Of two rows uploaded at the same instant either may come back: which
    one depends on the order the store yields them in. *)
Example recent_tie_is_open :
  Permutation [Sample.twin_b; Sample.twin_a] [Sample.twin_a; Sample.twin_b] /\
  value (DeliveryAutomator._determine_content_to_deliver 7 "p1" "recent"
           (Sample.world [] [Sample.twin_b; Sample.twin_a] []))
  = Ok (Some (listed Sample.twin_b)) /\
  value (DeliveryAutomator._determine_content_to_deliver 7 "p1" "recent"
           (Sample.world [] [Sample.twin_a; Sample.twin_b] []))
  = Ok (Some (listed Sample.twin_a)).
Proof. split; [apply perm_swap|split; reflexivity]. Qed.

(** The scenario of the specification: of "Movie A" (earlier) and
    "Movie B" (later), "Movie B" is selected. *)
Example recent_picks_movie_b :
  value (DeliveryAutomator._determine_content_to_deliver 7 "p1" "recent"
           (Sample.world [] [Sample.movie_a; Sample.movie_b] []))
  = Ok (Some (listed Sample.movie_b)).
Proof. reflexivity. Qed.

(** C5 as stated fails: two rows share the latest upload instant, the
    listing query is answered, and the selection returns the row whose
    [content_id] is the greater of the two. *)
Lemma recent_tie_break_refuted :
  content_library (Sample.world [] [Sample.twin_b; Sample.twin_a] []) <> [] /\
  value (DeliveryAutomator._determine_content_to_deliver 7 "p1" "recent"
           (Sample.world [] [Sample.twin_b; Sample.twin_a] []))
  = Ok (Some (listed Sample.twin_b)) /\
  uploaded_at Sample.twin_a = uploaded_at Sample.twin_b /\
  (content_id Sample.twin_a <? content_id Sample.twin_b)%string = true /\
  Sample.twin_a <> Sample.twin_b.
Proof.
  repeat split; try reflexivity; discriminate.
Qed.

(** Every sorted rearrangement of the catalogue is the listing of some
    storage order, so no order of ties is ruled out by the query. *)
Lemma any_tie_order_is_listed (rows sorted_rows : list ContentRow) :
  Permutation rows sorted_rows ->
  StronglySorted (fun a b => ContentManager.newest_first a b = true) sorted_rows ->
  exists stored,
    Permutation rows stored /\
    order_by ContentManager.newest_first stored = sorted_rows.
Proof.
  intros P S. exists sorted_rows. split; [exact P|].
  apply OrderFacts.order_by_fixes_sorted. exact S.
Qed.

End RecentFacts.

(** ** The delivery executor *)

Module DeliveryFacts.
Import RunFacts.

Lemma quiet_with_faults fs w : quiet w (with_faults fs w).
Proof. unfold quiet; simpl; tauto. Qed.

Lemma quiet_effect w w' : quiet w w' <-> effect w [] (payments w) w'.
Proof. unfold effect, quiet; simpl. tauto. Qed.

Lemma effect_trans w evs1 ps1 w1 evs2 ps2 w2 :
  effect w evs1 ps1 w1 -> effect w1 evs2 ps2 w2 ->
  effect w (evs2 ++ evs1) ps2 w2.
Proof.
  unfold effect, quiet; simpl. rewrite <- app_assoc.
  intuition congruence.
Qed.

Lemma quiet_then_effect w w1 evs ps w2 :
  quiet w w1 -> effect w1 evs ps w2 -> effect w evs ps w2.
Proof.
  intros Q E. apply (proj1 (quiet_effect _ _)) in Q.
  pose proof (effect_trans _ _ _ _ _ _ _ Q E) as H.
  rewrite app_nil_r in H. exact H.
Qed.

Lemma effect_then_quiet w evs ps w1 w2 :
  effect w evs ps w1 -> quiet w1 w2 -> effect w evs ps w2.
Proof.
  unfold effect. intros E Q. eapply quiet_trans; eauto.
Qed.

Lemma effect_trace w evs ps w' : effect w evs ps w' -> trace w' = evs ++ trace w.
Proof. unfold effect, quiet; simpl. tauto. Qed.

Lemma effect_payments w evs ps w' : effect w evs ps w' -> payments w' = ps.
Proof. unfold effect, quiet; simpl. tauto. Qed.

Lemma effect_keeps_catalog w evs ps w' : effect w evs ps w' -> keeps_catalog w w'.
Proof. unfold effect, quiet, keeps_catalog; simpl. tauto. Qed.

Lemma effect_counts w evs ps w' :
  effect w evs ps w' ->
  processed_count w' = processed_count w /\ error_count w' = error_count w.
Proof. unfold effect, quiet; simpl. tauto. Qed.

Lemma get_payment_details_run pid w :
  Database.get_payment_details pid w
  = (if hd false (faults w) then Raise DatabaseError
     else Ok (find (fun p => (payment_id p =? pid)%string) (payments w)),
     with_faults (tl (faults w)) w).
Proof.
  unfold Database.get_payment_details, bind, outside, get_world, ret.
  destruct (hd false (faults w)); reflexivity.
Qed.

Lemma get_user_info_run uid w :
  Database.get_user_info uid w
  = (if hd false (faults w) then Raise DatabaseError
     else Ok (find (fun u => (u_user_id u =? uid)%Z) (users w)),
     with_faults (tl (faults w)) w).
Proof.
  unfold Database.get_user_info, bind, outside, get_world, ret.
  destruct (hd false (faults w)); reflexivity.
Qed.

Lemma get_content_run cid w :
  Database.get_content_from_cms_library cid w
  = (if hd false (faults w) then Raise DatabaseError
     else Ok (find (fun c => (content_id c =? cid)%string) (content_library w)),
     with_faults (tl (faults w)) w).
Proof.
  unfold Database.get_content_from_cms_library, bind, outside, get_world, ret.
  destruct (hd false (faults w)); reflexivity.
Qed.

Lemma find_content_some cid lib c :
  find (fun c => (content_id c =? cid)%string) lib = Some c ->
  In c lib /\ content_id c = cid.
Proof.
  intros H. apply find_some in H. destruct H as [Hin He].
  apply String.eqb_eq in He. auto.
Qed.

Lemma has_content_in c w :
  In c (content_library w) -> Database.has_content (content_id c) w = true.
Proof.
  intros Hin. unfold Database.has_content. apply existsb_exists.
  exists c. split; [exact Hin|apply String.eqb_refl].
Qed.

Lemma has_content_none cid w :
  Database.has_content cid w = false ->
  find (fun c => (content_id c =? cid)%string) (content_library w) = None.
Proof.
  intros H. destruct (find _ _) as [c|] eqn:E; [|reflexivity].
  apply find_content_some in E. destruct E as [Hin <-].
  rewrite (has_content_in _ _ Hin) in H. discriminate.
Qed.

(** The row chosen for delivery is a catalogue row, and it is the row of
    the given [content_id] when one is given. *)
Lemma choose_content_run cid cname w :
  quiet w (final (DeliveryAutomator.choose_content cid cname w)) /\
  forall c,
    value (DeliveryAutomator.choose_content cid cname w) = Ok (Some c) ->
    In c (content_library w) /\
    (Text.truthy cid = true -> cid = Some (content_id c)).
Proof.
  unfold DeliveryAutomator.choose_content.
  destruct (Text.truthy cid) eqn:Tc.
  - rewrite run_bind, get_content_run.
    destruct (hd false (faults w)); simpl.
    + split; [apply quiet_with_faults|discriminate].
    + destruct (find _ (content_library w)) as [c|] eqn:F; simpl.
      * split; [apply quiet_with_faults|]. intros c' [= <-].
        apply find_content_some in F. destruct F as [Hin He].
        split; [exact Hin|]. intros _.
        destruct cid as [[|a s]|]; try discriminate. congruence.
      * split; [apply quiet_with_faults|discriminate].
  - destruct (Text.truthy cname).
    + rewrite run_bind.
      pose proof (QuietFacts.find_best_content_match_quiet
                    (match cname with Some n => n | None => EmptyString end) w) as Q.
      unfold final in Q.
      destruct (ContentManager.find_best_content_match _ w) as [[[m|]|e] w1];
        simpl in *; try (split; [exact Q|discriminate]).
      rewrite run_bind, get_content_run.
      assert (Q1 : quiet w (with_faults (tl (faults w1)) w1))
        by (eapply quiet_trans; [exact Q|apply quiet_with_faults]).
      destruct (hd false (faults w1)); simpl; [split; [exact Q1|discriminate]|].
      destruct (find _ (content_library w1)) as [c|] eqn:F; simpl.
      * split; [exact Q1|]. intros c' [= <-].
        apply find_content_some in F. destruct F as [Hin _].
        destruct Q as (_ & Hl & _). rewrite Hl in Hin.
        split; [exact Hin|discriminate].
      * split; [exact Q1|discriminate].
    + simpl. split; [apply quiet_refl|discriminate].
Qed.

(** The transmission either raises, having at most downloaded, or it has
    downloaded and sent. *)
Lemma send_content_run uid d ft title w :
  (exists e,
     value (DeliveryAutomator._send_content_to_user uid d ft title w) = Raise e /\
     (effect w [] (payments w)
        (final (DeliveryAutomator._send_content_to_user uid d ft title w)) \/
      effect w [Downloaded d] (payments w)
        (final (DeliveryAutomator._send_content_to_user uid d ft title w)))) \/
  (value (DeliveryAutomator._send_content_to_user uid d ft title w) = Ok tt /\
   exists sent,
     is_transmission sent = true /\
     effect w [sent; Downloaded d] (payments w)
       (final (DeliveryAutomator._send_content_to_user uid d ft title w))).
Proof.
  unfold DeliveryAutomator._send_content_to_user, try_except, bind, outside,
    emit, modify, raise, value, final.
  simpl.
  destruct (hd false (faults w)); simpl.
  { left. eexists. split; [reflexivity|]. left. unfold effect, quiet; simpl; tauto. }
  destruct (hd false (tl (faults w))); simpl.
  { left. eexists. split; [reflexivity|]. left. unfold effect, quiet; simpl; tauto. }
  destruct (Text.lower ft =? "video")%string; simpl;
    destruct (hd false (tl (tl (faults w)))); simpl.
  - left. eexists. split; [reflexivity|]. right. unfold effect, quiet; simpl; tauto.
  - right. split; [reflexivity|]. eexists. split; [|unfold effect, quiet; simpl; tauto].
    reflexivity.
  - left. eexists. split; [reflexivity|]. right. unfold effect, quiet; simpl; tauto.
  - right. split; [reflexivity|]. eexists. split; [|unfold effect, quiet; simpl; tauto].
    reflexivity.
Qed.

(** The write-back either raises and changes nothing, or rewrites the row
    and is recorded. *)
Lemma link_run pid cid w :
  (value (Database.link_content_to_payment pid cid w) = Raise DatabaseError /\
   quiet w (final (Database.link_content_to_payment pid cid w))) \/
  (value (Database.link_content_to_payment pid cid w) = Ok tt /\
   (Database.has_payment pid w = true -> Database.has_content cid w = true) /\
   effect w [Linked pid cid]
     (map (fun p => if (payment_id p =? pid)%string
                    then Database.deliver_row cid p else p) (payments w))
     (final (Database.link_content_to_payment pid cid w))).
Proof.
  unfold Database.link_content_to_payment, bind, outside, get_world, emit,
    modify, raise, value, final.
  destruct (hd false (faults w)); simpl.
  { left. split; [reflexivity|apply quiet_with_faults]. }
  unfold Database.has_payment, Database.has_content. simpl.
  destruct (existsb _ (payments w)); simpl.
  - destruct (existsb _ (content_library w)); simpl.
    + right. split; [reflexivity|]. split; [auto|]. unfold effect, quiet; simpl; tauto.
    + left. split; [reflexivity|]. unfold quiet; simpl; tauto.
  - right. split; [reflexivity|]. split; [discriminate|].
    unfold effect, quiet; simpl; tauto.
Qed.

(** Telling the operator never raises; it adds the notice or nothing. *)
Lemma notify_run title who pid w :
  value (try_except (bind (outside TelegramError)
                          (fun _ => emit (AdminNotified title who pid)))
                    (fun _ => ret tt) w) = Ok tt /\
  (effect w [] (payments w)
     (final (try_except (bind (outside TelegramError)
                              (fun _ => emit (AdminNotified title who pid)))
                        (fun _ => ret tt) w)) \/
   effect w [AdminNotified title who pid] (payments w)
     (final (try_except (bind (outside TelegramError)
                              (fun _ => emit (AdminNotified title who pid)))
                        (fun _ => ret tt) w))).
Proof.
  unfold try_except, bind, outside, emit, modify, ret, value, final.
  destruct (hd false (faults w)); simpl.
  - split; [reflexivity|]. left. unfold effect, quiet; simpl; tauto.
  - split; [reflexivity|]. right. unfold effect, quiet; simpl; tauto.
Qed.

Lemma outcome_quiet w w1 pid evs b ps :
  quiet w w1 -> delivery_outcome w1 pid evs b ps -> delivery_outcome w pid evs b ps.
Proof.
  intros (Hp & Hl & _) H. destruct H; rewrite Hp.
  - constructor.
  - constructor.
  - constructor. assumption.
  - constructor; try assumption.
    unfold Database.has_content in *. rewrite <- Hl. assumption.
Qed.


Ltac run_simpl := unfold value, final in *; simpl in *.

(** Once a catalogue row is chosen, the call ends in one of the four
    outcomes. *)
Lemma send_and_record_outcome pid payment who content w :
  In content (content_library w) ->
  exists evs b ps,
    effect w evs ps (final (DeliveryAutomator.send_and_record pid payment who content w)) /\
    delivery_outcome w pid evs b ps /\
    (value (DeliveryAutomator.send_and_record pid payment who content w) = Ok b \/
     (b = false /\
      exists e, value (DeliveryAutomator.send_and_record pid payment who content w)
                = Raise e)).
Proof.
  intros Hin. unfold DeliveryAutomator.send_and_record. rewrite run_bind.
  destruct (send_content_run (user_id payment) (google_drive_file_id content)
              (file_type content) (content_name content) w)
    as [(e & Hv & HE)|(Hv & sent & Hs & E)];
    destruct (DeliveryAutomator._send_content_to_user _ _ _ _ w) as [[[]|e'] w1];
    run_simpl; try discriminate.
  - destruct HE as [E|E].
    + exists [], false, (payments w).
      split; [exact E|]. split; [constructor|right; eauto].
    + exists [Downloaded (google_drive_file_id content)], false, (payments w).
      split; [exact E|]. split; [constructor|right; eauto].
  - rewrite run_bind.
    destruct (link_run pid (content_id content) w1) as [[Lv Q]|(Lv & _ & L)];
      destruct (Database.link_content_to_payment pid (content_id content) w1)
        as [[[]|e'] w2]; run_simpl; try discriminate.
    + exists [sent; Downloaded (google_drive_file_id content)], false, (payments w).
      split; [eapply effect_then_quiet; eauto|].
      split; [constructor; exact Hs|right; eauto].
    + rewrite run_bind.
      destruct (notify_run (content_name content) who pid w2) as [Nv NE].
      destruct (try_except _ _ w2) as [[[]|e'] w3]; run_simpl; try discriminate.
      pose proof (effect_trans _ _ _ _ _ _ _ E L) as EL.
      rewrite (effect_payments _ _ _ _ E) in EL.
      destruct NE as [N|N];
        pose proof (effect_trans _ _ _ _ _ _ _ EL N) as ELN;
        rewrite (effect_payments _ _ _ _ EL) in ELN.
      * eexists _, true, _. split; [exact ELN|]. split; [|left; reflexivity].
        apply (Delivered w pid _ sent (content_id content) []); auto.
        apply has_content_in; exact Hin.
      * eexists _, true, _. split; [exact ELN|]. split; [|left; reflexivity].
        apply (Delivered w pid _ sent (content_id content)
                 [AdminNotified (content_name content) who pid]); eauto.
        apply has_content_in; exact Hin.
Qed.

(** The [try] block either ends without any effect and without success,
    or it reaches the transmission with a completed payment and a
    catalogue row (the one asked for, when a [content_id] is given). *)
Lemma deliver_run pid cid cname w :
  (quiet w (final (DeliveryAutomator.deliver pid cid cname w)) /\
   (value (DeliveryAutomator.deliver pid cid cname w) = Ok false \/
    exists e, value (DeliveryAutomator.deliver pid cid cname w) = Raise e)) \/
  (exists payment content who w1,
     quiet w w1 /\
     find (fun p => (payment_id p =? pid)%string) (payments w) = Some payment /\
     status payment = "completed" /\
     In content (content_library w) /\
     (Text.truthy cid = true -> cid = Some (content_id content)) /\
     DeliveryAutomator.deliver pid cid cname w
     = DeliveryAutomator.send_and_record pid payment who content w1).
Proof.
  unfold DeliveryAutomator.deliver.
  rewrite run_bind, get_payment_details_run.
  pose proof (quiet_with_faults (tl (faults w)) w) as Q0.
  destruct (hd false (faults w)); [left; run_simpl; eauto|].
  destruct (find _ (payments w)) as [payment|] eqn:F; [|left; run_simpl; eauto].
  destruct (String.eqb_spec (status payment) "completed") as [Hst|Hst];
    simpl; [|left; run_simpl; eauto].
  set (w0 := with_faults (tl (faults w)) w) in *.
  rewrite run_bind, get_user_info_run.
  pose proof (quiet_with_faults (tl (faults w0)) w0) as Q1.
  assert (Q01 : quiet w (with_faults (tl (faults w0)) w0))
    by exact (quiet_trans _ _ _ Q0 Q1).
  destruct (hd false (faults w0)); [left; run_simpl; eauto|].
  set (w1 := with_faults (tl (faults w0)) w0) in *.
  rewrite run_bind.
  destruct (choose_content_run cid cname w1) as [Q2 Hc].
  assert (Q02 : quiet w (final (DeliveryAutomator.choose_content cid cname w1)))
    by exact (quiet_trans _ _ _ Q01 Q2).
  destruct (DeliveryAutomator.choose_content cid cname w1) as [[[c|]|e] w2];
    run_simpl; [|left; eauto|left; eauto].
  right. destruct (Hc c eq_refl) as [Hin Hcid].
  exists payment, c, (DeliveryAutomator.display_name
                        (find (fun u => (u_user_id u =? user_id payment)%Z) (users w0))
                        (user_id payment)), w2.
  split; [exact Q02|]. repeat split; auto.
Qed.

(** Whatever its arguments and the faults met, a call of
    [process_delivery] ends in one of the four outcomes; it raises only
    when it had to initialise and could not. *)
Lemma process_delivery_spec pid cid cname w :
  exists evs b ps,
    effect w evs ps (final (DeliveryAutomator.process_delivery pid cid cname w)) /\
    delivery_outcome w pid evs b ps /\
    (value (DeliveryAutomator.process_delivery pid cid cname w) = Ok b \/
     (initialized w = false /\ b = false /\ evs = [] /\
      exists e, value (DeliveryAutomator.process_delivery pid cid cname w) = Raise e)).
Proof.
  unfold DeliveryAutomator.process_delivery. rewrite run_bind.
  pose proof (QuietFacts.ensure_initialized_quiet w) as Q.
  assert (Hi : initialized w = true ->
               exists u, value (DeliveryAutomator.ensure_initialized w) = Ok u).
  { intros H. unfold DeliveryAutomator.ensure_initialized, bind, get_world.
    rewrite H. simpl. eauto. }
  destruct (DeliveryAutomator.ensure_initialized w) as [[[]|e] w0]; run_simpl.
  - rewrite run_try.
    destruct (deliver_run pid cid cname w0)
      as [[Qd Hv]|(payment & content & who & w1 & Q1 & _ & _ & Hin & _ & ->)].
    + destruct (DeliveryAutomator.deliver pid cid cname w0) as [[b|e] w1]; run_simpl.
      * destruct Hv as [[= ->]|[e [=]]].
        exists [], false, (payments w). split; [|split; [constructor|auto]].
        apply quiet_effect. eapply quiet_trans; eauto.
      * exists [], false, (payments w). split; [|split; [constructor|auto]].
        apply quiet_effect. eapply quiet_trans; eauto.
    + assert (Q01 : quiet w w1) by (eapply quiet_trans; eauto).
      assert (Hin1 : In content (content_library w1)).
      { destruct Q1 as (_ & Hl & _). rewrite Hl. exact Hin. }
      destruct (send_and_record_outcome pid payment who content w1 Hin1)
        as (evs & b & ps & E & O & Hv).
      apply (outcome_quiet _ _ _ _ _ _ Q01) in O.
      pose proof (quiet_then_effect _ _ _ _ _ Q01 E) as E'.
      destruct (DeliveryAutomator.send_and_record pid payment who content w1)
        as [[b'|e] w2]; run_simpl.
      * destruct Hv as [[= ->]|[_ [e [=]]]]. exists evs, b, ps. auto.
      * destruct Hv as [[=]|[-> _]]. exists evs, false, ps. auto.
  - exists [], false, (payments w). split; [apply quiet_effect; exact Q|].
    split; [constructor|]. right.
    destruct (initialized w) eqn:Hini.
    + destruct (Hi eq_refl) as [u [=]].
    + repeat split; eauto.
Qed.


Lemma existsb_notes notes pid :
  (notes = [] \/ exists t u, notes = [AdminNotified t u pid]) ->
  existsb is_write_back notes = false /\ existsb is_transmission notes = false.
Proof. intros [->|(t' & u' & ->)]; split; reflexivity. Qed.

Lemma transmission_not_write_back ev :
  is_transmission ev = true -> is_write_back ev = false.
Proof. destruct ev; simpl; congruence. Qed.

(** A fetch followed by a refused send: the payment stays completed and
    unlinked, and the call reports failure. *)
Example fetch_then_send_failure :
  DeliveryAutomator.process_delivery "p1" (Some "a1") None
    (Sample.world [Sample.paid "p1" 5] [Sample.movie_a]
                  [false; false; false; false; false; true])
  = (Ok false,
     mkWorld [Sample.paid "p1" 5] [Sample.movie_a] [Sample.alice] true true 0 0 []
             [Downloaded "drive-a"]).
Proof. reflexivity. Qed.

Example delivery_success :
  DeliveryAutomator.process_delivery "p1" (Some "a1") None
    (Sample.world [Sample.paid "p1" 5] [Sample.movie_a] [])
  = (Ok true,
     mkWorld [mkPayment "p1" 7 500 "USD" "delivered" (Some "a1") 5 (Some 6%Z)]
             [Sample.movie_a] [Sample.alice] true true 0 0 []
             [AdminNotified "Movie A" (AtName "alice") "p1"; Linked "p1" "a1";
              SentVideo 7 "Movie A"; Downloaded "drive-a"]).
Proof. reflexivity. Qed.

(** C1.  In every call of [process_delivery], whatever the arguments and
    the faults met: a write-back, when the call makes one, comes directly
    after a completed download and a completed transmission, and the call
    then reports success; the ledger changes by a recorded write-back
    only; and when no transmission completed (the fetch or the send
    raised, or the call ended earlier) the call does not report success
    (it returns [False] once initialised), no write-back is made and the
    ledger, hence the set of payments awaiting delivery, is as before.
    The transmission step itself raises exactly when it adds no
    transmission to the trace; and when it raises, the steps after it are
    skipped: the exception leaves the [try] block with the ledger as it
    was and at most a download added to the trace. *)
Theorem write_back_only_after_transmit
    (w : World) (pid : string) (cid cname : option string) :
  (exists evs,
     trace (final (DeliveryAutomator.process_delivery pid cid cname w)) = evs ++ trace w /\
     (existsb is_write_back evs = true ->
      exists notes sent d cid',
        evs = notes ++ [Linked pid cid'; sent; Downloaded d] /\
        is_transmission sent = true /\
        existsb is_write_back notes = false /\
        value (DeliveryAutomator.process_delivery pid cid cname w) = Ok true) /\
     (existsb is_write_back evs = false ->
      payments (final (DeliveryAutomator.process_delivery pid cid cname w)) = payments w) /\
     (existsb is_transmission evs = false ->
      value (DeliveryAutomator.process_delivery pid cid cname w) <> Ok true /\
      (initialized w = true ->
       value (DeliveryAutomator.process_delivery pid cid cname w) = Ok false) /\
      existsb is_write_back evs = false /\
      payments (final (DeliveryAutomator.process_delivery pid cid cname w)) = payments w /\
      Database.pending_rows
        (payments (final (DeliveryAutomator.process_delivery pid cid cname w)))
      = Database.pending_rows (payments w))) /\
  (forall uid d ft title w0,
     exists evs0,
       trace (final (DeliveryAutomator._send_content_to_user uid d ft title w0))
       = evs0 ++ trace w0 /\
       payments (final (DeliveryAutomator._send_content_to_user uid d ft title w0))
       = payments w0 /\
       ((exists e, value (DeliveryAutomator._send_content_to_user uid d ft title w0)
                   = Raise e) <->
        existsb is_transmission evs0 = false)) /\
  (forall payment who content w0 e,
     value (DeliveryAutomator._send_content_to_user
              (user_id payment) (google_drive_file_id content)
              (file_type content) (content_name content) w0) = Raise e ->
     value (DeliveryAutomator.send_and_record pid payment who content w0) = Raise e /\
     payments (final (DeliveryAutomator.send_and_record pid payment who content w0))
     = payments w0 /\
     (trace (final (DeliveryAutomator.send_and_record pid payment who content w0))
      = trace w0 \/
      trace (final (DeliveryAutomator.send_and_record pid payment who content w0))
      = Downloaded (google_drive_file_id content) :: trace w0)).
Proof.
  split; [|split].
  - destruct (process_delivery_spec pid cid cname w) as (evs & b & ps & E & O & Hv).
    exists evs. split; [eapply effect_trace; exact E|].
    rewrite (effect_payments _ _ _ _ E).
    assert (Hfail : b = false ->
              value (DeliveryAutomator.process_delivery pid cid cname w) <> Ok true /\
              (initialized w = true ->
               value (DeliveryAutomator.process_delivery pid cid cname w) = Ok false)).
    { intros ->. destruct Hv as [->|(Hi & _ & _ & e & ->)].
      - split; [discriminate|reflexivity].
      - split; [discriminate|]. congruence. }
    destruct O as [|d|d sent Hs|d sent c notes Hs Hc Hn]; simpl.
    + split; [discriminate|]. split; [reflexivity|]. intros _.
      destruct (Hfail eq_refl). auto.
    + split; [discriminate|]. split; [reflexivity|]. intros _.
      destruct (Hfail eq_refl). auto.
    + rewrite Hs, (transmission_not_write_back _ Hs). simpl.
      split; [discriminate|]. split; [reflexivity|discriminate].
    + destruct (existsb_notes notes pid Hn) as [Hw Ht].
      rewrite !existsb_app, Hw, Ht. simpl. rewrite Hs. simpl.
      split; [|split; discriminate].
      intros _. exists notes, sent, d, c. repeat split; auto.
      destruct Hv as [->|(_ & [=] & _)]. reflexivity.
  - intros uid d ft title w0.
    destruct (send_content_run uid d ft title w0)
      as [(e & Hv & [E|E])|(Hv & sent & Hs & E)];
      eexists; (split; [eapply effect_trace; exact E|]);
      (split; [eapply effect_payments; exact E|]); rewrite Hv; simpl.
    + split; eauto.
    + split; eauto.
    + rewrite Hs. split; [intros [e [=]]|discriminate].
  - intros payment who content w0 e Hr.
    unfold DeliveryAutomator.send_and_record. rewrite run_bind.
    destruct (send_content_run (user_id payment) (google_drive_file_id content)
                (file_type content) (content_name content) w0)
      as [(e' & Hv & HE)|(Hv & _)]; [|congruence].
    destruct (DeliveryAutomator._send_content_to_user _ _ _ _ w0) as [[[]|e''] w1];
      run_simpl; try discriminate.
    injection Hr as ->. split; [reflexivity|].
    destruct HE as [E|E]; rewrite (effect_payments _ _ _ _ E),
      (effect_trace _ _ _ _ E); simpl; auto.
Qed.

(** C2.  When the payment is missing, or is not completed, or a
    [content_id] is given that the catalogue does not hold, the call does
    not report success (it returns [False] once initialised) and leaves
    the ledger, the catalogue and the trace as they were: nothing is
    written, downloaded or sent. *)
Theorem rejected_delivery_has_no_effect
    (w : World) (pid : string) (cid cname : option string) :
  (find (fun p => (payment_id p =? pid)%string) (payments w) = None \/
   (exists p, find (fun p => (payment_id p =? pid)%string) (payments w) = Some p /\
              status p <> "completed") \/
   (exists c, cid = Some c /\ c <> EmptyString /\ Database.has_content c w = false)) ->
  value (DeliveryAutomator.process_delivery pid cid cname w) <> Ok true /\
  (initialized w = true ->
   value (DeliveryAutomator.process_delivery pid cid cname w) = Ok false) /\
  payments (final (DeliveryAutomator.process_delivery pid cid cname w)) = payments w /\
  content_library (final (DeliveryAutomator.process_delivery pid cid cname w))
  = content_library w /\
  trace (final (DeliveryAutomator.process_delivery pid cid cname w)) = trace w.
Proof.
  intros V.
  assert (Hd : forall w0, quiet w w0 ->
            quiet w0 (final (DeliveryAutomator.deliver pid cid cname w0)) /\
            (value (DeliveryAutomator.deliver pid cid cname w0) = Ok false \/
             exists e, value (DeliveryAutomator.deliver pid cid cname w0) = Raise e)).
  { intros w0 Q0.
    destruct (deliver_run pid cid cname w0)
      as [H|(payment & content & who & w1 & _ & F & Hst & Hin & Hcid & _)];
      [exact H|exfalso].
    destruct Q0 as (Hp & Hl & _). rewrite Hp in F. rewrite Hl in Hin.
    destruct V as [V|[(p & V & Hns)|(c & -> & Hne & Hc)]].
    - congruence.
    - rewrite V in F. injection F as ->. contradiction.
    - assert (Ht : Text.truthy (Some c) = true) by (destruct c; [contradiction|reflexivity]).
      specialize (Hcid Ht). injection Hcid as ->.
      rewrite (has_content_in _ _ Hin) in Hc. discriminate. }
  unfold DeliveryAutomator.process_delivery. rewrite run_bind.
  pose proof (QuietFacts.ensure_initialized_quiet w) as Q.
  assert (Hi : initialized w = true ->
               exists u, value (DeliveryAutomator.ensure_initialized w) = Ok u).
  { intros H. unfold DeliveryAutomator.ensure_initialized, bind, get_world.
    rewrite H. simpl. eauto. }
  destruct (DeliveryAutomator.ensure_initialized w) as [[[]|e] w0]; run_simpl.
  - rewrite run_try. destruct (Hd w0 Q) as [Qd Hv].
    pose proof (quiet_trans _ _ _ Q Qd) as Q'.
    destruct (DeliveryAutomator.deliver pid cid cname w0) as [[b|e] w1]; run_simpl.
    + destruct Hv as [[= ->]|[e [=]]].
      destruct Q' as (Hp & Hl & _ & Ht & _). repeat split; auto. discriminate.
    + destruct Q' as (Hp & Hl & _ & Ht & _). repeat split; auto. discriminate.
  - destruct Q as (Hp & Hl & _ & Ht & _). repeat split; auto; try discriminate.
    intros H. destruct (Hi H) as [u [=]].
Qed.

Lemma rejected_delivery_has_no_effect_witness :
  (exists p, find (fun p => (payment_id p =? "p1")%string)
                  (payments (Sample.world [Sample.unpaid "p1" 5] [Sample.movie_a] []))
             = Some p /\ status p <> "completed") /\
  value (DeliveryAutomator.process_delivery "p1" (Some "a1") None
           (Sample.world [Sample.unpaid "p1" 5] [Sample.movie_a] [])) = Ok false /\
  payments (final (DeliveryAutomator.process_delivery "p1" (Some "a1") None
                     (Sample.world [Sample.unpaid "p1" 5] [Sample.movie_a] [])))
  = [Sample.unpaid "p1" 5].
Proof.
  assert (V : exists p, find (fun p => (payment_id p =? "p1")%string)
                  (payments (Sample.world [Sample.unpaid "p1" 5] [Sample.movie_a] []))
             = Some p /\ status p <> "completed").
  { exists (Sample.unpaid "p1" 5). split; [reflexivity|discriminate]. }
  split; [exact V|].
  destruct (rejected_delivery_has_no_effect
              (Sample.world [Sample.unpaid "p1" 5] [Sample.movie_a] [])
              "p1" (Some "a1") None (or_intror (or_introl V)))
    as (_ & Hv & Hp & _).
  split; [apply Hv; reflexivity|exact Hp].
Defined.

End DeliveryFacts.

(** ** The ledger invariant *)

Create HintDb ledger_db.

Ltac ledger_walk :=
  respects_walk RunFacts.keeps_ledger_ok_refl RunFacts.keeps_ledger_ok_trans
                ltac:(eauto with ledger_db).

Module LedgerFacts.
Import RunFacts DeliveryFacts.

Lemma quiet_op_keeps_ledger {A} (m : M A) :
  respects quiet m -> respects keeps_ledger_ok m.
Proof. apply respects_weaken. exact quiet_keeps_ledger_ok. Qed.

(** Rewriting the rows of one payment to "delivered with [cid]" keeps
    every row in order when [cid] is a catalogue entry. *)
Lemma deliver_rows_ok w pid cid :
  ledger_ok w ->
  Database.has_content cid w = true ->
  forall p,
    In p (map (fun p => if (payment_id p =? pid)%string
                        then Database.deliver_row cid p else p) (payments w)) ->
    row_ok (content_library w) p.
Proof.
  intros Hok Hc p Hin. apply in_map_iff in Hin. destruct Hin as (p0 & <- & Hin0).
  destruct (payment_id p0 =? pid)%string; [|apply Hok; exact Hin0].
  unfold row_ok, Database.deliver_row; simpl. split.
  - split; [reflexivity|discriminate].
  - intros cid' [= <-]. unfold Database.has_content in Hc.
    apply existsb_exists in Hc. destruct Hc as (c & Hin & He).
    apply String.eqb_eq in He. eauto.
Qed.

Lemma effect_keeps_ledger_ok w evs w' :
  effect w evs (payments w) w' -> keeps_ledger_ok w w'.
Proof.
  intros E. destruct (effect_keeps_catalog _ _ _ _ E) as (Hl & _).
  pose proof (effect_payments _ _ _ _ E) as Hp.
  split; [exact Hl|]. unfold ledger_ok. rewrite Hp, Hl. auto.
Qed.

Lemma link_keeps_ledger_ok pid cid :
  respects keeps_ledger_ok (Database.link_content_to_payment pid cid).
Proof.
  intros w.
  destruct (link_run pid cid w) as [[_ Q]|(_ & Hc & E)];
    [apply quiet_keeps_ledger_ok; exact Q|].
  destruct (effect_keeps_catalog _ _ _ _ E) as (Hl & _).
  pose proof (effect_payments _ _ _ _ E) as Hp.
  split; [exact Hl|]. intros Hok p Hin. rewrite Hl. rewrite Hp in Hin.
  destruct (Database.has_payment pid w) eqn:Hhp.
  - apply (deliver_rows_ok w pid cid Hok (Hc eq_refl)). exact Hin.
  - apply Hok. apply in_map_iff in Hin. destruct Hin as (p0 & <- & Hin0).
    destruct (String.eqb_spec (payment_id p0) pid) as [He|_]; [|exact Hin0].
    exfalso. unfold Database.has_payment in Hhp.
    assert (Ht : existsb (fun p => (payment_id p =? pid)%string) (payments w) = true).
    { apply existsb_exists. exists p0. split; [exact Hin0|].
      apply String.eqb_eq. exact He. }
    congruence.
Qed.

(** The write-back sets the reference and the status together. *)
Lemma link_sets_both pid cid w :
  value (Database.link_content_to_payment pid cid w) = Ok tt ->
  forall p,
    In p (payments (final (Database.link_content_to_payment pid cid w))) ->
    payment_id p = pid ->
    p_content_id p = Some cid /\ status p = "delivered".
Proof.
  intros Hv p Hin Hid.
  destruct (link_run pid cid w) as [[Hr _]|(_ & _ & E)]; [congruence|].
  rewrite (effect_payments _ _ _ _ E) in Hin.
  apply in_map_iff in Hin. destruct Hin as (p0 & <- & _).
  destruct (String.eqb_spec (payment_id p0) pid) as [_|Hne].
  - split; reflexivity.
  - contradiction.
Qed.

Lemma process_delivery_keeps_ledger_ok pid cid cname :
  respects keeps_ledger_ok (DeliveryAutomator.process_delivery pid cid cname).
Proof.
  intros w.
  destruct (process_delivery_spec pid cid cname w) as (evs & b & ps & E & O & _).
  destruct O as [|d|d sent Hs|d sent c notes Hs Hc Hn];
    try (eapply effect_keeps_ledger_ok; exact E).
  destruct (effect_keeps_catalog _ _ _ _ E) as (Hl & _).
  pose proof (effect_payments _ _ _ _ E) as Hp.
  split; [exact Hl|]. intros Hok p Hin. rewrite Hl. rewrite Hp in Hin.
  apply (deliver_rows_ok w pid c Hok Hc). exact Hin.
Qed.

Lemma outside_keeps_ledger_ok e : respects keeps_ledger_ok (outside e).
Proof. apply quiet_op_keeps_ledger, outside_quiet. Qed.

Lemma emit_keeps_ledger_ok ev : respects keeps_ledger_ok (emit ev).
Proof. intros w. unfold keeps_ledger_ok, ledger_ok; simpl. auto. Qed.

Lemma count_success_keeps_ledger_ok :
  respects keeps_ledger_ok
    (modify (fun w => with_processed_count (S (processed_count w)) w)).
Proof. intros w. unfold keeps_ledger_ok, ledger_ok; simpl. auto. Qed.

Lemma count_error_keeps_ledger_ok :
  respects keeps_ledger_ok
    (modify (fun w => with_error_count (S (error_count w)) w)).
Proof. intros w. unfold keeps_ledger_ok, ledger_ok; simpl. auto. Qed.

Lemma determine_keeps_ledger_ok uid pid strategy :
  respects keeps_ledger_ok
    (DeliveryAutomator._determine_content_to_deliver uid pid strategy).
Proof. apply quiet_op_keeps_ledger, QuietFacts.determine_content_quiet. Qed.

Lemma get_pending_keeps_ledger_ok :
  respects keeps_ledger_ok DeliveryAutomator.get_pending_deliveries.
Proof. apply quiet_op_keeps_ledger, QuietFacts.get_pending_deliveries_quiet. Qed.

Lemma initialize_keeps_ledger_ok :
  respects keeps_ledger_ok DeliveryAutomator.initialize.
Proof. apply quiet_op_keeps_ledger, QuietFacts.initialize_quiet. Qed.

#[export] Hint Resolve link_keeps_ledger_ok process_delivery_keeps_ledger_ok
  outside_keeps_ledger_ok emit_keeps_ledger_ok count_success_keeps_ledger_ok
  count_error_keeps_ledger_ok determine_keeps_ledger_ok
  get_pending_keeps_ledger_ok initialize_keeps_ledger_ok : ledger_db.

Lemma process_one_keeps_ledger_ok delivery counts :
  respects keeps_ledger_ok (ContinuousDelivery.process_one delivery counts).
Proof.
  unfold ContinuousDelivery.process_one. destruct counts as [s e]. ledger_walk.
Qed.

Lemma process_each_keeps_ledger_ok pending :
  forall counts,
    respects keeps_ledger_ok (ContinuousDelivery.process_each pending counts).
Proof.
  induction pending as [|d rest IH]; intros counts; simpl.
  - ledger_walk.
  - pose proof (process_one_keeps_ledger_ok d counts). ledger_walk.
Qed.

Lemma check_and_process_keeps_ledger_ok :
  respects keeps_ledger_ok ContinuousDelivery.check_and_process_deliveries.
Proof.
  unfold ContinuousDelivery.check_and_process_deliveries,
    ContinuousDelivery.batch_pass.
  apply (respects_try _ keeps_ledger_ok_trans); [|intros ?; ledger_walk].
  apply (respects_bind _ keeps_ledger_ok_trans); [ledger_walk|].
  intros pending. pose proof (process_each_keeps_ledger_ok pending (0, 0)%nat).
  destruct pending; [ledger_walk|assumption].
Qed.

Lemma sleep_keeps_ledger_ok q : respects keeps_ledger_ok (ContinuousDelivery.sleep q).
Proof. unfold ContinuousDelivery.sleep. ledger_walk. Qed.

Lemma backoff_cycle_keeps_ledger_ok random interval retry_count :
  respects keeps_ledger_ok
    (ContinuousDelivery.backoff_cycle random interval retry_count).
Proof.
  unfold ContinuousDelivery.backoff_cycle, ContinuousDelivery.backoff_try,
    ContinuousDelivery.backoff_except.
  pose proof check_and_process_keeps_ledger_ok.
  pose proof sleep_keeps_ledger_ok.
  ledger_walk.
Qed.

Lemma sleep_or_cancel_keeps_ledger_ok q :
  respects keeps_ledger_ok (ContinuousDelivery.sleep_or_cancel q).
Proof.
  intros w. unfold ContinuousDelivery.sleep_or_cancel, emit, modify, final.
  destruct (hd false (faults w)); cbn [faults with_faults];
    [destruct (hd false (tl (faults w)))|];
    unfold keeps_ledger_ok, ledger_ok; simpl; split; auto.
Qed.

Lemma continuous_cycle_keeps_ledger_ok interval :
  respects keeps_ledger_ok (ContinuousDelivery.continuous_cycle interval).
Proof.
  unfold ContinuousDelivery.continuous_cycle.
  pose proof check_and_process_keeps_ledger_ok.
  pose proof sleep_or_cancel_keeps_ledger_ok.
  apply (respects_try_cancelled _ keeps_ledger_ok_trans); [| |intros ?]; ledger_walk.
Qed.

(** The empty ledger is in order. *)
Lemma empty_ledger_ok w : payments w = [] -> ledger_ok w.
Proof. intros H p Hin. rewrite H in Hin. destruct Hin. Qed.

(** A new pending payment carries no content. *)
Lemma add_pending_payment_keeps_ledger_ok now pid uid amt cur :
  respects keeps_ledger_ok (Database.add_pending_payment now pid uid amt cur).
Proof.
  intros w. unfold Database.add_pending_payment, bind, outside, get_world,
    modify, raise, final.
  destruct (hd false (faults w)); simpl;
    [apply quiet_keeps_ledger_ok, quiet_with_faults|].
  destruct (_ || _); simpl;
    [apply quiet_keeps_ledger_ok, quiet_with_faults|].
  split; [reflexivity|]. intros Hok p Hin. simpl in *.
  apply in_app_or in Hin. destruct Hin as [Hin|[<-|[]]]; [apply Hok; exact Hin|].
  unfold row_ok; simpl. split; [split; [congruence|discriminate]|discriminate].
Qed.

(** Expiry touches pending rows only, and leaves their content alone. *)
Lemma cleanup_expired_keeps_ledger_ok expiry_hours now :
  respects keeps_ledger_ok (Database.cleanup_expired_pending_payments expiry_hours now).
Proof.
  intros w. unfold Database.cleanup_expired_pending_payments, bind, outside,
    get_world, modify, final.
  destruct (hd false (faults w)); simpl;
    [apply quiet_keeps_ledger_ok, quiet_with_faults|].
  split; [reflexivity|]. intros Hok p Hin. simpl in *.
  apply in_map_iff in Hin. destruct Hin as (p0 & <- & Hin0).
  specialize (Hok p0 Hin0).
  destruct (String.eqb_spec (status p0) "pending") as [Hs|_]; simpl; [|exact Hok].
  destruct (_ <? _)%Z; [|exact Hok].
  destruct Hok as [[H1 H2] H3]. unfold row_ok, Database.expire_row; simpl.
  split; [split|exact H3].
  - intros Hc. apply H1 in Hc. rewrite Hs in Hc. discriminate.
  - discriminate.
Qed.

(** The provider callback moves a payment that carries no content to any
    status but "delivered" without harm. *)
Lemma update_payment_status_keeps_ledger_ok now pid st w :
  ledger_ok w ->
  st <> "delivered" ->
  (forall p, In p (payments w) -> payment_id p = pid -> p_content_id p = None) ->
  ledger_ok (final (Database.update_payment_status now pid st w)).
Proof.
  intros Hok Hst Hnone. unfold Database.update_payment_status, bind, outside,
    get_world, modify, final.
  destruct (hd false (faults w)); simpl; [exact Hok|].
  intros p Hin. simpl in *.
  apply in_map_iff in Hin. destruct Hin as (p0 & <- & Hin0).
  destruct (String.eqb_spec (payment_id p0) pid) as [He|_]; [|apply Hok; exact Hin0].
  unfold row_ok, Database.set_status; simpl. rewrite (Hnone _ Hin0 He).
  split; [split; [congruence|intros; congruence]|discriminate].
Qed.

End LedgerFacts.

(** C3.  From a ledger in which every row has a content reference exactly
    when its status is "delivered", and every reference names a catalogue
    entry, each operation of the pipeline ends in such a ledger again: the
    write-back (which sets reference and status together on the rows of
    the payment), a delivery, a batch pass and a turn of either scheduler
    loop.  In particular, after a delivery every delivered row refers to
    an existing catalogue entry. *)
Theorem payment_invariant_preserved (w : World) :
  ledger_ok w ->
  (forall pid cid,
     ledger_ok (final (Database.link_content_to_payment pid cid w))) /\
  (forall pid cid,
     value (Database.link_content_to_payment pid cid w) = Ok tt ->
     forall p,
       In p (payments (final (Database.link_content_to_payment pid cid w))) ->
       payment_id p = pid ->
       p_content_id p = Some cid /\ status p = "delivered") /\
  (forall pid cid cname,
     ledger_ok (final (DeliveryAutomator.process_delivery pid cid cname w))) /\
  ledger_ok (final (ContinuousDelivery.check_and_process_deliveries w)) /\
  (forall random interval retry_count,
     ledger_ok (final (ContinuousDelivery.backoff_cycle random interval retry_count w))) /\
  (forall interval,
     ledger_ok (final (ContinuousDelivery.continuous_cycle interval w))) /\
  (forall pid cid cname p,
     In p (payments (final (DeliveryAutomator.process_delivery pid cid cname w))) ->
     (p_content_id p <> None <-> status p = "delivered") /\
     (status p = "delivered" ->
      exists c,
        In c (content_library (final (DeliveryAutomator.process_delivery pid cid cname w))) /\
        p_content_id p = Some (content_id c))).
Proof.
  intros Hok.
  assert (Hpd : forall pid cid cname,
            ledger_ok (final (DeliveryAutomator.process_delivery pid cid cname w))).
  { intros. apply (LedgerFacts.process_delivery_keeps_ledger_ok pid cid cname w), Hok. }
  split; [intros; apply (LedgerFacts.link_keeps_ledger_ok pid cid w), Hok|].
  split; [intros pid cid; apply LedgerFacts.link_sets_both|].
  split; [exact Hpd|].
  split; [apply (LedgerFacts.check_and_process_keeps_ledger_ok w), Hok|].
  split; [intros; apply (LedgerFacts.backoff_cycle_keeps_ledger_ok _ _ _ w), Hok|].
  split; [intros; apply (LedgerFacts.continuous_cycle_keeps_ledger_ok _ w), Hok|].
  intros pid cid cname p Hin.
  destruct (Hpd pid cid cname p Hin) as [Hiff Href].
  split; [exact Hiff|]. intros Hd. apply Hiff in Hd.
  destruct (p_content_id p) as [c0|] eqn:Hc; [|congruence].
  destruct (Href c0 eq_refl) as (c & Hinc & <-). eauto.
Qed.

Lemma payment_invariant_preserved_witness :
  ledger_ok (Sample.world [Sample.paid "p1" 5] [Sample.movie_a] []) /\
  ledger_ok (final (DeliveryAutomator.process_delivery "p1" (Some "a1") None
                      (Sample.world [Sample.paid "p1" 5] [Sample.movie_a] []))).
Proof.
  assert (H : ledger_ok (Sample.world [Sample.paid "p1" 5] [Sample.movie_a] [])).
  { intros p [<-|[]]. unfold row_ok; simpl.
    split; [split; [congruence|discriminate]|discriminate]. }
  split; [exact H|].
  destruct (payment_invariant_preserved _ H) as (_ & _ & Hpd & _).
  apply Hpd.
Defined.

(** The status setter of the provider callback is no part of the
    pipeline; handed "delivered" it yields a delivered row without
    content. *)
Remark status_setter_is_outside_the_invariant :
  ledger_ok (Sample.world [Sample.unpaid "p1" 5] [Sample.movie_a] []) /\
  ~ ledger_ok (final (Database.update_payment_status 9 "p1" "delivered"
                        (Sample.world [Sample.unpaid "p1" 5] [Sample.movie_a] []))).
Proof.
  split.
  - intros p [<-|[]]. unfold row_ok; simpl.
    split; [split; [congruence|discriminate]|discriminate].
  - intros H. specialize (H _ (or_introl eq_refl)).
    destruct H as [[_ H] _]. simpl in H. apply H; reflexivity.
Qed.

(** ** The batch pass *)

Module BatchFacts.
Import RunFacts DeliveryFacts.

Lemma attempted_app evs2 evs1 :
  attempted (evs2 ++ evs1) = attempted evs1 ++ attempted evs2.
Proof. unfold attempted. rewrite flat_map_app, rev_app_distr. reflexivity. Qed.

Lemma attempted_none evs : existsb is_attempt evs = false -> attempted evs = [].
Proof.
  unfold attempted. induction evs as [|ev evs IH]; simpl; [reflexivity|].
  intros H. apply orb_false_iff in H. destruct H as [He Hr].
  destruct ev; simpl in *; try discriminate; exact (IH Hr).
Qed.

Lemma outcome_no_attempt w pid evs b ps :
  delivery_outcome w pid evs b ps -> existsb is_attempt evs = false.
Proof.
  intros O. destruct O as [|d|d sent Hs|d sent c notes Hs Hc Hn]; simpl; auto.
  - destruct sent; try discriminate; reflexivity.
  - rewrite existsb_app. simpl.
    destruct sent; try discriminate;
      destruct Hn as [->|(t & u & ->)]; reflexivity.
Qed.

Lemma determine_total uid pid strategy w :
  exists c, value (DeliveryAutomator._determine_content_to_deliver uid pid strategy w)
            = Ok c.
Proof. apply try_ret_total. Qed.

(** One turn of the loop, started initialised: it ends normally, counts
    the item once, and adds its "Processing" line and nothing else that
    marks an attempt. *)
Lemma process_one_run delivery s e w :
  initialized w = true ->
  exists s' e' evs w',
    ContinuousDelivery.process_one delivery (s, e) w = (Ok (s', e'), w') /\
    ((s' = S s /\ e' = e) \/ (s' = s /\ e' = S e)) /\
    trace w' = evs ++ LogProcessing (d_payment_id delivery) (d_user_id delivery) :: trace w /\
    existsb is_attempt evs = false /\
    initialized w' = true /\
    processed_count w' = (processed_count w + (s' - s))%nat /\
    error_count w' = (error_count w + (e' - e))%nat.
Proof.
  intros Hi. unfold ContinuousDelivery.process_one.
  rewrite run_bind. unfold emit at 1, modify at 1.
  set (w0 := with_trace _ w).
  assert (Hi0 : initialized w0 = true) by exact Hi.
  rewrite run_bind.
  pose proof (QuietFacts.determine_content_quiet (d_user_id delivery)
                (d_payment_id delivery) "recent" w0) as Q.
  destruct (determine_total (d_user_id delivery) (d_payment_id delivery) "recent" w0)
    as [c Hc].
  destruct (DeliveryAutomator._determine_content_to_deliver _ _ _ w0) as [r w1].
  run_simpl. subst r.
  destruct Q as (Qp & Ql & Qu & Qt & Qpc & Qec & Qi & Qcm).
  destruct c as [content|].
  - rewrite run_bind.
    destruct (process_delivery_spec (d_payment_id delivery) (Some (id content)) None w1)
      as (evs & b & ps & E & O & Hv).
    pose proof (outcome_no_attempt _ _ _ _ _ O) as Hna.
    pose proof (effect_trace _ _ _ _ E) as Ht.
    destruct (effect_counts _ _ _ _ E) as [Hpc Hec].
    destruct (effect_keeps_catalog _ _ _ _ E) as (_ & _ & Hi2 & _).
    destruct (DeliveryAutomator.process_delivery _ _ _ w1) as [r w2].
    run_simpl.
    destruct Hv as [->|(Hf & _)]; [|rewrite (Qi Hi0) in Hf; discriminate].
    destruct b; simpl.
    + exists (S s), e, evs, (with_processed_count (S (processed_count w2)) w2).
      split; [reflexivity|]. split; [auto|]. cbn -[Nat.sub].
      rewrite Ht, Qt, Hpc, Qpc, Hec, Qec. subst w0; cbn -[Nat.sub].
      repeat split; auto; lia.
    + exists s, (S e), evs, (with_error_count (S (error_count w2)) w2).
      split; [reflexivity|]. split; [auto|]. cbn -[Nat.sub].
      rewrite Ht, Qt, Hpc, Qpc, Hec, Qec. subst w0; cbn -[Nat.sub].
      repeat split; auto; lia.
  - exists s, (S e), [], (with_error_count (S (error_count w1)) w1).
    split; [reflexivity|]. split; [auto|]. cbn -[Nat.sub].
    rewrite Qt, Qpc, Qec. subst w0; cbn -[Nat.sub].
    repeat split; auto; lia.
Qed.

(** The loop over the pending list: every item is taken up, in order,
    and counted once. *)
Lemma process_each_run pending :
  forall s e w,
    initialized w = true ->
    exists s' e' evs w',
      ContinuousDelivery.process_each pending (s, e) w = (Ok (s', e'), w') /\
      (s' + e' = s + e + List.length pending)%nat /\
      (s <= s')%nat /\ (e <= e')%nat /\
      trace w' = evs ++ trace w /\
      attempted evs = map d_payment_id pending /\
      initialized w' = true /\
      processed_count w' = (processed_count w + (s' - s))%nat /\
      error_count w' = (error_count w + (e' - e))%nat.
Proof.
  induction pending as [|d rest IH]; intros s e w Hi;
    cbn [ContinuousDelivery.process_each].
  - exists s, e, [], w. unfold ret. cbn [List.length]. repeat split; auto; lia.
  - rewrite run_bind.
    destruct (process_one_run d s e w Hi)
      as (s1 & e1 & evs1 & w1 & -> & Hc1 & Ht1 & Hn1 & Hi1 & Hp1 & He1).
    destruct (IH s1 e1 w1 Hi1)
      as (s2 & e2 & evs2 & w2 & -> & Hc2 & Hs2 & He2' & Ht2 & Ha2 & Hi2 & Hp2 & He2).
    exists s2, e2, (evs2 ++ evs1 ++ [LogProcessing (d_payment_id d) (d_user_id d)]), w2.
    split; [reflexivity|]. cbn [List.length].
    split; [lia|]. split; [lia|]. split; [lia|].
    split; [rewrite Ht2, Ht1, <- !app_assoc; reflexivity|].
    split.
    { rewrite !attempted_app, Ha2, (attempted_none _ Hn1). reflexivity. }
    split; [exact Hi2|]. split; lia.
Qed.

(** A pending list that was read leaves the automator initialised. *)
Lemma get_pending_deliveries_ok w pending w1 :
  DeliveryAutomator.get_pending_deliveries w = (Ok pending, w1) ->
  initialized w1 = true /\ quiet w w1.
Proof.
  intros H.
  pose proof (QuietFacts.get_pending_deliveries_quiet w) as Q.
  rewrite H in Q. split; [|exact Q].
  revert H. unfold DeliveryAutomator.get_pending_deliveries.
  rewrite run_bind.
  assert (Hini : forall u w0, DeliveryAutomator.ensure_initialized w = (Ok u, w0) ->
                              initialized w0 = true).
  { intros u w0. unfold DeliveryAutomator.ensure_initialized, bind, get_world.
    destruct (initialized w) eqn:Hi; simpl.
    - intros [= _ <-]. exact Hi.
    - unfold DeliveryAutomator.initialize, ContentManager.initialize,
        try_except, bind, outside, modify, raise.
      destruct (hd false (faults w)); simpl; [discriminate|].
      destruct (hd false (tl (faults w))); simpl; [discriminate|].
      intros [= _ <-]. reflexivity. }
  destruct (DeliveryAutomator.ensure_initialized w) as [[u|e] w0]; [|discriminate].
  specialize (Hini u w0 eq_refl).
  pose proof (QuietFacts.get_pending_payments_quiet w0) as Q0.
  rewrite run_try.
  destruct (Database.get_pending_payments_for_admin w0) as [[l|e] w2];
    run_simpl; intros [= _ <-]; destruct Q0 as (_ & _ & _ & _ & _ & _ & Hk & _); auto.
Qed.

(** The batch pass over a pending list that was read. *)
Lemma batch_pass_run w pending w1 :
  DeliveryAutomator.get_pending_deliveries w = (Ok pending, w1) ->
  exists s e evs w2,
    ContinuousDelivery.batch_pass w = (Ok (s, e), w2) /\
    ContinuousDelivery.check_and_process_deliveries w = (Ok (s, e), w2) /\
    (s + e = List.length pending)%nat /\
    trace w2 = evs ++ trace w /\
    attempted evs = map d_payment_id pending /\
    processed_count w2 = (processed_count w + s)%nat /\
    error_count w2 = (error_count w + e)%nat.
Proof.
  intros H. destruct (get_pending_deliveries_ok _ _ _ H) as [Hi Q].
  destruct Q as (_ & _ & _ & Qt & Qpc & Qec & _).
  destruct (process_each_run pending 0 0 w1 Hi)
    as (s & e & evs & w2 & Hrun & Hc & _ & _ & Ht & Ha & _ & Hp & He).
  assert (Hb : ContinuousDelivery.batch_pass w = (Ok (s, e), w2)).
  { unfold ContinuousDelivery.batch_pass. rewrite run_bind, H.
    destruct pending; [|exact Hrun]. exact Hrun. }
  exists s, e, evs, w2. split; [exact Hb|].
  split; [unfold ContinuousDelivery.check_and_process_deliveries;
          rewrite run_try, Hb; reflexivity|].
  rewrite Ht, Hp, He, Qt, Qpc, Qec. repeat split; auto; lia.
Qed.

End BatchFacts.

(** ** The scheduler *)

Module SchedulerFacts.
Import RunFacts DeliveryFacts BatchFacts.

Lemma get_pending_deliveries_run w :
  initialized w = true ->
  hd false (faults w) = false ->
  DeliveryAutomator.get_pending_deliveries w
  = (Ok (map Database.delivery_of (Database.pending_rows (payments w))),
     with_faults (tl (faults w)) w).
Proof.
  intros Hi Hf.
  unfold DeliveryAutomator.get_pending_deliveries,
    DeliveryAutomator.ensure_initialized, Database.get_pending_payments_for_admin,
    try_except, bind, get_world, outside, ret.
  rewrite Hi. simpl. rewrite Hf. reflexivity.
Qed.

Lemma get_pending_deliveries_fault w :
  initialized w = true ->
  hd false (faults w) = true ->
  DeliveryAutomator.get_pending_deliveries w = (Ok [], with_faults (tl (faults w)) w).
Proof.
  intros Hi Hf.
  unfold DeliveryAutomator.get_pending_deliveries,
    DeliveryAutomator.ensure_initialized, Database.get_pending_payments_for_admin,
    try_except, bind, get_world, outside, ret.
  rewrite Hi. simpl. rewrite Hf. reflexivity.
Qed.

(** Four payments stored out of order, two of them awaiting delivery:
    the batch takes up ["p1"] (requested at 5) before ["p2"] (at 9). *)
Example pending_are_taken_oldest_first :
  value (ContinuousDelivery.check_and_process_deliveries
           (Sample.world [Sample.paid "p2" 9; Sample.unpaid "p3" 1; Sample.paid "p1" 5;
                          mkPayment "p0" 7 500 "USD" "delivered" (Some "a1") 0 (Some 1%Z)]
                         [Sample.movie_a] []))
  = Ok (2, 0)%nat /\
  attempted (trace (final (ContinuousDelivery.check_and_process_deliveries
           (Sample.world [Sample.paid "p2" 9; Sample.unpaid "p3" 1; Sample.paid "p1" 5;
                          mkPayment "p0" 7 500 "USD" "delivered" (Some "a1") 0 (Some 1%Z)]
                         [Sample.movie_a] []))))
  = ["p1"; "p2"] /\
  map status (payments (final (ContinuousDelivery.check_and_process_deliveries
           (Sample.world [Sample.paid "p2" 9; Sample.unpaid "p3" 1; Sample.paid "p1" 5;
                          mkPayment "p0" 7 500 "USD" "delivered" (Some "a1") 0 (Some 1%Z)]
                         [Sample.movie_a] []))))
  = ["delivered"; "pending"; "delivered"; "delivered"].
Proof. vm_compute. repeat split. Qed.

(** C7.  With the automator initialised and the ledger query answered,
    the checking phase yields exactly the rows whose status is "completed"
    and whose content reference is null, in ascending order of request
    time, and the batch pass takes the payments up in that order. *)
Theorem checking_selects_pending_oldest_first (w : World) :
  initialized w = true ->
  hd false (faults w) = false ->
  value (DeliveryAutomator.get_pending_deliveries w)
  = Ok (map Database.delivery_of (Database.pending_rows (payments w))) /\
  (forall p, In p (Database.pending_rows (payments w)) <->
             In p (payments w) /\ status p = "completed" /\ p_content_id p = None) /\
  Permutation (Database.pending_rows (payments w))
              (filter Database.is_pending_delivery (payments w)) /\
  StronglySorted (fun a b => (request_timestamp a <= request_timestamp b)%Z)
                 (Database.pending_rows (payments w)) /\
  exists evs,
    trace (final (ContinuousDelivery.check_and_process_deliveries w)) = evs ++ trace w /\
    attempted evs = map payment_id (Database.pending_rows (payments w)).
Proof.
  intros Hi Hf.
  pose proof (get_pending_deliveries_run w Hi Hf) as Hrun.
  destruct (OrderFacts.pending_rows_spec (payments w)) as (HP & Hin & HS).
  split; [rewrite Hrun; reflexivity|].
  split; [exact Hin|]. split; [exact HP|]. split; [exact HS|].
  destruct (batch_pass_run _ _ _ Hrun) as (s & e & evs & w2 & _ & Hc & _ & Ht & Ha & _).
  exists evs. rewrite Hc. split; [exact Ht|].
  rewrite Ha, map_map. reflexivity.
Qed.

Lemma checking_selects_pending_oldest_first_witness :
  initialized (Sample.world [Sample.paid "p2" 9; Sample.unpaid "p3" 1; Sample.paid "p1" 5]
                            [Sample.movie_a] []) = true /\
  value (DeliveryAutomator.get_pending_deliveries
           (Sample.world [Sample.paid "p2" 9; Sample.unpaid "p3" 1; Sample.paid "p1" 5]
                         [Sample.movie_a] []))
  = Ok [Database.delivery_of (Sample.paid "p1" 5);
        Database.delivery_of (Sample.paid "p2" 9)].
Proof.
  split; [reflexivity|].
  exact (proj1 (checking_selects_pending_oldest_first
                  (Sample.world [Sample.paid "p2" 9; Sample.unpaid "p3" 1;
                                 Sample.paid "p1" 5] [Sample.movie_a] [])
                  eq_refl eq_refl)).
Defined.

(** The first of two items fails at the Drive metadata request; the
    second is still delivered. *)
Example one_failure_does_not_stop_the_batch :
  value (ContinuousDelivery.check_and_process_deliveries
           (Sample.world [Sample.paid "p1" 5; Sample.paid "p2" 6] [Sample.movie_a]
                         [false; false; false; false; false; true]))
  = Ok (1, 1)%nat /\
  attempted (trace (final (ContinuousDelivery.check_and_process_deliveries
           (Sample.world [Sample.paid "p1" 5; Sample.paid "p2" 6] [Sample.movie_a]
                         [false; false; false; false; false; true]))))
  = ["p1"; "p2"] /\
  map status (payments (final (ContinuousDelivery.check_and_process_deliveries
           (Sample.world [Sample.paid "p1" 5; Sample.paid "p2" 6] [Sample.movie_a]
                         [false; false; false; false; false; true]))))
  = ["completed"; "delivered"].
Proof. vm_compute. repeat split. Qed.



(** Started cold with initialisation failing, the [try] block raises and
    the call still returns [(0, 0)]. *)
Example cold_start_failure_is_absorbed :
  value (ContinuousDelivery.batch_pass
           (Sample.cold_world [Sample.paid "p1" 5] [Sample.movie_a] [true]))
  = Raise InitError /\
  value (ContinuousDelivery.check_and_process_deliveries
           (Sample.cold_world [Sample.paid "p1" 5] [Sample.movie_a] [true]))
  = Ok (0, 0)%nat.
Proof. split; vm_compute; reflexivity. Qed.

(** C10.  [check_and_process_deliveries] returns normally from every
    world: when its [try] block raises, the result is [(0, 0)]; a failed
    read of the pending list gives the empty list and so [(0, 0)], the
    value of an empty batch.  Hence the [try] block of the back-off loop
    can only be left through an exception of its own sleep. *)
Theorem check_and_process_never_raises (w : World) :
  (exists s e,
     value (ContinuousDelivery.check_and_process_deliveries w) = Ok (s, e)) /\
  (forall e,
     value (ContinuousDelivery.batch_pass w) = Raise e ->
     ContinuousDelivery.check_and_process_deliveries w
     = (Ok (0, 0)%nat, final (ContinuousDelivery.batch_pass w))) /\
  (initialized w = true ->
   hd false (faults w) = true ->
   value (DeliveryAutomator.get_pending_deliveries w) = Ok [] /\
   value (ContinuousDelivery.check_and_process_deliveries w) = Ok (0, 0)%nat) /\
  (forall w1,
     DeliveryAutomator.get_pending_deliveries w = (Ok [], w1) ->
     ContinuousDelivery.check_and_process_deliveries w = (Ok (0, 0)%nat, w1)) /\
  (forall interval retry_count e,
     value (ContinuousDelivery.backoff_try interval retry_count w) = Raise e ->
     e = SleepError /\
     exists counts w1,
       ContinuousDelivery.check_and_process_deliveries w = (Ok counts, w1) /\
       value (ContinuousDelivery.sleep (inject_Z interval) w1) = Raise SleepError).
Proof.
  assert (Htot : exists s e,
            value (ContinuousDelivery.check_and_process_deliveries w) = Ok (s, e)).
  { destruct (try_ret_total ContinuousDelivery.batch_pass (0, 0)%nat w) as [[s e] H].
    exists s, e. exact H. }
  assert (Hempty : forall w1,
            DeliveryAutomator.get_pending_deliveries w = (Ok [], w1) ->
            ContinuousDelivery.check_and_process_deliveries w = (Ok (0, 0)%nat, w1)).
  { intros w1 H. unfold ContinuousDelivery.check_and_process_deliveries,
      ContinuousDelivery.batch_pass. rewrite run_try, run_bind, H. reflexivity. }
  split; [exact Htot|]. split; [|split; [|split; [exact Hempty|]]].
  - intros e He. unfold ContinuousDelivery.check_and_process_deliveries.
    rewrite run_try. unfold value, final in *.
    destruct (ContinuousDelivery.batch_pass w) as [[c|e'] w']; simpl in *;
      [discriminate|reflexivity].
  - intros Hi Hf. pose proof (get_pending_deliveries_fault w Hi Hf) as H.
    rewrite (Hempty _ H), H. split; reflexivity.
  - intros interval retry_count e.
    unfold ContinuousDelivery.backoff_try. rewrite run_bind.
    destruct Htot as (s & e0 & Hv).
    destruct (ContinuousDelivery.check_and_process_deliveries w) as [r w1].
    run_simpl. subst r. rewrite run_bind.
    unfold ContinuousDelivery.sleep, bind, outside, emit, modify, ret.
    destruct (hd false (faults w1)) eqn:Hf; simpl; [|discriminate].
    intros [= <-]. split; [reflexivity|]. exists (s, e0), w1.
    split; [reflexivity|]. unfold value. rewrite Hf. reflexivity.
Qed.

(** The turn does not read the [retry_count] it is entered with. *)
Lemma backoff_cycle_forgets random interval retry_count :
  ContinuousDelivery.backoff_cycle random interval retry_count
  = ContinuousDelivery.backoff_cycle random interval 0.
Proof. reflexivity. Qed.

(** C6, on the code.  Take an initialised scheduler with nothing pending
    whose interval sleep raises in two successive turns.  As the module
    stands (the name [random] is unbound) the first error ends the loop
    with [NameError] before any back-off wait.  Were the name bound (here
    with [random.random()] yielding one half, so that the jitter term
    vanishes), both turns would wait the same 120 seconds: the counter is
    reset at the head of every turn, so the handler always computes
    [min(60 * 2 ^ 1, 3600)].  The waits of successive errors do not
    grow. *)
Theorem backoff_does_not_grow :
  value (ContinuousDelivery.run_with_exponential_backoff
           ContinuousDelivery.module_random 300 2
           (Sample.cold_world [] [] [false; false; false; true; false; false; true; false]))
  = Raise NameError /\
  delays (trace (final (ContinuousDelivery.run_with_exponential_backoff
                          ContinuousDelivery.module_random 300 2
                          (Sample.cold_world [] []
                             [false; false; false; true; false; false; true; false]))))
  = [] /\
  value (ContinuousDelivery.run_with_exponential_backoff (Some (1 # 2)%Q) 300 2
           (Sample.cold_world [] [] [false; false; false; true; false; false; true; false]))
  = Ok tt /\
  map Qred
    (delays (trace (final (ContinuousDelivery.run_with_exponential_backoff
                             (Some (1 # 2)%Q) 300 2
                             (Sample.cold_world [] []
                                [false; false; false; true; false; false; true; false])))))
  = [120%Q; 120%Q] /\
  (forall random interval retry_count,
     ContinuousDelivery.backoff_cycle random interval retry_count
     = ContinuousDelivery.backoff_cycle random interval 0) /\
  (forall retry_count w,
     exists e,
       value (ContinuousDelivery.backoff_except ContinuousDelivery.module_random
                retry_count w) = Raise e).
Proof.
  split; [vm_compute; reflexivity|]. split; [vm_compute; reflexivity|].
  split; [vm_compute; reflexivity|]. split; [vm_compute; reflexivity|].
  split; [reflexivity|].
  intros retry_count w. exists NameError. reflexivity.
Qed.

End SchedulerFacts.

(* ================================================================== *)
(** * Further properties                                               *)
(* ================================================================== *)

(** ** The keyword matcher, in terms of words *)

Module MatcherMore.
Import Text Matcher MatcherFacts.

Lemma forallb_filter_all {A} (f : A -> bool) (l : list A) :
  forallb f l = true -> filter f l = l.
Proof.
  induction l as [|a l IH]; simpl; [reflexivity|].
  intros H. apply andb_true_iff in H. destruct H as [Ha Hl].
  rewrite Ha, (IH Hl). reflexivity.
Qed.

(** The partial score reaches 40 exactly when two thirds of the words are
    found. *)
Lemma partial_accepts (m k : nat) :
  (40 <= inject_Z (Z.of_nat m) / inject_Z (Z.of_nat (S k)) * 60)%Q <->
  (2 * S k <= 3 * m)%nat.
Proof.
  unfold Qle, Qdiv, Qmult, Qinv, inject_Z.
  destruct (Z.of_nat (S k)) as [|p|p] eqn:E; try lia.
  cbn [Qnum Qden]. rewrite Pos.mul_1_l, Pos.mul_1_r, <- E. lia.
Qed.

Lemma score_accepts hint c q :
  score_of hint c = Some q ->
  ((40 <= q)%Q <->
   lower hint = lower (name c) \/
   (2 * List.length (split (lower hint))
    <= 3 * matching_words (lower hint) (lower (name c)))%nat).
Proof.
  intros Hq. unfold score_of in Hq.
  destruct (score_cases _ _ _ Hq)
    as [[E ->]|[(NE & Hall & ->)|(NE & Hnot & Hlen & -> & _)]].
  - split; [auto|discriminate].
  - split; [|discriminate]. intros _. right.
    apply forallb_all_tokens in Hall. unfold matching_words.
    rewrite (forallb_filter_all _ _ Hall). lia.
  - destruct (List.length (split (lower hint))) as [|k] eqn:Ek; [lia|].
    rewrite partial_accepts. split; [auto|]. intros [E|H]; [contradiction|exact H].
Qed.

(** X1.  The matcher returns an item exactly when some listed item
    equals the hint up to case or contains at least two thirds of the
    hint's words. *)
Theorem match_needs_two_thirds_of_the_words (hint : string) (all_contents : list Content) :
  (exists c, best_match_in hint all_contents = Some c) <->
  (exists x,
     In x all_contents /\
     (lower hint = lower (name x) \/
      (2 * List.length (split (lower hint))
       <= 3 * matching_words (lower hint) (lower (name x)))%nat)).
Proof.
  split.
  - intros [c Hc]. apply best_match_in_some in Hc.
    destruct Hc as (q & (l1 & l2 & -> & Hq & _) & H40).
    exists c. split; [apply in_elt|]. apply (score_accepts _ _ _ Hq). exact H40.
  - intros (x & Hin & Hacc).
    destruct (best_match_in hint all_contents) as [c|] eqn:E; [eauto|exfalso].
    destruct (score_total (lower hint) (lower (name x))) as [q Hq].
    pose proof (proj1 (best_match_in_none hint all_contents) E x q Hin Hq) as Hlt.
    apply (score_accepts hint x q Hq) in Hacc.
    exact (Qlt_not_le _ _ Hlt Hacc).
Qed.

(** X2.  An item whose name equals the hint up to case is returned, the
    first such item of the listing, whatever else is listed. *)
Theorem exact_name_wins (hint : string) (l1 : list Content) (c : Content)
    (l2 : list Content) :
  lower (name c) = lower hint ->
  (forall x, In x l1 -> lower (name x) <> lower hint) ->
  best_match_in hint (l1 ++ c :: l2) = Some c.
Proof.
  intros Hc Hl1. apply best_match_in_some. exists 100%Q. split; [|discriminate].
  assert (Hle : forall x q, score_of hint x = Some q -> (q <= 100)%Q).
  { intros x q Hq. unfold score_of in Hq.
    destruct (score_cases _ _ _ Hq) as [[_ ->]|[(_ & _ & ->)|(_ & _ & _ & _ & _ & Hhi)]];
      try discriminate.
    apply Qlt_le_weak. eapply Qlt_trans; [exact Hhi|reflexivity]. }
  exists l1, l2. split; [reflexivity|]. split; [|split].
  - unfold score_of, score. rewrite Hc, String.eqb_refl. reflexivity.
  - intros x q Hx Hq. unfold score_of in Hq.
    destruct (score_cases _ _ _ Hq) as [[E _]|[(_ & _ & ->)|(_ & _ & _ & _ & _ & Hhi)]].
    + exfalso. apply (Hl1 x Hx). symmetry. exact E.
    + reflexivity.
    + eapply Qlt_trans; [exact Hhi|reflexivity].
  - intros x q _ Hq. eapply Hle; eauto.
Qed.

Lemma exact_name_wins_witness :
  lower "Movie B" = lower "movie b" /\
  best_match_in "movie b"
    ([mkContent "c1" "Movie B part two" "video" "d1" 9] ++
     mkContent "c2" "Movie B" "video" "d2" 8 :: [])
  = Some (mkContent "c2" "Movie B" "video" "d2" 8).
Proof.
  split; [reflexivity|].
  apply (exact_name_wins "movie b" [mkContent "c1" "Movie B part two" "video" "d1" 9]
           (mkContent "c2" "Movie B" "video" "d2" 8) [] eq_refl).
  intros x [<-|[]]. discriminate.
Defined.

End MatcherMore.

(** ** What a successful delivery did *)

Module DeliveryMore.
Import RunFacts DeliveryFacts.

(** A match reported by [find_best_content_match] is the matcher's choice
    over the listing of the catalogue. *)
Lemma find_best_run hint w m w1 :
  ContentManager.find_best_content_match hint w = (Ok (Some m), w1) ->
  Matcher.best_match_in hint (ContentManager.listing 1000 (content_library w)) = Some m.
Proof.
  unfold ContentManager.find_best_content_match, ContentManager.list_contents,
    ContentManager.ensure_initialized, ContentManager.initialize,
    try_except, bind, get_world, outside, modify, raise, ret.
  destruct (cm_initialized w) eqn:Hc; cbn -[ContentManager.listing Matcher.match_loop].
  - rewrite Hc. cbn -[ContentManager.listing Matcher.match_loop].
    destruct (hd false (faults w)); cbn -[ContentManager.listing Matcher.match_loop].
    + discriminate.
    + intros [= H _]. exact H.
  - destruct (hd false (faults w)); cbn -[ContentManager.listing Matcher.match_loop];
      [discriminate|].
    destruct (hd false (tl (faults w))); cbn -[ContentManager.listing Matcher.match_loop].
    + discriminate.
    + intros [= H _]. exact H.
Qed.

(** How the row to deliver was chosen. *)
Lemma choose_content_some cid cname w c :
  value (DeliveryAutomator.choose_content cid cname w) = Ok (Some c) ->
  (exists k, cid = Some k /\ Text.truthy cid = true /\
             find (fun r => (content_id r =? k)%string) (content_library w) = Some c) \/
  (Text.truthy cid = false /\
   exists n m, cname = Some n /\ Text.truthy cname = true /\
               Matcher.best_match_in n (ContentManager.listing 1000 (content_library w))
               = Some m /\
               find (fun r => (content_id r =? id m)%string) (content_library w) = Some c).
Proof.
  unfold DeliveryAutomator.choose_content.
  destruct (Text.truthy cid) eqn:Tc.
  - rewrite run_bind, get_content_run.
    destruct (hd false (faults w)); run_simpl; [discriminate|].
    destruct (find _ (content_library w)) as [c0|] eqn:F; run_simpl; [|discriminate].
    intros [= <-]. left. destruct cid as [k|]; [|discriminate]. eauto.
  - destruct (Text.truthy cname) eqn:Tn; [|run_simpl; discriminate].
    rewrite run_bind.
    pose proof (QuietFacts.find_best_content_match_quiet
                  (match cname with Some n => n | None => EmptyString end) w) as Q.
    pose proof (find_best_run
                  (match cname with Some n => n | None => EmptyString end) w) as Hb.
    unfold final in Q.
    destruct (ContentManager.find_best_content_match _ w) as [[[m|]|e] w1];
      try (run_simpl; discriminate).
    specialize (Hb m w1 eq_refl).
    rewrite run_bind, get_content_run.
    destruct (hd false (faults w1)); [run_simpl; discriminate|].
    cbn [snd] in Q. destruct Q as (_ & Hl & _). unfold value. cbn [fst snd].
    rewrite Hl. destruct (find _ (content_library w)) as [c0|] eqn:F;
      cbn [fst snd raise ret]; [|discriminate].
    intros [= <-]. right. split; [reflexivity|].
    destruct cname as [n|]; [|discriminate]. exists n, m. auto.
Qed.

(** A transmission that returned has downloaded the file and made the
    send call of the file type, addressed to the given user. *)
Lemma send_content_ok uid d ft title w :
  value (DeliveryAutomator._send_content_to_user uid d ft title w) = Ok tt ->
  effect w [transmission_of uid ft title; Downloaded d] (payments w)
    (final (DeliveryAutomator._send_content_to_user uid d ft title w)).
Proof.
  unfold DeliveryAutomator._send_content_to_user, transmission_of, try_except, bind,
    outside, emit, modify, raise, value, final.
  cbn -[Text.lower String.eqb].
  destruct (hd false (faults w)); cbn -[Text.lower String.eqb]; [discriminate|].
  destruct (hd false (tl (faults w))); cbn -[Text.lower String.eqb]; [discriminate|].
  destruct (Text.lower ft =? "video")%string; cbn -[Text.lower String.eqb];
    destruct (hd false (tl (tl (faults w)))); cbn -[Text.lower String.eqb];
    try discriminate; intros _; unfold effect, quiet; cbn; tauto.
Qed.

(** The tail of a delivery that reported success: download, send to the
    payer, write-back, and possibly the notice to the operator. *)
Lemma send_and_record_true pid payment who content w :
  value (DeliveryAutomator.send_and_record pid payment who content w) = Ok true ->
  exists notes,
    (notes = [] \/ notes = [AdminNotified (content_name content) who pid]) /\
    effect w
      (notes ++ [Linked pid (content_id content);
                 transmission_of (user_id payment) (file_type content)
                                 (content_name content);
                 Downloaded (google_drive_file_id content)])
      (deliver_rows pid (content_id content) (payments w))
      (final (DeliveryAutomator.send_and_record pid payment who content w)).
Proof.
  unfold DeliveryAutomator.send_and_record. rewrite run_bind.
  pose proof (send_content_ok (user_id payment) (google_drive_file_id content)
                (file_type content) (content_name content) w) as Hs.
  destruct (DeliveryAutomator._send_content_to_user _ _ _ _ w) as [[[]|e] w1];
    [|run_simpl; discriminate].
  specialize (Hs eq_refl). unfold final in Hs. cbn [snd] in Hs.
  rewrite run_bind.
  destruct (link_run pid (content_id content) w1) as [[Lv Q]|(Lv & _ & L)];
    destruct (Database.link_content_to_payment pid (content_id content) w1)
      as [[[]|e] w2]; run_simpl; try discriminate.
  rewrite run_bind.
  destruct (notify_run (content_name content) who pid w2) as [Nv NE].
  destruct (try_except _ _ w2) as [[[]|e] w3]; run_simpl; try discriminate.
  intros _.
  pose proof (effect_trans _ _ _ _ _ _ _ Hs L) as EL.
  rewrite (effect_payments _ _ _ _ Hs) in EL.
  destruct NE as [N|N];
    pose proof (effect_trans _ _ _ _ _ _ _ EL N) as ELN;
    rewrite (effect_payments _ _ _ _ EL) in ELN.
  - exists []. split; [auto|exact ELN].
  - exists [AdminNotified (content_name content) who pid]. split; [auto|exact ELN].
Qed.

(** A [try] block that returned [True] found a completed payment, chose a
    catalogue row by identifier or by name, and ran the tail on it. *)
Lemma deliver_true pid cid cname w :
  value (DeliveryAutomator.deliver pid cid cname w) = Ok true ->
  exists payment content who w1,
    quiet w w1 /\
    find (fun p => (payment_id p =? pid)%string) (payments w) = Some payment /\
    status payment = "completed" /\
    ((exists k, cid = Some k /\ Text.truthy cid = true /\
                find (fun r => (content_id r =? k)%string) (content_library w)
                = Some content) \/
     (Text.truthy cid = false /\
      exists n m, cname = Some n /\ Text.truthy cname = true /\
                  Matcher.best_match_in n
                    (ContentManager.listing 1000 (content_library w)) = Some m /\
                  find (fun r => (content_id r =? id m)%string) (content_library w)
                  = Some content)) /\
    DeliveryAutomator.deliver pid cid cname w
    = DeliveryAutomator.send_and_record pid payment who content w1.
Proof.
  unfold DeliveryAutomator.deliver.
  rewrite run_bind, get_payment_details_run.
  pose proof (quiet_with_faults (tl (faults w)) w) as Q0.
  destruct (hd false (faults w)); [run_simpl; discriminate|].
  destruct (find _ (payments w)) as [payment|] eqn:F; [|run_simpl; discriminate].
  destruct (String.eqb_spec (status payment) "completed") as [Hst|Hst];
    cbn [negb]; [|run_simpl; discriminate].
  set (w0 := with_faults (tl (faults w)) w) in *.
  rewrite run_bind, get_user_info_run.
  pose proof (quiet_with_faults (tl (faults w0)) w0) as Q1.
  assert (Q01 : quiet w (with_faults (tl (faults w0)) w0))
    by exact (quiet_trans _ _ _ Q0 Q1).
  destruct (hd false (faults w0)); [run_simpl; discriminate|].
  set (w1 := with_faults (tl (faults w0)) w0) in *.
  rewrite run_bind.
  destruct (choose_content_run cid cname w1) as [Q2 _].
  pose proof (choose_content_some cid cname w1) as Hc.
  assert (Q02 : quiet w (final (DeliveryAutomator.choose_content cid cname w1)))
    by exact (quiet_trans _ _ _ Q01 Q2).
  destruct (DeliveryAutomator.choose_content cid cname w1) as [[[c|]|e] w2];
    try (run_simpl; discriminate).
  intros Hv. specialize (Hc c eq_refl).
  assert (Hl : content_library w1 = content_library w) by (destruct Q01; tauto).
  rewrite Hl in Hc.
  exists payment, c, (DeliveryAutomator.display_name
                        (find (fun u => (u_user_id u =? user_id payment)%Z) (users w0))
                        (user_id payment)), w2.
  split; [exact Q02|]. repeat split; auto.
Qed.

(** A call that reported success, in full. *)
Lemma process_delivery_true pid cid cname w :
  value (DeliveryAutomator.process_delivery pid cid cname w) = Ok true ->
  exists payment content notes,
    find (fun p => (payment_id p =? pid)%string) (payments w) = Some payment /\
    status payment = "completed" /\
    ((exists k, cid = Some k /\ Text.truthy cid = true /\
                find (fun r => (content_id r =? k)%string) (content_library w)
                = Some content) \/
     (Text.truthy cid = false /\
      exists n m, cname = Some n /\ Text.truthy cname = true /\
                  Matcher.best_match_in n
                    (ContentManager.listing 1000 (content_library w)) = Some m /\
                  find (fun r => (content_id r =? id m)%string) (content_library w)
                  = Some content)) /\
    (notes = [] \/ exists who, notes = [AdminNotified (content_name content) who pid]) /\
    effect w
      (notes ++ [Linked pid (content_id content);
                 transmission_of (user_id payment) (file_type content)
                                 (content_name content);
                 Downloaded (google_drive_file_id content)])
      (deliver_rows pid (content_id content) (payments w))
      (final (DeliveryAutomator.process_delivery pid cid cname w)).
Proof.
  unfold DeliveryAutomator.process_delivery. rewrite run_bind.
  pose proof (QuietFacts.ensure_initialized_quiet w) as Q.
  destruct (DeliveryAutomator.ensure_initialized w) as [[[]|e] w0];
    [|run_simpl; discriminate].
  unfold final in Q. cbn [snd] in Q. rewrite run_try.
  pose proof (deliver_true pid cid cname w0) as Hd.
  destruct (DeliveryAutomator.deliver pid cid cname w0) as [[b|e] wd] eqn:Ed;
    [|run_simpl; discriminate].
  unfold value at 1. cbn [fst]. intros [= ->].
  destruct (Hd eq_refl) as (payment & content & who & w1 & Q1 & F & Hst & Hch & Heq).
  pose proof (send_and_record_true pid payment who content w1) as Hs.
  rewrite <- Heq in Hs. destruct (Hs eq_refl) as (notes & Hn & E).
  destruct Q as (Hp & Hl & Hrest). rewrite Hp in F. rewrite Hl in Hch.
  exists payment, content, notes.
  split; [exact F|]. split; [exact Hst|]. split; [exact Hch|].
  split; [destruct Hn as [->| ->]; eauto|].
  assert (Qw : quiet w w1).
  { eapply quiet_trans; [|exact Q1]. unfold quiet. tauto. }
  pose proof (quiet_then_effect _ _ _ _ _ Qw E) as E'.
  assert (Hp1 : payments w1 = payments w) by (destruct Qw; tauto).
  rewrite Hp1 in E'. unfold final. cbn [snd]. exact E'.
Qed.

(** A call for a payment that is missing or not completed is quiet and
    does not report success. *)
Lemma process_delivery_rejected pid cid cname w :
  (find (fun p => (payment_id p =? pid)%string) (payments w) = None \/
   exists p, find (fun p => (payment_id p =? pid)%string) (payments w) = Some p /\
             status p <> "completed") ->
  quiet w (final (DeliveryAutomator.process_delivery pid cid cname w)) /\
  value (DeliveryAutomator.process_delivery pid cid cname w) <> Ok true.
Proof.
  intros V. split.
  - unfold DeliveryAutomator.process_delivery. rewrite run_bind.
    pose proof (QuietFacts.ensure_initialized_quiet w) as Q.
    destruct (DeliveryAutomator.ensure_initialized w) as [[[]|e] w0]; [|exact Q].
    unfold final in Q. cbn [snd] in Q. rewrite run_try.
    destruct (deliver_run pid cid cname w0)
      as [[Qd _]|(payment & content & who & w1 & _ & F & Hst & _)].
    + unfold final in *.
      destruct (DeliveryAutomator.deliver pid cid cname w0) as [[b'|e] wd];
        cbn [snd ret] in *; eapply quiet_trans; eauto.
    + exfalso. destruct Q as (Hp & _). rewrite Hp in F.
      destruct V as [V|(p' & V & Hn)]; [congruence|].
      rewrite V in F. injection F as ->. contradiction.
  - intros Ht. destruct (process_delivery_true _ _ _ _ Ht) as (p & _ & _ & F & Hst & _).
    destruct V as [V|(p' & V & Hn)]; [congruence|].
    rewrite V in F. injection F as ->. contradiction.
Qed.

(** The [try] block either ends quietly without success, or reaches the
    tail with a row chosen by identifier or by name. *)
Lemma deliver_cases pid cid cname w :
  (quiet w (final (DeliveryAutomator.deliver pid cid cname w)) /\
   value (DeliveryAutomator.deliver pid cid cname w) <> Ok true) \/
  (exists payment content who w1,
     quiet w w1 /\
     ((exists k, cid = Some k /\ Text.truthy cid = true /\
                 find (fun r => (content_id r =? k)%string) (content_library w)
                 = Some content) \/
      (Text.truthy cid = false /\
       exists n m, cname = Some n /\ Text.truthy cname = true /\
                   Matcher.best_match_in n
                     (ContentManager.listing 1000 (content_library w)) = Some m /\
                   find (fun r => (content_id r =? id m)%string) (content_library w)
                   = Some content)) /\
     DeliveryAutomator.deliver pid cid cname w
     = DeliveryAutomator.send_and_record pid payment who content w1).
Proof.
  unfold DeliveryAutomator.deliver.
  rewrite run_bind, get_payment_details_run.
  pose proof (quiet_with_faults (tl (faults w)) w) as Q0.
  destruct (hd false (faults w)); [left; run_simpl; split; [exact Q0|discriminate]|].
  destruct (find _ (payments w)) as [payment|] eqn:F;
    [|left; run_simpl; split; [exact Q0|discriminate]].
  destruct (String.eqb_spec (status payment) "completed") as [Hst|Hst];
    cbn [negb]; [|left; run_simpl; split; [exact Q0|discriminate]].
  set (w0 := with_faults (tl (faults w)) w) in *.
  rewrite run_bind, get_user_info_run.
  pose proof (quiet_with_faults (tl (faults w0)) w0) as Q1.
  assert (Q01 : quiet w (with_faults (tl (faults w0)) w0))
    by exact (quiet_trans _ _ _ Q0 Q1).
  destruct (hd false (faults w0)); [left; run_simpl; split; [exact Q01|discriminate]|].
  set (w1 := with_faults (tl (faults w0)) w0) in *.
  rewrite run_bind.
  destruct (choose_content_run cid cname w1) as [Q2 _].
  pose proof (choose_content_some cid cname w1) as Hc.
  assert (Q02 : quiet w (final (DeliveryAutomator.choose_content cid cname w1)))
    by exact (quiet_trans _ _ _ Q01 Q2).
  destruct (DeliveryAutomator.choose_content cid cname w1) as [[[c|]|e] w2];
    try (left; run_simpl; split; [exact Q02|discriminate]).
  right. specialize (Hc c eq_refl).
  assert (Hl : content_library w1 = content_library w) by (destruct Q01; tauto).
  rewrite Hl in Hc.
  exists payment, c, (DeliveryAutomator.display_name
                        (find (fun u => (u_user_id u =? user_id payment)%Z) (users w0))
                        (user_id payment)), w2.
  split; [exact Q02|]. split; [exact Hc|reflexivity].
Qed.

Lemma deliver_rows_ids pid cid ps :
  map payment_id (deliver_rows pid cid ps) = map payment_id ps.
Proof.
  unfold deliver_rows. rewrite map_map. apply map_ext.
  intros p. destruct (payment_id p =? pid)%string; reflexivity.
Qed.

Lemma find_deliver_rows pid cid ps :
  find (fun p => (payment_id p =? pid)%string) (deliver_rows pid cid ps)
  = option_map (Database.deliver_row cid)
      (find (fun p => (payment_id p =? pid)%string) ps).
Proof.
  unfold deliver_rows. induction ps as [|p ps IH]; [reflexivity|].
  cbn [map find]. destruct (payment_id p =? pid)%string eqn:E.
  - cbn [Database.deliver_row payment_id]. rewrite E. reflexivity.
  - rewrite E. exact IH.
Qed.

Lemma deliver_rows_not_queued pid cid ps : ~ queued (deliver_rows pid cid ps) pid.
Proof.
  intros (p & Hin & Hid & Hp). unfold deliver_rows in Hin.
  apply in_map_iff in Hin. destruct Hin as (p0 & <- & _).
  destruct (String.eqb_spec (payment_id p0) pid) as [E|NE].
  - discriminate Hp.
  - contradiction.
Qed.

(** X3.  A call of [process_delivery] that returns [True] found the
    payment completed, chose a catalogue row (the first row with the given
    identifier, or else the first row whose identifier is that of the
    matcher's choice for the given name), downloaded that row's file,
    sent it to the user of the payment (by the video call exactly when the
    file type is "video" up to case), wrote that row's identifier back on
    the payment and at most told the operator; nothing else was added to
    the trace and no other row was touched. *)
Theorem successful_delivery_reaches_the_payer
    (w : World) (pid : string) (cid cname : option string) :
  value (DeliveryAutomator.process_delivery pid cid cname w) = Ok true ->
  exists payment content notes,
    find (fun p => (payment_id p =? pid)%string) (payments w) = Some payment /\
    status payment = "completed" /\
    ((exists k, cid = Some k /\ Text.truthy cid = true /\
                find (fun r => (content_id r =? k)%string) (content_library w)
                = Some content) \/
     (Text.truthy cid = false /\
      exists n m, cname = Some n /\ Text.truthy cname = true /\
                  Matcher.best_match_in n
                    (ContentManager.listing 1000 (content_library w)) = Some m /\
                  find (fun r => (content_id r =? id m)%string) (content_library w)
                  = Some content)) /\
    (notes = [] \/ exists who, notes = [AdminNotified (content_name content) who pid]) /\
    trace (final (DeliveryAutomator.process_delivery pid cid cname w))
    = notes ++ [Linked pid (content_id content);
                transmission_of (user_id payment) (file_type content)
                                (content_name content);
                Downloaded (google_drive_file_id content)] ++ trace w /\
    payments (final (DeliveryAutomator.process_delivery pid cid cname w))
    = deliver_rows pid (content_id content) (payments w) /\
    content_library (final (DeliveryAutomator.process_delivery pid cid cname w))
    = content_library w.
Proof.
  intros Ht.
  destruct (process_delivery_true _ _ _ _ Ht)
    as (payment & content & notes & F & Hst & Hch & Hn & E).
  exists payment, content, notes.
  split; [exact F|]. split; [exact Hst|]. split; [exact Hch|]. split; [exact Hn|].
  split; [rewrite (effect_trace _ _ _ _ E), <- app_assoc; reflexivity|].
  split; [exact (effect_payments _ _ _ _ E)|].
  destruct (effect_keeps_catalog _ _ _ _ E) as (Hl & _). exact Hl.
Qed.

Lemma successful_delivery_reaches_the_payer_witness :
  value (DeliveryAutomator.process_delivery "p1" (Some "a1") None
           (Sample.world [Sample.paid "p1" 5] [Sample.movie_a] [])) = Ok true /\
  exists payment content notes,
    status payment = "completed" /\
    trace (final (DeliveryAutomator.process_delivery "p1" (Some "a1") None
                    (Sample.world [Sample.paid "p1" 5] [Sample.movie_a] [])))
    = notes ++ [Linked "p1" (content_id content);
                transmission_of (user_id payment) (file_type content)
                                (content_name content);
                Downloaded (google_drive_file_id content)] ++ [].
Proof.
  assert (H : value (DeliveryAutomator.process_delivery "p1" (Some "a1") None
                (Sample.world [Sample.paid "p1" 5] [Sample.movie_a] [])) = Ok true)
    by (vm_compute; reflexivity).
  split; [exact H|].
  destruct (successful_delivery_reaches_the_payer _ _ _ _ H)
    as (payment & content & notes & _ & Hst & _ & _ & Ht & _).
  exists payment, content, notes. split; [exact Hst|exact Ht].
Defined.

(** X4.  Once [process_delivery] has returned [True] for a payment, no row
    of that payment awaits delivery any more, and every later call for
    it, on any world with the ledger so left and with any arguments, is
    turned down: it does not return [True] and changes neither the ledger
    nor the trace (nothing is downloaded, sent or written again). *)
Theorem repeated_delivery_is_rejected
    (w : World) (pid : string) (cid cname : option string) :
  value (DeliveryAutomator.process_delivery pid cid cname w) = Ok true ->
  ~ queued (payments (final (DeliveryAutomator.process_delivery pid cid cname w))) pid /\
  forall w2 cid2 cname2,
    payments w2 = payments (final (DeliveryAutomator.process_delivery pid cid cname w)) ->
    value (DeliveryAutomator.process_delivery pid cid2 cname2 w2) <> Ok true /\
    payments (final (DeliveryAutomator.process_delivery pid cid2 cname2 w2)) = payments w2 /\
    trace (final (DeliveryAutomator.process_delivery pid cid2 cname2 w2)) = trace w2.
Proof.
  intros Ht.
  destruct (process_delivery_true _ _ _ _ Ht)
    as (payment & content & notes & F & Hst & _ & _ & E).
  rewrite (effect_payments _ _ _ _ E).
  split; [apply deliver_rows_not_queued|].
  intros w2 cid2 cname2 Hp.
  destruct (process_delivery_rejected pid cid2 cname2 w2) as [Q Hv].
  { right. exists (Database.deliver_row (content_id content) payment).
    rewrite Hp, find_deliver_rows, F. split; [reflexivity|discriminate]. }
  split; [exact Hv|]. destruct Q as (Hq & _ & _ & Htr & _). auto.
Qed.

Lemma repeated_delivery_is_rejected_witness :
  value (DeliveryAutomator.process_delivery "p1" (Some "a1") None
           (Sample.world [Sample.paid "p1" 5] [Sample.movie_a] [])) = Ok true /\
  value (DeliveryAutomator.process_delivery "p1" (Some "a1") None
           (final (DeliveryAutomator.process_delivery "p1" (Some "a1") None
                     (Sample.world [Sample.paid "p1" 5] [Sample.movie_a] []))))
  <> Ok true.
Proof.
  assert (H : value (DeliveryAutomator.process_delivery "p1" (Some "a1") None
                (Sample.world [Sample.paid "p1" 5] [Sample.movie_a] [])) = Ok true)
    by (vm_compute; reflexivity).
  split; [exact H|].
  destruct (repeated_delivery_is_rejected _ _ _ _ H) as [_ Hr].
  exact (proj1 (Hr _ (Some "a1") None eq_refl)).
Defined.

(** X5.  Without a usable selection, that is with no [content_id] and
    either no [content_name] or a name for which the matcher finds
    nothing in the catalogue, [process_delivery] does not return [True]
    and changes neither the ledger nor the trace. *)
Theorem delivery_needs_a_selection
    (w : World) (pid : string) (cid cname : option string) :
  Text.truthy cid = false ->
  (Text.truthy cname = false \/
   exists n, cname = Some n /\
             Matcher.best_match_in n (ContentManager.listing 1000 (content_library w))
             = None) ->
  value (DeliveryAutomator.process_delivery pid cid cname w) <> Ok true /\
  payments (final (DeliveryAutomator.process_delivery pid cid cname w)) = payments w /\
  trace (final (DeliveryAutomator.process_delivery pid cid cname w)) = trace w.
Proof.
  intros Hc Hn.
  assert (Hq : quiet w (final (DeliveryAutomator.process_delivery pid cid cname w)) /\
               value (DeliveryAutomator.process_delivery pid cid cname w) <> Ok true).
  { unfold DeliveryAutomator.process_delivery. rewrite run_bind.
    pose proof (QuietFacts.ensure_initialized_quiet w) as Q.
    destruct (DeliveryAutomator.ensure_initialized w) as [[[]|e] w0];
      [|split; [exact Q|run_simpl; discriminate]].
    unfold final in Q. cbn [snd] in Q. rewrite run_try.
    destruct (deliver_cases pid cid cname w0)
      as [[Qd Hv]|(payment & content & who & w1 & _ & Hch & _)].
    - unfold final, value in *.
      destruct (DeliveryAutomator.deliver pid cid cname w0) as [[b|e] wd];
        cbn [fst snd ret] in *.
      + split; [eapply quiet_trans; eauto|exact Hv].
      + split; [eapply quiet_trans; eauto|discriminate].
    - exfalso. destruct Q as (_ & Hl & _). rewrite Hl in Hch.
      destruct Hch as [(k & _ & Ht & _)|(_ & n & m & Hsome & Ht & Hb & _)];
        [congruence|].
      destruct Hn as [Hf|(n' & Hsome' & Hnone)]; [congruence|].
      rewrite Hsome in Hsome'. injection Hsome' as <-. congruence. }
  destruct Hq as [(Hp & _ & _ & Ht & _) Hv]. auto.
Qed.

Lemma delivery_needs_a_selection_witness :
  Text.truthy None = false /\
  value (DeliveryAutomator.process_delivery "p1" None (Some "zebra")
           (Sample.world [Sample.paid "p1" 5] [Sample.movie_a] [])) <> Ok true.
Proof.
  split; [reflexivity|].
  refine (proj1 (delivery_needs_a_selection
                   (Sample.world [Sample.paid "p1" 5] [Sample.movie_a] [])
                   "p1" None (Some "zebra") eq_refl _)).
  right. exists "zebra". split; [reflexivity|vm_compute; reflexivity].
Defined.

End DeliveryMore.

(** ** What a batch does to the queue *)

Module BatchMore.
Import RunFacts DeliveryFacts BatchFacts DeliveryMore.

Lemma linked_app evs2 evs1 : linked (evs2 ++ evs1) = linked evs1 ++ linked evs2.
Proof. unfold linked. rewrite flat_map_app, rev_app_distr. reflexivity. Qed.

Lemma linked_notes notes pid :
  (notes = [] \/ exists t u, notes = [AdminNotified t u pid]) -> linked notes = [].
Proof. intros [->|(t & u & ->)]; reflexivity. Qed.

(** The write-backs and the ledger after one call of [process_delivery]. *)
Lemma outcome_linked w pid evs b ps :
  delivery_outcome w pid evs b ps ->
  (b = true /\ linked evs = [pid] /\
   exists cid, ps = deliver_rows pid cid (payments w)) \/
  (b = false /\ linked evs = [] /\ ps = payments w).
Proof.
  intros O. destruct O as [|d|d sent Hs|d sent c notes Hs Hc Hn].
  - right. auto.
  - right. auto.
  - right. repeat split. destruct sent; try discriminate; reflexivity.
  - left. split; [reflexivity|]. split; [|exists c; reflexivity].
    rewrite linked_app, (linked_notes _ _ Hn), app_nil_r.
    destruct sent; try discriminate; reflexivity.
Qed.

(** One turn of the batch loop, with what it does to the ledger. *)
Lemma process_one_ledger delivery s e w :
  initialized w = true ->
  exists s' e' evs w',
    ContinuousDelivery.process_one delivery (s, e) w = (Ok (s', e'), w') /\
    initialized w' = true /\
    trace w' = evs ++ trace w /\
    ((s' = S s /\ e' = e /\ linked evs = [d_payment_id delivery] /\
      exists cid, payments w' = deliver_rows (d_payment_id delivery) cid (payments w)) \/
     (s' = s /\ e' = S e /\ linked evs = [] /\ payments w' = payments w)).
Proof.
  intros Hi. unfold ContinuousDelivery.process_one.
  rewrite run_bind. unfold emit at 1, modify at 1.
  set (w0 := with_trace _ w).
  assert (Hi0 : initialized w0 = true) by exact Hi.
  rewrite run_bind.
  pose proof (QuietFacts.determine_content_quiet (d_user_id delivery)
                (d_payment_id delivery) "recent" w0) as Q.
  destruct (determine_total (d_user_id delivery) (d_payment_id delivery) "recent" w0)
    as [c Hc].
  destruct (DeliveryAutomator._determine_content_to_deliver _ _ _ w0) as [r w1].
  run_simpl. subst r.
  destruct Q as (Qp & Ql & Qu & Qt & Qpc & Qec & Qi & Qcm).
  destruct c as [content|].
  - rewrite run_bind.
    destruct (process_delivery_spec (d_payment_id delivery) (Some (id content)) None w1)
      as (evs & b & ps & E & O & Hv).
    pose proof (effect_trace _ _ _ _ E) as Ht.
    pose proof (effect_payments _ _ _ _ E) as Hp.
    destruct (effect_keeps_catalog _ _ _ _ E) as (_ & _ & Hi2 & _).
    destruct (DeliveryAutomator.process_delivery _ _ _ w1) as [r w2].
    run_simpl.
    destruct Hv as [->|(Hf & _)]; [|rewrite (Qi Hi0) in Hf; discriminate].
    destruct (outcome_linked _ _ _ _ _ O) as [(-> & Hl & cid & Hps)|(-> & Hl & Hps)];
      cbn [ret].
    + exists (S s), e, (evs ++ [LogProcessing (d_payment_id delivery) (d_user_id delivery)]),
        (with_processed_count (S (processed_count w2)) w2).
      split; [reflexivity|]. cbn [initialized trace payments with_processed_count].
      split; [auto|]. split; [rewrite Ht, Qt, <- app_assoc; reflexivity|].
      left. repeat split.
      * rewrite linked_app, Hl. reflexivity.
      * exists cid. rewrite Hp, Hps, Qp. reflexivity.
    + exists s, (S e), (evs ++ [LogProcessing (d_payment_id delivery) (d_user_id delivery)]),
        (with_error_count (S (error_count w2)) w2).
      split; [reflexivity|]. cbn [initialized trace payments with_error_count].
      split; [auto|]. split; [rewrite Ht, Qt, <- app_assoc; reflexivity|].
      right. repeat split.
      * rewrite linked_app, Hl. reflexivity.
      * rewrite Hp, Hps, Qp. reflexivity.
  - exists s, (S e), [LogProcessing (d_payment_id delivery) (d_user_id delivery)],
      (with_error_count (S (error_count w1)) w1).
    split; [reflexivity|]. cbn [initialized trace payments with_error_count].
    split; [auto|]. split; [rewrite Qt; reflexivity|].
    right. repeat split; auto.
Qed.

Lemma pending_length ps :
  List.length (Database.pending_rows ps)
  = List.length (filter Database.is_pending_delivery ps).
Proof.
  apply Permutation_length. apply (proj1 (OrderFacts.pending_rows_spec ps)).
Qed.

Lemma deliver_rows_absent pid cid ps :
  ~ In pid (map payment_id ps) -> deliver_rows pid cid ps = ps.
Proof.
  unfold deliver_rows. induction ps as [|p ps IH]; [reflexivity|].
  cbn [map In]. intros H.
  destruct (String.eqb_spec (payment_id p) pid) as [E|_]; [exfalso; auto|].
  rewrite IH; [reflexivity|auto].
Qed.

(** With one row per payment, delivering a queued payment takes exactly
    one row out of the queue. *)
Lemma deliver_rows_shrinks pid cid ps :
  NoDup (map payment_id ps) ->
  queued ps pid ->
  (List.length (filter Database.is_pending_delivery (deliver_rows pid cid ps)) + 1
   = List.length (filter Database.is_pending_delivery ps))%nat.
Proof.
  induction ps as [|p ps IH]; intros Hnd (q & Hin & Hid & Hq).
  - destruct Hin.
  - cbn [map] in Hnd. apply NoDup_cons_iff in Hnd. destruct Hnd as [Hnotin Hnd'].
    unfold deliver_rows. cbn [map]. fold (deliver_rows pid cid ps).
    destruct (String.eqb_spec (payment_id p) pid) as [E|NE].
    + rewrite deliver_rows_absent by (rewrite <- E; exact Hnotin).
      assert (q = p).
      { destruct Hin as [->|Hin]; [reflexivity|].
        exfalso. apply Hnotin. rewrite E, <- Hid. apply in_map. exact Hin. }
      subst q. cbn [filter]. rewrite Hq.
      cbn [Database.is_pending_delivery Database.deliver_row status String.eqb].
      cbn. lia.
    + destruct Hin as [->|Hin]; [contradiction|].
      cbn [filter]. assert (Hqd : queued ps pid) by (exists q; auto).
      specialize (IH Hnd' Hqd).
      destruct (Database.is_pending_delivery p); cbn [List.length]; lia.
Qed.

Lemma deliver_rows_keeps_queued pid cid ps pid' :
  pid' <> pid -> queued ps pid' -> queued (deliver_rows pid cid ps) pid'.
Proof.
  intros Hne (q & Hin & Hid & Hq). exists q. split; [|auto].
  unfold deliver_rows. apply in_map_iff. exists q. split; [|exact Hin].
  destruct (String.eqb_spec (payment_id q) pid) as [E|_]; [congruence|reflexivity].
Qed.

Lemma deliver_rows_pending_were pid cid ps p :
  In p (deliver_rows pid cid ps) ->
  Database.is_pending_delivery p = true -> In p ps.
Proof.
  unfold deliver_rows. intros Hin Hp. apply in_map_iff in Hin.
  destruct Hin as (p0 & <- & Hin0).
  destruct (payment_id p0 =? pid)%string; [discriminate Hp|exact Hin0].
Qed.

(** The loop over pending payments that are all queued, one row per
    payment: write-backs are distinct and as many as the successes, and
    the queue loses exactly the delivered rows. *)
Lemma process_each_ledger pending :
  forall s e w,
    initialized w = true ->
    NoDup (map payment_id (payments w)) ->
    NoDup (map d_payment_id pending) ->
    (forall d, In d pending -> queued (payments w) (d_payment_id d)) ->
    exists s' e' evs w',
      ContinuousDelivery.process_each pending (s, e) w = (Ok (s', e'), w') /\
      trace w' = evs ++ trace w /\
      (s <= s')%nat /\
      List.length (linked evs) = (s' - s)%nat /\
      NoDup (linked evs) /\
      incl (linked evs) (map d_payment_id pending) /\
      (List.length (filter Database.is_pending_delivery (payments w')) + (s' - s)
       = List.length (filter Database.is_pending_delivery (payments w)))%nat /\
      (forall p, In p (payments w') -> Database.is_pending_delivery p = true ->
                 In p (payments w)).
Proof.
  induction pending as [|d rest IH]; intros s e w Hi Hnd Hndp Hq;
    cbn [ContinuousDelivery.process_each].
  - exists s, e, [], w. unfold ret. cbn [linked flat_map rev List.length app].
    repeat split; auto; try lia; try constructor. intros x [].
  - rewrite run_bind.
    destruct (process_one_ledger d s e w Hi)
      as (s1 & e1 & evs1 & w1 & -> & Hi1 & Ht1 & Hcase).
    cbn [map] in Hndp. apply NoDup_cons_iff in Hndp. destruct Hndp as [Hnotin Hndp].
    assert (Hq1 : NoDup (map payment_id (payments w1)) /\
                  (forall d', In d' rest -> queued (payments w1) (d_payment_id d'))).
    { destruct Hcase as [(_ & _ & _ & cid & Hp)|(_ & _ & _ & Hp)]; rewrite Hp.
      - rewrite deliver_rows_ids. split; [exact Hnd|].
        intros d' Hd'. apply deliver_rows_keeps_queued; [|apply Hq; right; exact Hd'].
        intros E. apply Hnotin. rewrite <- E. apply in_map. exact Hd'.
      - split; [exact Hnd|]. intros d' Hd'. apply Hq. right. exact Hd'. }
    destruct Hq1 as [Hnd1 Hqr].
    destruct (IH s1 e1 w1 Hi1 Hnd1 Hndp Hqr)
      as (s2 & e2 & evs2 & w2 & -> & Ht2 & Hs2 & Hl2 & Hnl2 & Hinc2 & Hlen2 & Hpend2).
    exists s2, e2, (evs2 ++ evs1), w2.
    split; [reflexivity|].
    split; [rewrite Ht2, Ht1, app_assoc; reflexivity|].
    rewrite linked_app, length_app.
    destruct Hcase as [(-> & -> & Hl1 & cid & Hp)|(-> & -> & Hl1 & Hp)]; rewrite Hl1.
    + cbn [List.length app]. split; [lia|]. split; [lia|].
      split.
      { constructor; [|exact Hnl2]. intros Hin. apply Hnotin. apply Hinc2. exact Hin. }
      split.
      { intros x [<-|Hx]; [left; reflexivity|right; apply Hinc2; exact Hx]. }
      pose proof (deliver_rows_shrinks (d_payment_id d) cid (payments w) Hnd
                    (Hq d (or_introl eq_refl))) as Hsh.
      rewrite <- Hp in Hsh. split; [lia|].
      intros p Hin Hpd. specialize (Hpend2 p Hin Hpd). rewrite Hp in Hpend2.
      eapply deliver_rows_pending_were; eauto.
    + cbn [List.length app]. split; [lia|]. split; [lia|].
      split; [exact Hnl2|]. split.
      { intros x Hx. right. apply Hinc2. exact Hx. }
      rewrite Hp in Hlen2. split; [lia|].
      intros p Hin Hpd. specialize (Hpend2 p Hin Hpd). rewrite Hp in Hpend2. exact Hpend2.
Qed.

(** The pending list is the queue of the ledger, or empty when the query
    failed. *)
Lemma get_pending_deliveries_value w pending w1 :
  DeliveryAutomator.get_pending_deliveries w = (Ok pending, w1) ->
  pending = [] \/
  pending = map Database.delivery_of (Database.pending_rows (payments w)).
Proof.
  unfold DeliveryAutomator.get_pending_deliveries,
    DeliveryAutomator.ensure_initialized, DeliveryAutomator.initialize,
    ContentManager.initialize, Database.get_pending_payments_for_admin,
    try_except, bind, get_world, outside, modify, raise, ret.
  destruct (initialized w); cbn -[Database.pending_rows].
  - destruct (hd false (faults w)); cbn -[Database.pending_rows];
      intros [= <- _]; auto.
  - destruct (hd false (faults w)); cbn -[Database.pending_rows]; [discriminate|].
    destruct (hd false (tl (faults w))); cbn -[Database.pending_rows]; [discriminate|].
    destruct (hd false (tl (tl (faults w)))); cbn -[Database.pending_rows];
      intros [= <- _]; auto.
Qed.

Lemma NoDup_map_filter {A B} (f : A -> B) (g : A -> bool) (l : list A) :
  NoDup (map f l) -> NoDup (map f (filter g l)).
Proof.
  induction l as [|a l IH]; cbn [map filter]; [auto|].
  intros H. apply NoDup_cons_iff in H. destruct H as [Hnotin Hnd].
  destruct (g a); cbn [map]; [|auto].
  constructor; [|auto]. intros Hin. apply Hnotin.
  apply in_map_iff in Hin. destruct Hin as (x & <- & Hx).
  apply filter_In in Hx. apply in_map. tauto.
Qed.

(** The pending list names distinct payments, each with a queued row. *)
Lemma pending_list_is_queued w pending w1 :
  NoDup (map payment_id (payments w)) ->
  DeliveryAutomator.get_pending_deliveries w = (Ok pending, w1) ->
  NoDup (map d_payment_id pending) /\
  (forall d, In d pending -> queued (payments w) (d_payment_id d)).
Proof.
  intros Hnd H.
  destruct (get_pending_deliveries_value _ _ _ H) as [->| ->].
  - split; [constructor|intros d []].
  - destruct (OrderFacts.pending_rows_spec (payments w)) as (HP & Hin & _).
    split.
    + rewrite map_map. cbn [Database.delivery_of d_payment_id].
      eapply Permutation_NoDup;
        [apply Permutation_map; apply Permutation_sym; exact HP|].
      apply NoDup_map_filter. exact Hnd.
    + intros d Hd. apply in_map_iff in Hd. destruct Hd as (p & <- & Hp).
      exists p. apply Hin in Hp. destruct Hp as (Hp & Hs & Hc).
      split; [exact Hp|]. split; [reflexivity|].
      unfold Database.is_pending_delivery. rewrite Hs, Hc. reflexivity.
Qed.

(** X6.  With one row per payment in the ledger, a batch pass over a
    pending list that was read writes back distinct payments of that
    list, as many as it counts successes; the queue is afterwards shorter
    by exactly that number, and whatever is still queued was queued
    before, unchanged. *)
Theorem batch_delivers_each_payment_once
    (w w1 : World) (pending : list Delivery) :
  NoDup (map payment_id (payments w)) ->
  DeliveryAutomator.get_pending_deliveries w = (Ok pending, w1) ->
  exists s e evs,
    value (ContinuousDelivery.check_and_process_deliveries w) = Ok (s, e) /\
    trace (final (ContinuousDelivery.check_and_process_deliveries w)) = evs ++ trace w /\
    NoDup (linked evs) /\
    incl (linked evs) (map d_payment_id pending) /\
    List.length (linked evs) = s /\
    (List.length (Database.pending_rows
                    (payments (final (ContinuousDelivery.check_and_process_deliveries w))))
     + s
     = List.length (Database.pending_rows (payments w)))%nat /\
    (forall p,
       In p (Database.pending_rows
               (payments (final (ContinuousDelivery.check_and_process_deliveries w)))) ->
       In p (Database.pending_rows (payments w))).
Proof.
  intros Hnd H.
  destruct (get_pending_deliveries_ok _ _ _ H) as [Hi Q].
  destruct (pending_list_is_queued _ _ _ Hnd H) as [Hndp Hq].
  destruct Q as (Qp & _ & _ & Qt & _).
  rewrite <- Qp in Hnd, Hq.
  destruct (process_each_ledger pending 0 0 w1 Hi Hnd Hndp Hq)
    as (s & e & evs & w2 & Hrun & Ht & _ & Hl & Hnl & Hinc & Hlen & Hpend).
  assert (Hc : ContinuousDelivery.check_and_process_deliveries w = (Ok (s, e), w2)).
  { assert (Hb : ContinuousDelivery.batch_pass w = (Ok (s, e), w2)).
    { unfold ContinuousDelivery.batch_pass. rewrite run_bind, H.
      destruct pending; exact Hrun. }
    unfold ContinuousDelivery.check_and_process_deliveries.
    rewrite run_try, Hb. reflexivity. }
  exists s, e, evs. rewrite Hc. unfold value, final. cbn [fst snd].
  split; [reflexivity|]. split; [rewrite Ht, Qt; reflexivity|].
  split; [exact Hnl|]. split; [exact Hinc|]. split; [lia|].
  rewrite !pending_length. rewrite Qp in Hlen, Hpend. split; [lia|].
  intros p Hp.
  apply (proj1 (proj1 (proj2 (OrderFacts.pending_rows_spec (payments w2))) p)) in Hp.
  destruct Hp as (Hin & Hs & Hcn).
  apply (proj1 (proj2 (OrderFacts.pending_rows_spec (payments w)))).
  split; [|auto]. apply Hpend; [exact Hin|].
  unfold Database.is_pending_delivery. rewrite Hs, Hcn. reflexivity.
Qed.

Lemma batch_delivers_each_payment_once_witness :
  NoDup (map payment_id
           (payments (Sample.world [Sample.paid "p1" 5; Sample.paid "p2" 6]
                                   [Sample.movie_a]
                                   [false; false; false; false; false; true]))) /\
  exists s e evs,
    value (ContinuousDelivery.check_and_process_deliveries
             (Sample.world [Sample.paid "p1" 5; Sample.paid "p2" 6] [Sample.movie_a]
                           [false; false; false; false; false; true])) = Ok (s, e) /\
    List.length (linked evs) = s /\
    (List.length
       (Database.pending_rows
          (payments (final (ContinuousDelivery.check_and_process_deliveries
             (Sample.world [Sample.paid "p1" 5; Sample.paid "p2" 6] [Sample.movie_a]
                           [false; false; false; false; false; true])))))
     + s = 2)%nat.
Proof.
  assert (Hnd : NoDup (map payment_id
           (payments (Sample.world [Sample.paid "p1" 5; Sample.paid "p2" 6]
                                   [Sample.movie_a]
                                   [false; false; false; false; false; true])))).
  { cbn. constructor; [intros [H|[]]; discriminate H|].
    constructor; [intros []|constructor]. }
  split; [exact Hnd|].
  assert (H : DeliveryAutomator.get_pending_deliveries
                (Sample.world [Sample.paid "p1" 5; Sample.paid "p2" 6] [Sample.movie_a]
                              [false; false; false; false; false; true])
              = (Ok [Database.delivery_of (Sample.paid "p1" 5);
                     Database.delivery_of (Sample.paid "p2" 6)],
                 Sample.world [Sample.paid "p1" 5; Sample.paid "p2" 6] [Sample.movie_a]
                              [false; false; false; false; true]))
    by (vm_compute; reflexivity).
  destruct (batch_delivers_each_payment_once _ _ _ Hnd H)
    as (s & e & evs & Hv & _ & _ & _ & Hl & Hlen & _).
  exists s, e, evs. split; [exact Hv|]. split; [exact Hl|exact Hlen].
Defined.

End BatchMore.

(** ** The one-shot commands of the automator *)

Module AutomatorFacts.
Import RunFacts DeliveryFacts BatchFacts DeliveryMore BatchMore.

Lemma settled_deliver_rows ps pid pid' cid :
  settled ps pid -> settled (deliver_rows pid' cid ps) pid.
Proof.
  intros H p Hin Hid. unfold deliver_rows in Hin. apply in_map_iff in Hin.
  destruct Hin as (p0 & <- & Hin0).
  destruct (payment_id p0 =? pid')%string.
  - split; [reflexivity|discriminate].
  - apply H; assumption.
Qed.

Lemma deliver_rows_settles ps pid cid : settled (deliver_rows pid cid ps) pid.
Proof.
  intros p Hin Hid. unfold deliver_rows in Hin. apply in_map_iff in Hin.
  destruct Hin as (p0 & <- & Hin0).
  destruct (String.eqb_spec (payment_id p0) pid) as [E|NE].
  - split; [reflexivity|discriminate].
  - contradiction.
Qed.

(** One turn of the loop of [process_all_pending]. *)
Lemma record_one_run strategy delivery s e rows w :
  initialized w = true ->
  exists s' e' row w',
    Automator.record_one strategy delivery (s, e, rows) w
    = (Ok (s', e', rows ++ [row]), w') /\
    initialized w' = true /\
    row_payment_id row = d_payment_id delivery /\
    ((s' = S s /\ e' = e /\ is_success_row row = true /\
      exists c n, row = RowSuccess (d_payment_id delivery) (d_user_id delivery) c n /\
                  payments w' = deliver_rows (d_payment_id delivery) c (payments w)) \/
     (s' = s /\ e' = S e /\ is_success_row row = false /\ payments w' = payments w)).
Proof.
  intros Hi. unfold Automator.record_one. rewrite run_bind.
  pose proof (QuietFacts.determine_content_quiet (d_user_id delivery)
                (d_payment_id delivery) strategy w) as Q.
  destruct (determine_total (d_user_id delivery) (d_payment_id delivery) strategy w)
    as [c Hc].
  destruct (DeliveryAutomator._determine_content_to_deliver _ _ _ w) as [r w1].
  run_simpl. subst r.
  destruct Q as (Qp & Ql & Qu & Qt & Qpc & Qec & Qi & Qcm).
  destruct c as [content|].
  - rewrite run_bind.
    destruct (process_delivery_spec (d_payment_id delivery) (Some (id content)) None w1)
      as (evs & b & ps & E & O & Hv).
    pose proof (process_delivery_true (d_payment_id delivery) (Some (id content)) None w1)
      as Htrue.
    pose proof (effect_payments _ _ _ _ E) as Hp.
    destruct (effect_keeps_catalog _ _ _ _ E) as (_ & _ & Hi2 & _).
    destruct (DeliveryAutomator.process_delivery _ _ _ w1) as [r w2].
    run_simpl.
    destruct Hv as [->|(Hf & _)]; [|rewrite (Qi Hi) in Hf; discriminate].
    destruct b; cbn [ret].
    + destruct (Htrue eq_refl) as (payment & crow & notes & _ & _ & Hch & _ & E2).
      pose proof (effect_payments _ _ _ _ E2) as Hp2.
      assert (Hid : content_id crow = id content).
      { destruct Hch as [(k & [= <-] & _ & F)|(Hfalse & n & m & [=] & _)].
        apply find_content_some in F. tauto. }
      eexists (S s), e, _, w2. split; [reflexivity|].
      split; [auto|]. split; [reflexivity|]. left.
      repeat split. eexists _, _. split; [reflexivity|].
      rewrite Hp2, Hid, Qp. reflexivity.
    + destruct (outcome_linked _ _ _ _ _ O) as [([=] & _)|(_ & _ & Hps)].
      eexists s, (S e), _, w2. split; [reflexivity|].
      split; [auto|]. split; [reflexivity|]. right.
      repeat split. rewrite Hp, Hps, Qp. reflexivity.
  - eexists s, (S e), _, w1. split; [reflexivity|].
    split; [auto|]. split; [reflexivity|]. right. repeat split. exact Qp.
Qed.

Lemma record_one_any_strategy strategy delivery acc :
  Automator.record_one strategy delivery acc
  = Automator.record_one "recent" delivery acc.
Proof. reflexivity. Qed.

Lemma record_each_any_strategy strategy pending :
  forall acc w,
    Automator.record_each strategy pending acc w
    = Automator.record_each "recent" pending acc w.
Proof.
  induction pending as [|d rest IH]; intros acc w; cbn [Automator.record_each];
    [reflexivity|].
  rewrite !run_bind, (record_one_any_strategy strategy).
  destruct (Automator.record_one "recent" d acc w) as [[acc'|e] w'];
    [apply IH|reflexivity].
Qed.

(** The loop of [process_all_pending]. *)
Lemma record_each_run strategy pending :
  forall s e rows w,
    initialized w = true ->
    exists s' e' rows' w',
      Automator.record_each strategy pending (s, e, rows) w
      = (Ok (s', e', rows ++ rows'), w') /\
      map row_payment_id rows' = map d_payment_id pending /\
      s' = (s + List.length (filter is_success_row rows'))%nat /\
      (s' + e' = s + e + List.length pending)%nat /\
      (forall r, In r rows' -> is_success_row r = true ->
                 settled (payments w') (row_payment_id r)) /\
      (forall pid, settled (payments w) pid -> settled (payments w') pid).
Proof.
  induction pending as [|d rest IH]; intros s e rows w Hi;
    cbn [Automator.record_each].
  - exists s, e, [], w. unfold ret. rewrite app_nil_r.
    cbn [map filter List.length].
    split; [reflexivity|]. split; [reflexivity|]. split; [lia|]. split; [lia|].
    split; [intros r []|auto].
  - rewrite run_bind.
    destruct (record_one_run strategy d s e rows w Hi)
      as (s1 & e1 & row & w1 & -> & Hi1 & Hrid & Hcase).
    destruct (IH s1 e1 (rows ++ [row]) w1 Hi1)
      as (s2 & e2 & rows2 & w2 & -> & Hids & Hs2 & Hsum & Hset & Hkeep).
    exists s2, e2, (row :: rows2), w2.
    split; [rewrite <- app_assoc; reflexivity|].
    split; [cbn [map]; rewrite Hrid, Hids; reflexivity|].
    cbn [filter List.length].
    destruct Hcase as [(-> & -> & Hrow & c & n & -> & Hp)|(-> & -> & Hrow & Hp)];
      rewrite Hrow; cbn [List.length].
    + split; [lia|]. split; [lia|]. split.
      * intros r [<-|Hr] Hsr; [|apply Hset; assumption].
        apply Hkeep. rewrite Hp. apply deliver_rows_settles.
      * intros pid Hs. apply Hkeep. rewrite Hp. apply settled_deliver_rows. exact Hs.
    + split; [lia|]. split; [lia|]. split.
      * intros r [<-|Hr] Hsr; [congruence|apply Hset; assumption].
      * intros pid Hs. apply Hkeep. rewrite Hp. exact Hs.
Qed.

(** X7.  [process_all_pending], started initialised on a pending list
    that was read: with nothing pending it reports nothing; otherwise it
    gathers one row per pending payment, in order, counts the success
    rows and the error rows, and every payment with a success row is
    marked delivered, with a content reference, in the ledger it leaves.
    The strategy name makes no difference. *)
Theorem process_all_pending_reports_each_payment
    (strategy : string) (w w1 : World) (pending : list Delivery) :
  initialized w = true ->
  DeliveryAutomator.get_pending_deliveries w = (Ok pending, w1) ->
  (pending = [] -> value (Automator.process_all_pending strategy w) = Ok None) /\
  (pending <> [] ->
   exists s e rows,
     value (Automator.process_all_pending strategy w) = Ok (Some (s, e, rows)) /\
     map row_payment_id rows = map d_payment_id pending /\
     s = List.length (filter is_success_row rows) /\
     (s + e = List.length pending)%nat /\
     (forall r, In r rows -> is_success_row r = true ->
        settled (payments (final (Automator.process_all_pending strategy w)))
                (row_payment_id r))) /\
  Automator.process_all_pending strategy w = Automator.process_all_pending "recent" w.
Proof.
  intros Hi H.
  destruct (get_pending_deliveries_ok _ _ _ H) as [Hi1 _].
  assert (Hrun : Automator.process_all_pending strategy w
                 = match pending with
                   | [] => (Ok None, w1)
                   | _ => bind (Automator.record_each strategy pending (0, 0, [])%nat)
                               (fun r => ret (Some r)) w1
                   end).
  { unfold Automator.process_all_pending, DeliveryAutomator.ensure_initialized.
    rewrite run_bind. unfold bind at 1, get_world at 1. rewrite Hi.
    cbn [ret]. rewrite run_bind, H. destruct pending; reflexivity. }
  assert (Hrun2 : Automator.process_all_pending "recent" w
                 = match pending with
                   | [] => (Ok None, w1)
                   | _ => bind (Automator.record_each "recent" pending (0, 0, [])%nat)
                               (fun r => ret (Some r)) w1
                   end).
  { unfold Automator.process_all_pending, DeliveryAutomator.ensure_initialized.
    rewrite run_bind. unfold bind at 1, get_world at 1. rewrite Hi.
    cbn [ret]. rewrite run_bind, H. destruct pending; reflexivity. }
  split; [intros ->; rewrite Hrun; reflexivity|]. split.
  - intros Hne.
    destruct (record_each_run strategy pending 0 0 [] w1 Hi1)
      as (s & e & rows & w2 & Hr & Hids & Hs & Hsum & Hset & _).
    exists s, e, rows. rewrite Hrun.
    destruct pending as [|d rest]; [contradiction|].
    rewrite run_bind, Hr. unfold value, final. cbn [fst snd ret app].
    split; [reflexivity|]. split; [exact Hids|]. split; [exact Hs|].
    split; [exact Hsum|exact Hset].
  - rewrite Hrun, Hrun2. destruct pending; [reflexivity|].
    rewrite !run_bind, record_each_any_strategy. reflexivity.
Qed.

Lemma process_all_pending_reports_each_payment_witness :
  initialized (Sample.world [Sample.paid "p1" 5; Sample.paid "p2" 6] [Sample.movie_a]
                            [false; false; false; false; false; true]) = true /\
  exists s e rows,
    value (Automator.process_all_pending "keyword"
             (Sample.world [Sample.paid "p1" 5; Sample.paid "p2" 6] [Sample.movie_a]
                           [false; false; false; false; false; true]))
    = Ok (Some (s, e, rows)) /\
    map row_payment_id rows = ["p1"; "p2"].
Proof.
  split; [reflexivity|].
  assert (H : DeliveryAutomator.get_pending_deliveries
                (Sample.world [Sample.paid "p1" 5; Sample.paid "p2" 6] [Sample.movie_a]
                              [false; false; false; false; false; true])
              = (Ok [Database.delivery_of (Sample.paid "p1" 5);
                     Database.delivery_of (Sample.paid "p2" 6)],
                 Sample.world [Sample.paid "p1" 5; Sample.paid "p2" 6] [Sample.movie_a]
                              [false; false; false; false; true]))
    by (vm_compute; reflexivity).
  destruct (process_all_pending_reports_each_payment "keyword"
              (Sample.world [Sample.paid "p1" 5; Sample.paid "p2" 6] [Sample.movie_a]
                            [false; false; false; false; false; true])
              _ _ eq_refl H)
    as (_ & Hsome & _).
  destruct Hsome as (s & e & rows & Hv & Hids & _); [discriminate|].
  exists s, e, rows. split; [exact Hv|exact Hids].
Defined.

Lemma detail_of_run delivery w :
  Automator.detail_of delivery w
  = (if hd false (faults w) then Raise DatabaseError
     else Ok (detail_in (users w) delivery),
     with_faults (tl (faults w)) w).
Proof.
  unfold Automator.detail_of. rewrite run_bind, get_user_info_run.
  destruct (hd false (faults w)); reflexivity.
Qed.

(** The loop of [list_pending]: read-only; all entries or the database
    error. *)
Lemma detail_each_run pending :
  forall w,
    quiet w (final (Automator.detail_each pending w)) /\
    (forall l, value (Automator.detail_each pending w) = Ok l ->
               l = map (detail_in (users w)) pending) /\
    (forall e, value (Automator.detail_each pending w) = Raise e ->
               e = DatabaseError).
Proof.
  induction pending as [|d rest IH]; intros w; cbn [Automator.detail_each].
  - unfold ret, value, final. cbn [fst snd map].
    split; [apply quiet_refl|]. split; [intros l [= <-]; reflexivity|discriminate].
  - rewrite run_bind, detail_of_run.
    pose proof (quiet_with_faults (tl (faults w)) w) as Q0.
    destruct (hd false (faults w)).
    + unfold value, final. cbn [fst snd].
      split; [exact Q0|]. split; [discriminate|intros e [= <-]; reflexivity].
    + rewrite run_bind.
      set (w0 := with_faults (tl (faults w)) w) in *.
      destruct (IH w0) as (Q1 & Hok & Herr).
      pose proof (quiet_trans _ _ _ Q0 Q1) as Q01.
      unfold value, final in *.
      destruct (Automator.detail_each rest w0) as [[ds|e] w1]; cbn [fst snd ret] in *.
      * split; [exact Q01|]. split; [|discriminate].
        intros l [= <-]. rewrite (Hok ds eq_refl). reflexivity.
      * split; [exact Q01|]. split; [discriminate|].
        intros e' [= <-]. apply Herr. reflexivity.
Qed.

(** The pending list of an initialised automator: the queue, or nothing
    when the query fails. *)
Lemma pending_list_run w :
  initialized w = true ->
  DeliveryAutomator.get_pending_deliveries w
  = (Ok (if hd false (faults w) then []
         else map Database.delivery_of (Database.pending_rows (payments w))),
     with_faults (tl (faults w)) w).
Proof.
  intros Hi.
  unfold DeliveryAutomator.get_pending_deliveries,
    DeliveryAutomator.ensure_initialized,
    Database.get_pending_payments_for_admin,
    try_except, bind, get_world, outside, ret.
  rewrite Hi. destruct (hd false (faults w)); reflexivity.
Qed.

(** The loop of [list_pending] by the fault script: one look-up per
    entry, and the first that fails ends the call. *)
Lemma detail_each_script pending :
  forall w,
    value (Automator.detail_each pending w)
    = if forallb negb (firstn (List.length pending) (faults w))
      then Ok (map (detail_in (users w)) pending)
      else Raise DatabaseError.
Proof.
  induction pending as [|d rest IH]; intros w; cbn [Automator.detail_each]; [reflexivity|].
  rewrite run_bind, detail_of_run. cbn [List.length].
  destruct (faults w) as [|f fs] eqn:Hf.
  - cbn [hd tl firstn forallb]. rewrite run_bind.
    specialize (IH (with_faults [] w)). cbn [faults with_faults users] in IH.
    rewrite firstn_nil in IH. cbn [forallb] in IH.
    unfold value in *. destruct (Automator.detail_each rest (with_faults [] w)) as [v w'].
    cbn [fst] in *. subst v. reflexivity.
  - cbn [hd tl firstn forallb]. destruct f; cbn [negb andb]; [reflexivity|].
    rewrite run_bind.
    specialize (IH (with_faults fs w)). cbn [faults with_faults users] in IH.
    unfold value in *. destruct (Automator.detail_each rest (with_faults fs w)) as [v w'].
    cbn [fst] in *. subst v.
    destruct (forallb negb (firstn (List.length rest) fs)); reflexivity.
Qed.

(** X8.  [list_pending] is read-only, and the only exceptions it lets out
    are the database error of a user look-up and, from a cold start, the
    initialisation error.  On an initialised automator: when the query
    for the pending payments fails, the error is swallowed and the empty
    list is returned, whatever is pending; when it is answered and so is
    every user look-up, the list has one entry per pending delivery, in
    queue order, each with the fields of the delivery and the user name
    found in [users] (none when the user or the name is missing); when it
    is answered and a user look-up fails, the call raises the database
    error and no list is returned. *)
Theorem list_pending_lists_the_queue (w : World) :
  payments (final (Automator.list_pending w)) = payments w /\
  trace (final (Automator.list_pending w)) = trace w /\
  (forall l,
     value (Automator.list_pending w) = Ok l ->
     exists pending w1,
       DeliveryAutomator.get_pending_deliveries w = (Ok pending, w1) /\
       (pending = [] \/
        pending = map Database.delivery_of (Database.pending_rows (payments w))) /\
       l = map (detail_in (users w)) pending) /\
  (forall e,
     value (Automator.list_pending w) = Raise e ->
     e = DatabaseError \/ (initialized w = false /\ e = InitError)) /\
  (initialized w = true ->
   (hd false (faults w) = true ->
    value (Automator.list_pending w) = Ok []) /\
   (hd false (faults w) = false ->
    value (Automator.list_pending w)
    = if forallb negb
           (firstn (List.length (Database.pending_rows (payments w)))
                   (tl (faults w)))
      then Ok (map (detail_in (users w))
                   (map Database.delivery_of (Database.pending_rows (payments w))))
      else Raise DatabaseError)).
Proof.
  assert (Hscript :
    initialized w = true ->
    (hd false (faults w) = true ->
     value (Automator.list_pending w) = Ok []) /\
    (hd false (faults w) = false ->
     value (Automator.list_pending w)
     = if forallb negb
            (firstn (List.length (Database.pending_rows (payments w)))
                    (tl (faults w)))
       then Ok (map (detail_in (users w))
                    (map Database.delivery_of (Database.pending_rows (payments w))))
       else Raise DatabaseError)).
  { intros Hi. unfold Automator.list_pending.
    rewrite run_bind, (pending_list_run w Hi).
    split; intros Hf; rewrite Hf; [reflexivity|].
    replace (match map Database.delivery_of (Database.pending_rows (payments w)) with
             | [] => ret []
             | _ :: _ => Automator.detail_each
                           (map Database.delivery_of (Database.pending_rows (payments w)))
             end)
      with (Automator.detail_each
              (map Database.delivery_of (Database.pending_rows (payments w))))
      by (destruct (map Database.delivery_of (Database.pending_rows (payments w)));
          reflexivity).
    rewrite detail_each_script, length_map. reflexivity. }
  revert Hscript.
  unfold Automator.list_pending. rewrite run_bind.
  pose proof (QuietFacts.get_pending_deliveries_quiet w) as Q.
  pose proof (get_pending_deliveries_value w) as Hval.
  assert (Hraise : forall e w', DeliveryAutomator.get_pending_deliveries w = (Raise e, w') ->
                                initialized w = false /\ e = InitError).
  { intros e w'. unfold DeliveryAutomator.get_pending_deliveries,
      DeliveryAutomator.ensure_initialized, DeliveryAutomator.initialize,
      ContentManager.initialize, Database.get_pending_payments_for_admin,
      try_except, bind, get_world, outside, modify, raise, ret.
    destruct (initialized w); cbn -[Database.pending_rows].
    - destruct (hd false (faults w)); cbn -[Database.pending_rows]; discriminate.
    - destruct (hd false (faults w)); cbn -[Database.pending_rows];
        [intros [= <- _]; auto|].
      destruct (hd false (tl (faults w))); cbn -[Database.pending_rows];
        [intros [= <- _]; auto|].
      destruct (hd false (tl (tl (faults w)))); cbn -[Database.pending_rows];
        discriminate. }
  destruct (DeliveryAutomator.get_pending_deliveries w) as [[pending|e] w1].
  - unfold final in Q. cbn [snd] in Q.
    specialize (Hval pending w1 eq_refl).
    destruct (detail_each_run pending w1) as (Q1 & Hok & Herr).
    pose proof (quiet_trans _ _ _ Q Q1) as Q01.
    assert (Hu : users w1 = users w) by (destruct Q; tauto).
    replace (match pending with
             | [] => ret []
             | _ :: _ => Automator.detail_each pending
             end) with (Automator.detail_each pending)
      by (destruct pending; reflexivity).
    destruct Q01 as (Hp & _ & _ & Ht & _).
    intros Hscript.
    split; [exact Hp|]. split; [exact Ht|]. split; [|split; [|exact Hscript]].
    + intros l Hl. exists pending, w1. split; [reflexivity|]. split; [exact Hval|].
      rewrite <- Hu. apply Hok. exact Hl.
    + intros e He. left. apply Herr. exact He.
  - unfold final in Q. cbn [snd] in Q. unfold value, final. cbn [fst snd].
    destruct Q as (Hp & _ & _ & Ht & _).
    intros Hscript.
    split; [exact Hp|]. split; [exact Ht|]. split; [discriminate|].
    split; [|exact Hscript].
    intros e' [= <-]. right. eapply Hraise. reflexivity.
Qed.

(** The pending query fails: the list is empty although a payment is
    pending. *)
Example list_pending_hides_a_failed_query :
  value (Automator.list_pending
           (Sample.world [Sample.paid "p1" 5] [Sample.movie_a] [true]))
  = Ok [] /\
  Database.pending_rows (payments (Sample.world [Sample.paid "p1" 5] [Sample.movie_a] [true]))
  = [Sample.paid "p1" 5].
Proof. split; vm_compute; reflexivity. Qed.

(** A queue of two with a known and an unknown user. *)
Example list_pending_sample :
  value (Automator.list_pending
           (Sample.world [Sample.paid "p2" 9;
                          mkPayment "p1" 8 100 "EUR" "completed" None 5 (Some 6%Z)]
                         [Sample.movie_a] []))
  = Ok [mkPendingDetail "p1" 8 None 100 "EUR" 5;
        mkPendingDetail "p2" 7 (Some "alice") 500 "USD" 9].
Proof. vm_compute. reflexivity. Qed.

End AutomatorFacts.

(** ** The catalogue *)

Module CatalogFacts.
Import RunFacts DeliveryFacts.

Lemma add_content_to_cms_library_run now cid nm drive ft w :
  Store.add_content_to_cms_library now cid nm drive ft w
  = if hd false (faults w) then (Raise DatabaseError, with_faults (tl (faults w)) w)
    else if Database.has_content cid w || Store.has_content_name nm w
         then (Raise DatabaseError, with_faults (tl (faults w)) w)
         else (Ok tt,
               with_content_library
                 (content_library w ++ [mkContentRow cid nm drive ft now])
                 (with_faults (tl (faults w)) w)).
Proof.
  unfold Store.add_content_to_cms_library, try_except, bind, outside, get_world,
    modify, raise, Database.has_content, Store.has_content_name.
  destruct (hd false (faults w)); cbn; [reflexivity|].
  destruct (existsb _ (content_library w) || existsb _ (content_library w));
    reflexivity.
Qed.

(** [add_content], once the manager is initialised. *)
Lemma add_content_run uuid now nm drive ft w :
  cm_initialized w = true ->
  Library.add_content uuid now nm drive ft w
  = if hd false (faults w) || Database.has_content uuid w || Store.has_content_name nm w
    then (Ok None, with_faults (tl (faults w)) w)
    else (Ok (Some uuid),
          with_content_library
            (content_library w ++ [mkContentRow uuid nm drive ft now])
            (with_faults (tl (faults w)) w)).
Proof.
  intros Hc. unfold Library.add_content, ContentManager.ensure_initialized.
  rewrite run_bind. unfold bind at 1, get_world at 1. rewrite Hc. cbn [ret].
  rewrite run_try, run_bind, add_content_to_cms_library_run.
  destruct (hd false (faults w)); [reflexivity|].
  cbn [orb].
  destruct (Database.has_content uuid w || Store.has_content_name nm w); reflexivity.
Qed.

(** [add_content] from a cold manager: initialisation comes first. *)
Lemma add_content_cold uuid now nm drive ft w :
  cm_initialized w = false ->
  Library.add_content uuid now nm drive ft w
  = if hd false (faults w) then (Raise InitError, with_faults (tl (faults w)) w)
    else Library.add_content uuid now nm drive ft
           (with_cm_initialized true (with_faults (tl (faults w)) w)).
Proof.
  intros Hc. unfold Library.add_content at 1, ContentManager.ensure_initialized,
    ContentManager.initialize.
  rewrite run_bind. unfold bind at 1, get_world at 1. rewrite Hc.
  unfold try_except at 1, bind at 1, outside at 1.
  destruct (hd false (faults w)); [reflexivity|].
  cbn [modify raise]. reflexivity.
Qed.

Lemma find_app_none {A} (f : A -> bool) (l1 l2 : list A) :
  find f l1 = None -> find f (l1 ++ l2) = find f l2.
Proof.
  induction l1 as [|a l1 IH]; cbn [find app]; [reflexivity|].
  destruct (f a); [discriminate|exact IH].
Qed.

Lemma existsb_false_find {A} (f : A -> bool) (l : list A) :
  existsb f l = false -> find f l = None.
Proof.
  induction l as [|a l IH]; cbn [find existsb]; [reflexivity|].
  destruct (f a); [discriminate|exact IH].
Qed.

Lemma not_in_names nm lib :
  Store.has_content_name nm (mkWorld [] lib [] true true 0 0 [] []) = false ->
  ~ In nm (map content_name lib).
Proof.
  unfold Store.has_content_name. cbn [content_library]. intros H Hin.
  apply in_map_iff in Hin. destruct Hin as (r & <- & Hr).
  assert (Ht : existsb (fun c => (content_name c =? content_name r)%string) lib = true).
  { apply existsb_exists. exists r. split; [exact Hr|apply String.eqb_refl]. }
  congruence.
Qed.

Lemma not_in_ids cid lib :
  existsb (fun c => (content_id c =? cid)%string) lib = false ->
  ~ In cid (map content_id lib).
Proof.
  intros H Hin. apply in_map_iff in Hin. destruct Hin as (r & <- & Hr).
  assert (Ht : existsb (fun c => (content_id c =? content_id r)%string) lib = true).
  { apply existsb_exists. exists r. split; [exact Hr|apply String.eqb_refl]. }
  congruence.
Qed.

Lemma NoDup_snoc {A} (l : list A) (a : A) :
  NoDup l -> ~ In a l -> NoDup (l ++ [a]).
Proof.
  intros Hl Ha. apply NoDup_app; [exact Hl|constructor; [intros []|constructor]|].
  intros x Hx [<-|[]]. contradiction.
Qed.

Lemma find_none_intro {A} (f : A -> bool) (l : list A) :
  (forall x, In x l -> f x = false) -> find f l = None.
Proof.
  induction l as [|a l IH]; intros H; cbn [find]; [reflexivity|].
  rewrite (H a (or_introl eq_refl)). apply IH. intros x Hx. apply H. right. exact Hx.
Qed.

Lemma get_content_by_name_run nm w :
  Store.get_content_by_name nm w
  = (if hd false (faults w) then Raise DatabaseError
     else Ok (option_map Store.named
                (find (fun c => (Text.lower (content_name c) =? Text.lower nm)%string)
                      (content_library w))),
     with_faults (tl (faults w)) w).
Proof.
  unfold Store.get_content_by_name, bind, outside, get_world, ret.
  destruct (hd false (faults w)); reflexivity.
Qed.

(** The three ways [add_content] can end. *)
Lemma add_content_cases uuid now nm drive ft w :
  let r := Library.add_content uuid now nm drive ft w in
  payments (final r) = payments w /\ users (final r) = users w /\
  ((value r = Raise InitError /\ cm_initialized w = false /\
    content_library (final r) = content_library w)
   \/ (value r = Ok None /\ cm_initialized (final r) = true /\
       content_library (final r) = content_library w)
   \/ (value r = Ok (Some uuid) /\ cm_initialized (final r) = true /\
       Database.has_content uuid w = false /\
       Store.has_content_name nm w = false /\
       content_library (final r)
       = content_library w ++ [mkContentRow uuid nm drive ft now])).
Proof.
  cbv zeta.
  assert (Hwarm : forall w0, cm_initialized w0 = true ->
    payments (final (Library.add_content uuid now nm drive ft w0)) = payments w0 /\
    users (final (Library.add_content uuid now nm drive ft w0)) = users w0 /\
    ((value (Library.add_content uuid now nm drive ft w0) = Ok None /\
      cm_initialized (final (Library.add_content uuid now nm drive ft w0)) = true /\
      content_library (final (Library.add_content uuid now nm drive ft w0))
      = content_library w0)
     \/ (value (Library.add_content uuid now nm drive ft w0) = Ok (Some uuid) /\
         cm_initialized (final (Library.add_content uuid now nm drive ft w0)) = true /\
         Database.has_content uuid w0 = false /\
         Store.has_content_name nm w0 = false /\
         content_library (final (Library.add_content uuid now nm drive ft w0))
         = content_library w0 ++ [mkContentRow uuid nm drive ft now]))).
  { intros w0 Hc. rewrite (add_content_run _ _ _ _ _ _ Hc).
    destruct (hd false (faults w0)), (Database.has_content uuid w0),
      (Store.has_content_name nm w0); cbn; auto 10. }
  destruct (cm_initialized w) eqn:Hc.
  - destruct (Hwarm w Hc) as (Hp & Hu & H).
    split; [exact Hp|]. split; [exact Hu|]. right. exact H.
  - rewrite (add_content_cold _ _ _ _ _ _ Hc).
    destruct (hd false (faults w)).
    + cbn. split; [reflexivity|]. split; [reflexivity|]. left. auto.
    + destruct (Hwarm (with_cm_initialized true (with_faults (tl (faults w)) w)) eq_refl)
        as (Hp & Hu & H).
      split; [exact Hp|]. split; [exact Hu|]. right. exact H.
Qed.

(** X9 ([add_content], [add_content_to_cms_library],
    [get_content_from_cms_library], [get_content_by_name]): when
    [add_content] returns an identifier, it is the fresh one, the
    catalogue has grown by exactly the new row at its end while the
    payments and the users are as before, and from then on (as long as
    the catalogue is not changed and the store answers) a lookup by
    the identifier returns the stored row; a lookup by name finds it
    under any spelling that differs only in letter case, provided no
    older row has such a name. *)
Theorem added_content_is_retrievable
    (uuid : string) (now : Z) (nm drive ft : string) (w w1 : World) (cid : string) :
  Library.add_content uuid now nm drive ft w = (Ok (Some cid), w1) ->
  cid = uuid /\
  content_library w1 = content_library w ++ [mkContentRow uuid nm drive ft now] /\
  payments w1 = payments w /\ users w1 = users w /\
  forall w2,
    content_library w2 = content_library w1 -> hd false (faults w2) = false ->
    value (Database.get_content_from_cms_library cid w2)
    = Ok (Some (mkContentRow uuid nm drive ft now)) /\
    ((forall r, In r (content_library w) ->
                Text.lower (content_name r) <> Text.lower nm) ->
     forall nm', Text.lower nm' = Text.lower nm ->
       value (Store.get_content_by_name nm' w2)
       = Ok (Some (Store.named (mkContentRow uuid nm drive ft now)))).
Proof.
  intros H.
  pose proof (add_content_cases uuid now nm drive ft w) as C. cbv zeta in C.
  rewrite H in C. unfold value, final in C. cbn [fst snd] in C.
  destruct C as (Hp & Hu & [(C & _)|[(C & _)|(C & _ & Hid & _ & Hlib)]]);
    try discriminate.
  injection C as ->.
  split; [reflexivity|]. split; [exact Hlib|]. split; [exact Hp|]. split; [exact Hu|].
  intros w2 H2 Hf. split.
  - rewrite get_content_run, Hf. unfold value. cbn [fst]. rewrite H2, Hlib.
    rewrite find_app_none by (apply existsb_false_find; exact Hid).
    cbn [find content_id]. rewrite String.eqb_refl. reflexivity.
  - intros Hold nm' Hnm'.
    rewrite get_content_by_name_run, Hf. unfold value. cbn [fst]. rewrite H2, Hlib.
    rewrite find_app_none.
    + cbn [find content_name]. rewrite Hnm', String.eqb_refl. reflexivity.
    + apply find_none_intro. intros r Hr. apply String.eqb_neq.
      rewrite Hnm'. apply Hold. exact Hr.
Qed.

Lemma added_content_is_retrievable_witness :
  Library.add_content "c9" 9 "Movie Z" "drive-z" "video" (Sample.world [] [Sample.movie_a] [])
  = (Ok (Some "c9"),
     with_content_library
       [Sample.movie_a; mkContentRow "c9" "Movie Z" "drive-z" "video" 9]
       (Sample.world [] [Sample.movie_a] [])) /\
  value (Database.get_content_from_cms_library "c9"
           (with_content_library
              [Sample.movie_a; mkContentRow "c9" "Movie Z" "drive-z" "video" 9]
              (Sample.world [] [Sample.movie_a] [])))
  = Ok (Some (mkContentRow "c9" "Movie Z" "drive-z" "video" 9)).
Proof.
  assert (H : Library.add_content "c9" 9 "Movie Z" "drive-z" "video"
                (Sample.world [] [Sample.movie_a] [])
              = (Ok (Some "c9"),
                 with_content_library
                   [Sample.movie_a; mkContentRow "c9" "Movie Z" "drive-z" "video" 9]
                   (Sample.world [] [Sample.movie_a] [])))
    by (vm_compute; reflexivity).
  split; [exact H|].
  destruct (added_content_is_retrievable _ _ _ _ _ _ _ _ H) as (_ & _ & _ & _ & Hget).
  destruct (Hget (with_content_library
                    [Sample.movie_a; mkContentRow "c9" "Movie Z" "drive-z" "video" 9]
                    (Sample.world [] [Sample.movie_a] []))
                 eq_refl eq_refl) as [Hv _].
  exact Hv.
Defined.

Lemma has_content_name_in nm w :
  In nm (map content_name (content_library w)) -> Store.has_content_name nm w = true.
Proof.
  intros Hin. apply in_map_iff in Hin. destruct Hin as (r & <- & Hr).
  unfold Store.has_content_name. apply existsb_exists.
  exists r. split; [exact Hr|apply String.eqb_refl].
Qed.

Lemma has_content_id_in cid w :
  In cid (map content_id (content_library w)) -> Database.has_content cid w = true.
Proof.
  intros Hin. apply in_map_iff in Hin. destruct Hin as (r & <- & Hr).
  apply has_content_in. exact Hr.
Qed.

Lemma keys_snoc lib cid nm drive ft now w :
  content_library w = lib ->
  Database.has_content cid w = false ->
  Store.has_content_name nm w = false ->
  catalog_keys_ok lib ->
  catalog_keys_ok (lib ++ [mkContentRow cid nm drive ft now]).
Proof.
  intros <- Hid Hn [Hi Hm]. unfold catalog_keys_ok. rewrite !map_app. cbn [map].
  split; apply NoDup_snoc; try assumption.
  - intros Hin. apply has_content_id_in in Hin. cbn [content_id] in Hin. congruence.
  - intros Hin. apply has_content_name_in in Hin. cbn [content_name] in Hin. congruence.
Qed.

(** X10 ([add_content], [add_content_to_cms_library]): the only exception
    [add_content] lets out is that of an initialisation it still had to
    do; the catalogue is left as it was unless the new identifier is
    returned, and then it has grown by the one new row; a name or an
    identifier the catalogue already holds is refused, with no identifier
    returned and the catalogue unchanged; and a catalogue whose
    identifiers and names are free of duplicates stays so. *)
Theorem add_content_refuses_duplicates
    (uuid : string) (now : Z) (nm drive ft : string) (w : World) :
  let r := Library.add_content uuid now nm drive ft w in
  (forall e, value r = Raise e -> e = InitError /\ cm_initialized w = false) /\
  (content_library (final r) = content_library w \/
   value r = Ok (Some uuid) /\
   content_library (final r)
   = content_library w ++ [mkContentRow uuid nm drive ft now]) /\
  (In nm (map content_name (content_library w)) \/
   In uuid (map content_id (content_library w)) ->
   (forall cid, value r <> Ok (Some cid)) /\
   content_library (final r) = content_library w) /\
  (catalog_keys_ok (content_library w) ->
   catalog_keys_ok (content_library (final r))).
Proof.
  cbv zeta.
  pose proof (add_content_cases uuid now nm drive ft w) as C. cbv zeta in C.
  destruct C as (_ & _ & [(C & Hc & Hlib)|[(C & _ & Hlib)|(C & _ & Hid & Hn & Hlib)]]).
  - rewrite C, Hlib. split; [intros e [= <-]; auto|]. split; [left; reflexivity|].
    split; [intros _; split; [intros cid; discriminate|reflexivity]|]. intros K; exact K.
  - rewrite C, Hlib. split; [discriminate|]. split; [left; reflexivity|].
    split; [intros _; split; [intros cid; discriminate|reflexivity]|]. intros K; exact K.
  - rewrite C, Hlib. split; [discriminate|]. split; [right; split; reflexivity|].
    split.
    + intros [Hin|Hin].
      * apply has_content_name_in in Hin. congruence.
      * apply has_content_id_in in Hin. congruence.
    + intros K. eapply keys_snoc; eauto.
Qed.

Lemma successes_app rows1 rows2 :
  successes (rows1 ++ rows2) = successes rows1 ++ successes rows2.
Proof. unfold successes. apply flat_map_app. Qed.

(** One turn of the loop of [add_content_bulk], once the manager is
    initialised. *)
Lemma add_one_run uuid4 clock i content_data w :
  uuid4 i <> EmptyString ->
  cm_initialized w = true ->
  exists ok row w' added,
    Library.add_one uuid4 clock i content_data w = (Ok (ok, row), w') /\
    cm_initialized w' = true /\ payments w' = payments w /\ users w' = users w /\
    bulk_name row = shown_name content_data /\
    content_library w' = content_library w ++ added /\
    map reported added = successes [row] /\
    List.length (successes [row]) = (if ok then 1 else 0)%nat /\
    (catalog_keys_ok (content_library w) -> catalog_keys_ok (content_library w')).
Proof.
  intros Hu Hc. unfold Library.add_one, shown_name.
  destruct (cd_name content_data) as [nm|].
  2:{ exists false, (BulkFailure "unknown" (MissingKey "name")), w, [].
      rewrite app_nil_r. cbn. auto 10. }
  destruct (cd_drive_id content_data) as [drive|].
  2:{ exists false, (BulkFailure nm (MissingKey "drive_id")), w, [].
      rewrite app_nil_r. cbn. auto 10. }
  set (ft := match cd_type content_data with Some t => t | None => "document" end).
  rewrite run_try, run_bind.
  pose proof (add_content_cases (uuid4 i) (clock i) nm drive ft w) as C. cbv zeta in C.
  destruct (Library.add_content (uuid4 i) (clock i) nm drive ft w) as [v w'].
  unfold value, final in C. cbn [fst snd] in C.
  destruct C as (Hp & Hus & [(_ & Hcf & _)|[(-> & Hc' & Hlib)|(-> & Hc' & Hid & Hn & Hlib)]]).
  - congruence.
  - exists false, (BulkFailure nm FailedToAdd), w', [].
    rewrite app_nil_r, Hlib. cbn. auto 10.
  - destruct (uuid4 i) as [|a u] eqn:E; [congruence|].
    exists true, (BulkSuccess nm (String a u) drive ft), w',
      [mkContentRow (String a u) nm drive ft (clock i)].
    cbn. rewrite Hlib. repeat (split; [auto; fail|]).
    intros K. eapply keys_snoc; eauto.
Qed.

(** The loop of [add_content_bulk]. *)
Lemma add_each_run uuid4 clock content_list :
  (forall i, uuid4 i <> EmptyString) ->
  forall i s e rows w,
    cm_initialized w = true ->
    exists new_rows added w',
      Library.add_each uuid4 clock i content_list (s, e, rows) w
      = (Ok ((s + List.length (successes new_rows))%nat,
             (e + (List.length content_list - List.length (successes new_rows)))%nat,
             rows ++ new_rows), w') /\
      (List.length (successes new_rows) <= List.length content_list)%nat /\
      map bulk_name new_rows = map shown_name content_list /\
      content_library w' = content_library w ++ added /\
      map reported added = successes new_rows /\
      payments w' = payments w /\ users w' = users w /\
      (catalog_keys_ok (content_library w) -> catalog_keys_ok (content_library w')).
Proof.
  intros Hu. induction content_list as [|cd rest IH]; intros i s e rows w Hc.
  - exists [], [], w. cbn. rewrite !Nat.add_0_r, !app_nil_r. auto 10.
  - cbn [Library.add_each]. rewrite run_bind.
    destruct (add_one_run uuid4 clock i cd w (Hu i) Hc)
      as (ok & row & w1 & added1 & -> & Hc1 & Hp1 & Hu1 & Hnm & Hlib1 & Hrep1 & Hlen1 & K1).
    destruct (IH (S i)
                (if ok then S s else s) (if ok then e else S e) (rows ++ [row]) w1 Hc1)
      as (new_rows & added & w' & Hrun & Hle & Hnms & Hlib & Hrep & Hp & Hus & K).
    exists (row :: new_rows), (added1 ++ added), w'.
    replace (successes (row :: new_rows)) with (successes [row] ++ successes new_rows)
      by (rewrite <- successes_app; reflexivity).
    rewrite length_app, Hlen1.
    split.
    { destruct ok; rewrite Hrun; cbn [List.length]; rewrite <- app_assoc; cbn [app];
        match goal with
        | |- (Ok (?a, ?b, ?c), ?w0) = (Ok (?a', ?b', ?c), ?w0) =>
            replace a' with a by lia; replace b' with b by lia; reflexivity
        end. }
    split; [destruct ok; cbn [List.length]; lia|].
    split; [cbn [map]; congruence|].
    split; [rewrite Hlib, Hlib1, app_assoc; reflexivity|].
    split; [rewrite map_app; congruence|].
    split; [congruence|]. split; [congruence|]. auto.
Qed.

(** X11 ([add_content_bulk], [add_content]): a bulk import either fails
    at once because the manager could not be initialised, or it returns
    one result row per entry, in the order of the entries and under the
    entry's name ('unknown' when the key is missing); the success count
    is the number of success rows, the two counts add up to the number
    of entries, the catalogue has grown at its end by exactly the rows
    reported as successes, in order and with the reported columns, the
    payments and users are untouched, and identifiers and names stay
    free of duplicates.  The identifiers drawn are non-empty, as
    [str(uuid.uuid4())] is. *)
Theorem bulk_add_accounts_for_every_entry
    (uuid4 : nat -> string) (clock : nat -> Z)
    (content_list : list ContentData) (w : World) :
  (forall i, uuid4 i <> EmptyString) ->
  let r := Library.add_content_bulk uuid4 clock content_list w in
  (value r = Raise InitError /\ cm_initialized w = false /\
   content_library (final r) = content_library w)
  \/
  exists s e rows added,
    value r = Ok (s, e, rows) /\
    map bulk_name rows = map shown_name content_list /\
    s = List.length (successes rows) /\
    (s + e = List.length content_list)%nat /\
    content_library (final r) = content_library w ++ added /\
    map reported added = successes rows /\
    payments (final r) = payments w /\ users (final r) = users w /\
    (catalog_keys_ok (content_library w) ->
     catalog_keys_ok (content_library (final r))).
Proof.
  intros Hu. cbv zeta.
  assert (Hwarm : forall w0, cm_initialized w0 = true ->
    exists s e rows added,
      value (Library.add_each uuid4 clock 0 content_list (0, 0, [])%nat w0)
      = Ok (s, e, rows) /\
      map bulk_name rows = map shown_name content_list /\
      s = List.length (successes rows) /\
      (s + e = List.length content_list)%nat /\
      content_library (final (Library.add_each uuid4 clock 0 content_list (0, 0, [])%nat w0))
      = content_library w0 ++ added /\
      map reported added = successes rows /\
      payments (final (Library.add_each uuid4 clock 0 content_list (0, 0, [])%nat w0))
      = payments w0 /\
      users (final (Library.add_each uuid4 clock 0 content_list (0, 0, [])%nat w0))
      = users w0 /\
      (catalog_keys_ok (content_library w0) ->
       catalog_keys_ok
         (content_library
            (final (Library.add_each uuid4 clock 0 content_list (0, 0, [])%nat w0))))).
  { intros w0 Hc.
    destruct (add_each_run uuid4 clock content_list Hu 0 0 0 [] w0 Hc)
      as (rows & added & w' & Hrun & Hle & Hnms & Hlib & Hrep & Hp & Hus & K).
    rewrite Hrun. unfold value, final. cbn [fst snd app Nat.add].
    exists (List.length (successes rows)),
      (List.length content_list - List.length (successes rows))%nat, rows, added.
    split; [reflexivity|]. split; [exact Hnms|]. split; [reflexivity|].
    split; [lia|]. auto. }
  destruct (cm_initialized w) eqn:Hc.
  - right.
    assert (E : Library.add_content_bulk uuid4 clock content_list w
                = Library.add_each uuid4 clock 0 content_list (0, 0, [])%nat w).
    { unfold Library.add_content_bulk, ContentManager.ensure_initialized,
        bind, get_world. rewrite Hc. reflexivity. }
    rewrite E. exact (Hwarm w Hc).
  - destruct (hd false (faults w)) eqn:Hf.
    + left.
      assert (E : Library.add_content_bulk uuid4 clock content_list w
                  = (Raise InitError, with_faults (tl (faults w)) w)).
      { unfold Library.add_content_bulk, ContentManager.ensure_initialized,
          ContentManager.initialize, try_except, bind, get_world, outside.
        rewrite Hc, Hf. reflexivity. }
      rewrite E. cbn. auto.
    + right.
      assert (E : Library.add_content_bulk uuid4 clock content_list w
                  = Library.add_each uuid4 clock 0 content_list (0, 0, [])%nat
                      (with_cm_initialized true (with_faults (tl (faults w)) w))).
      { unfold Library.add_content_bulk, ContentManager.ensure_initialized,
          ContentManager.initialize, try_except, bind, get_world, outside.
        rewrite Hc, Hf. reflexivity. }
      rewrite E.
      exact (Hwarm (with_cm_initialized true (with_faults (tl (faults w)) w)) eq_refl).
Qed.

Lemma bulk_add_accounts_for_every_entry_witness :
  exists s e rows,
    value (Library.add_content_bulk
             (fun i => String (ascii_of_nat (65 + i)) EmptyString) (fun i => Z.of_nat i)
             [mkContentData (Some "Movie Z") (Some "drive-z") None;
              mkContentData (Some "Movie A") (Some "drive-a2") (Some "video");
              mkContentData None (Some "drive-n") None]
             (Sample.world [] [Sample.movie_a] []))
    = Ok (s, e, rows) /\
    map bulk_name rows = ["Movie Z"; "Movie A"; "unknown"] /\
    (s + e = 3)%nat.
Proof.
  destruct (bulk_add_accounts_for_every_entry
              (fun i => String (ascii_of_nat (65 + i)) EmptyString) (fun i => Z.of_nat i)
              [mkContentData (Some "Movie Z") (Some "drive-z") None;
               mkContentData (Some "Movie A") (Some "drive-a2") (Some "video");
               mkContentData None (Some "drive-n") None]
              (Sample.world [] [Sample.movie_a] []))
    as [(_ & Hc & _)|(s & e & rows & added & Hv & Hn & _ & Hsum & _)].
  - intros i. discriminate.
  - discriminate Hc.
  - exists s, e, rows. split; [exact Hv|]. split; [exact Hn|exact Hsum].
Defined.

End CatalogFacts.

(** ** Searching the catalogue *)

Module SearchFacts.
Import RunFacts Text.

Lemma any_suffix_ext (m1 m2 : string -> bool) s :
  (forall x, m1 x = m2 x) -> Like.any_suffix m1 s = Like.any_suffix m2 s.
Proof.
  intros H. induction s as [|a s IH]; cbn [Like.any_suffix]; rewrite H;
    [reflexivity|rewrite IH; reflexivity].
Qed.

(** [%] at the end of a pattern takes whatever is left. *)
Lemma any_suffix_empty s : Like.any_suffix (Like.like EmptyString) s = true.
Proof.
  induction s as [|a s IH]; cbn [Like.any_suffix Like.like orb]; [reflexivity|exact IH].
Qed.

Lemma prefix_empty s : String.prefix EmptyString s = true.
Proof. destruct s; reflexivity. Qed.

Lemma like_plain_then_percent t :
  Like.plain t = true ->
  forall s, Like.like (t ++ String Like.percent EmptyString)%string s = String.prefix t s.
Proof.
  induction t as [|c t IH]; intros Hp s.
  - cbn [append Like.like]. rewrite Ascii.eqb_refl, any_suffix_empty, prefix_empty.
    reflexivity.
  - cbn [Like.plain] in Hp.
    apply andb_true_iff in Hp. destruct Hp as [Hp Ht].
    apply andb_true_iff in Hp. destruct Hp as [Hp H3].
    apply andb_true_iff in Hp. destruct Hp as [H1 H2].
    apply negb_true_iff in H1, H2, H3.
    cbn [append Like.like]. rewrite H1, H2, H3.
    destruct s as [|c' s]; [reflexivity|].
    cbn [String.prefix]. destruct (ascii_dec c c') as [<-|Hn].
    + rewrite Ascii.eqb_refl. cbn [andb]. apply IH. exact Ht.
    + apply Ascii.eqb_neq in Hn. rewrite Hn. reflexivity.
Qed.

Lemma contains_any_suffix s t :
  contains s t = Like.any_suffix (String.prefix t) s.
Proof.
  induction s as [|a s IH]; cbn [contains Like.any_suffix]; [reflexivity|].
  rewrite IH. reflexivity.
Qed.

(** A plain term between two [%] is a substring test. *)
Lemma like_contains t s :
  Like.plain t = true ->
  Like.like (String Like.percent (t ++ String Like.percent EmptyString)) s
  = contains s t.
Proof.
  intros Hp. cbn [Like.like]. rewrite Ascii.eqb_refl, contains_any_suffix.
  apply any_suffix_ext. intros x. apply like_plain_then_percent. exact Hp.
Qed.

Lemma lower_app a b : lower (a ++ b)%string = (lower a ++ lower b)%string.
Proof.
  induction a as [|c a IH]; cbn [append lower]; [reflexivity|].
  rewrite IH. reflexivity.
Qed.

(** Lower-casing neither makes nor removes a pattern character. *)
Lemma lower_char_plain c :
  Ascii.eqb (lower_char c) Like.percent = Ascii.eqb c Like.percent /\
  Ascii.eqb (lower_char c) Like.underscore = Ascii.eqb c Like.underscore /\
  Ascii.eqb (lower_char c) Like.backslash = Ascii.eqb c Like.backslash.
Proof.
  destruct c as [[] [] [] [] [] [] [] []]; vm_compute; repeat split.
Qed.

Lemma plain_lower t : Like.plain (lower t) = Like.plain t.
Proof.
  induction t as [|c t IH]; cbn [lower Like.plain]; [reflexivity|].
  destruct (lower_char_plain c) as (-> & -> & ->). rewrite IH. reflexivity.
Qed.

Lemma search_pattern_lower t :
  lower (String Like.percent (t ++ String Like.percent EmptyString))
  = String Like.percent (lower t ++ String Like.percent EmptyString).
Proof.
  cbn [lower]. rewrite lower_app. reflexivity.
Qed.

Lemma filter_all {A} (f : A -> bool) (l : list A) :
  (forall x, f x = true) -> filter f l = l.
Proof.
  intros H. induction l as [|a l IH]; cbn [filter]; [reflexivity|].
  rewrite H, IH. reflexivity.
Qed.

Lemma contains_empty s : contains s EmptyString = true.
Proof. destruct s; reflexivity. Qed.

Lemma search_listing_plain limit t rows :
  Like.plain t = true ->
  Library.search_listing limit t rows
  = map listed
      (firstn limit
         (order_by ContentManager.newest_first
            (filter (fun r => contains (lower (content_name r)) (lower t)) rows))).
Proof.
  intros Hp. unfold Library.search_listing. do 3 f_equal.
  apply filter_ext. intros r. rewrite search_pattern_lower.
  apply like_contains. rewrite plain_lower. exact Hp.
Qed.

(** X12 ([list_contents] with a search term): for a term without [%],
    [_] and backslash, the search returns the catalogue rows whose name
    contains the term, letter case aside, newest upload first and at
    most [limit] of them; the empty term selects every row; a failing
    query gives the empty list.  Nothing is written. *)
Theorem search_is_a_substring_filter
    (limit : nat) (t : string) (w : World) :
  Like.plain t = true ->
  cm_initialized w = true ->
  Library.list_contents limit (Some t) w
  = (Ok (if hd false (faults w) then []
         else map listed
                (firstn limit
                   (order_by ContentManager.newest_first
                      (filter (fun r => contains (lower (content_name r)) (lower t))
                              (content_library w))))),
     with_faults (tl (faults w)) w).
Proof.
  intros Hp Hc.
  unfold Library.list_contents, ContentManager.ensure_initialized.
  rewrite run_bind. unfold bind at 1, get_world at 1. rewrite Hc. cbn [ret].
  rewrite run_try. unfold bind, outside, get_world.
  destruct (hd false (faults w)); [reflexivity|].
  cbn [content_library with_faults].
  destruct t as [|a t'].
  - cbn [truthy ret]. unfold ContentManager.listing.
    rewrite (filter_all (fun r => contains (lower (content_name r)) (lower EmptyString)))
      by (intros r; apply contains_empty).
    reflexivity.
  - cbn [truthy ret]. rewrite search_listing_plain by exact Hp. reflexivity.
Qed.

Lemma search_is_a_substring_filter_witness :
  value (Library.list_contents 50 (Some "movie")
           (Sample.world [] [Sample.movie_a; Sample.movie_b] []))
  = Ok [listed Sample.movie_b; listed Sample.movie_a].
Proof.
  rewrite (search_is_a_substring_filter 50 "movie"
             (Sample.world [] [Sample.movie_a; Sample.movie_b] []) eq_refl eq_refl).
  vm_compute. reflexivity.
Defined.

(** In a pattern [_] stands for any one character: a term that has one
    finds names that do not contain it. *)
Example search_with_a_pattern_character :
  value (Library.list_contents 50 (Some "e_a")
           (Sample.world [] [Sample.movie_a; Sample.movie_b] []))
  = Ok [listed Sample.movie_a] /\
  contains (lower (content_name Sample.movie_a)) (lower "e_a") = false.
Proof. split; vm_compute; reflexivity. Qed.

End SearchFacts.

(** ** Reading and filling the tables *)

Module TableFacts.
Import RunFacts.

Lemma newest_payment_first_total a b :
  Store.newest_payment_first a b = true \/ Store.newest_payment_first b a = true.
Proof. unfold Store.newest_payment_first. rewrite !Z.leb_le. lia. Qed.

Lemma newest_payment_first_trans a b c :
  Store.newest_payment_first a b = true -> Store.newest_payment_first b c = true ->
  Store.newest_payment_first a c = true.
Proof. unfold Store.newest_payment_first. rewrite !Z.leb_le. lia. Qed.

(** In a sorted list the first [n] rows precede the others. *)
Lemma sorted_firstn_skipn {A} (R : A -> A -> Prop) (l : list A) :
  StronglySorted R l ->
  forall n,
    StronglySorted R (firstn n l) /\
    (forall x y, In x (firstn n l) -> In y (skipn n l) -> R x y).
Proof.
  induction 1 as [|a l Hs IH Ha]; intros n.
  - rewrite firstn_nil, skipn_nil. split; [constructor|intros x y []].
  - destruct n as [|n]; cbn [firstn skipn].
    + split; [constructor|intros x y []].
    + destruct (IH n) as [Hf Hc]. split.
      * constructor; [exact Hf|].
        rewrite Forall_forall in *. intros x Hx. apply Ha.
        rewrite <- (firstn_skipn n l). apply in_or_app. left. exact Hx.
      * intros x y [<-|Hx] Hy.
        -- rewrite Forall_forall in Ha. apply Ha.
           rewrite <- (firstn_skipn n l). apply in_or_app. right. exact Hy.
        -- apply Hc; assumption.
Qed.

Lemma sorted_weaken {A} (R R' : A -> A -> Prop) (l : list A) :
  (forall x y, R x y -> R' x y) -> StronglySorted R l -> StronglySorted R' l.
Proof.
  intros H. induction 1 as [|a l Hs IH Ha]; constructor; [exact IH|].
  rewrite Forall_forall in *. intros x Hx. apply H, Ha, Hx.
Qed.

(** X13 ([get_user_payments]): unless the query fails, the result shows
    the user's payments and no others, newest request first, five of
    them when the user has more than five and all of them otherwise;
    every payment of the user that is left out was requested no later
    than every payment shown.  Nothing is written. *)
Theorem user_payments_are_the_latest_five (uid : Z) (w : World) :
  exists shown rest,
    Store.get_user_payments uid w
    = (if hd false (faults w) then Raise DatabaseError
       else Ok (map (fun p => (payment_id p, request_timestamp p, status p)) shown),
       with_faults (tl (faults w)) w) /\
    Permutation (filter (fun p => (user_id p =? uid)%Z) (payments w)) (shown ++ rest) /\
    List.length shown
    = Nat.min 5 (List.length (filter (fun p => (user_id p =? uid)%Z) (payments w))) /\
    StronglySorted (fun p q => (request_timestamp q <= request_timestamp p)%Z) shown /\
    (forall p q, In p shown -> In q rest ->
                 (request_timestamp q <= request_timestamp p)%Z).
Proof.
  set (mine := filter (fun p => (user_id p =? uid)%Z) (payments w)).
  set (sorted := order_by Store.newest_payment_first mine).
  exists (firstn 5 sorted), (skipn 5 sorted).
  pose proof (OrderFacts.order_by_perm Store.newest_payment_first mine) as P.
  pose proof (OrderFacts.order_by_sorted Store.newest_payment_first
                newest_payment_first_total newest_payment_first_trans mine) as S.
  fold sorted in P, S.
  apply (sorted_weaken _ (fun p q => (request_timestamp q <= request_timestamp p)%Z))
    in S; [|intros x y Hxy; apply Z.leb_le; exact Hxy].
  destruct (sorted_firstn_skipn _ sorted S 5) as [Hf Hc].
  split.
  { unfold Store.get_user_payments, bind, outside, get_world, ret.
    destruct (hd false (faults w)); reflexivity. }
  split; [rewrite firstn_skipn; exact P|].
  split; [rewrite length_firstn, (Permutation_length P); reflexivity|].
  split; [exact Hf|exact Hc].
Qed.

Lemma add_or_update_user_run uid nm w :
  Store.add_or_update_user uid nm w
  = if hd false (faults w) then (Raise DatabaseError, with_faults (tl (faults w)) w)
    else (Ok tt,
          with_users
            (if Database.has_user uid w
             then map (fun u => if (u_user_id u =? uid)%Z then mkUser uid nm else u)
                      (users w)
             else users w ++ [mkUser uid nm])
            (with_faults (tl (faults w)) w)).
Proof.
  unfold Store.add_or_update_user, bind, outside, get_world, modify.
  destruct (hd false (faults w)); reflexivity.
Qed.

(** What a lookup finds after the [ON CONFLICT ... DO UPDATE] branch. *)
Lemma find_after_update uid nm uid' us :
  find (fun u => (u_user_id u =? uid')%Z)
       (map (fun u => if (u_user_id u =? uid)%Z then mkUser uid nm else u) us)
  = if (uid' =? uid)%Z
    then option_map (fun _ => mkUser uid nm)
                    (find (fun u => (u_user_id u =? uid)%Z) us)
    else find (fun u => (u_user_id u =? uid')%Z) us.
Proof.
  induction us as [|u us IH]; cbn [map find option_map].
  - destruct (uid' =? uid)%Z; reflexivity.
  - destruct (Z.eqb_spec (u_user_id u) uid) as [E|E].
    + cbn [u_user_id]. rewrite (Z.eqb_sym uid uid').
      destruct (Z.eqb_spec uid' uid) as [E'|E'].
      * reflexivity.
      * rewrite IH. destruct (Z.eqb_spec (u_user_id u) uid') as [E2|_]; [lia|].
        destruct (Z.eqb_spec uid' uid); [lia|reflexivity].
    + rewrite IH. destruct (Z.eqb_spec uid' uid) as [->|E'].
      * destruct (Z.eqb_spec (u_user_id u) uid); [contradiction|reflexivity].
      * reflexivity.
Qed.

Lemma find_after_insert uid nm uid' us :
  existsb (fun u => (u_user_id u =? uid)%Z) us = false ->
  find (fun u => (u_user_id u =? uid')%Z) (us ++ [mkUser uid nm])
  = if (uid' =? uid)%Z then Some (mkUser uid nm)
    else find (fun u => (u_user_id u =? uid')%Z) us.
Proof.
  intros Hn. induction us as [|u us IH]; cbn [app find existsb] in *.
  - cbn [u_user_id]. rewrite (Z.eqb_sym uid uid'). destruct (uid' =? uid)%Z; reflexivity.
  - apply orb_false_iff in Hn. destruct Hn as [Hu Hn].
    destruct (Z.eqb_spec (u_user_id u) uid') as [E|E].
    + destruct (Z.eqb_spec uid' uid) as [E'|_]; [|reflexivity].
      apply Z.eqb_neq in Hu. lia.
    + apply IH. exact Hn.
Qed.

Lemma ids_after_update uid nm us :
  map u_user_id (map (fun u => if (u_user_id u =? uid)%Z then mkUser uid nm else u) us)
  = map u_user_id us.
Proof.
  rewrite map_map. apply map_ext. intros u.
  destruct (Z.eqb_spec (u_user_id u) uid) as [E|_]; [symmetry; exact E|reflexivity].
Qed.

(** X14 ([add_or_update_user], [get_user_info]): unless the statement
    fails, a later [get_user_info] for the same user returns the row just
    written, and for any other user what it returned before; a user that
    was known keeps its place in the table and no row is added, a new
    user is added at the end; payments and catalogue are not touched. *)
Theorem upsert_user_round_trip (uid : Z) (nm : option string) (w : World) :
  let r := Store.add_or_update_user uid nm w in
  payments (final r) = payments w /\
  content_library (final r) = content_library w /\
  (value r = Raise DatabaseError /\ users (final r) = users w
   \/
   value r = Ok tt /\
   map u_user_id (users (final r))
   = (if Database.has_user uid w then map u_user_id (users w)
      else map u_user_id (users w) ++ [uid]) /\
   forall uid' w2,
     users w2 = users (final r) -> hd false (faults w2) = false ->
     value (Database.get_user_info uid' w2)
     = Ok (if (uid' =? uid)%Z then Some (mkUser uid nm)
           else find (fun u => (u_user_id u =? uid')%Z) (users w))).
Proof.
  cbv zeta. rewrite add_or_update_user_run.
  destruct (hd false (faults w)).
  - unfold value, final. cbn. auto.
  - unfold value, final. cbn [fst snd].
    split; [reflexivity|]. split; [reflexivity|]. right.
    split; [reflexivity|]. cbn [users with_users].
    split.
    + destruct (Database.has_user uid w).
      * apply ids_after_update.
      * rewrite map_app. reflexivity.
    + intros uid' w2 H2 Hf.
      rewrite DeliveryFacts.get_user_info_run, Hf, H2. cbn [fst]. f_equal.
      unfold Database.has_user.
      destruct (existsb (fun u => (u_user_id u =? uid)%Z) (users w)) eqn:Hh.
      * rewrite find_after_update.
        destruct (uid' =? uid)%Z; [|reflexivity].
        destruct (find (fun u => (u_user_id u =? uid)%Z) (users w)) eqn:Hfind;
          [reflexivity|].
        apply existsb_exists in Hh. destruct Hh as (u & Hin & Hu).
        pose proof (find_none _ _ Hfind u Hin) as Hn. cbn beta in Hn. congruence.
      * apply find_after_insert. exact Hh.
Qed.

Lemma cleanup_run h now w :
  Database.cleanup_expired_pending_payments h now w
  = if hd false (faults w) then (Raise DatabaseError, with_faults (tl (faults w)) w)
    else (Ok tt,
          with_payments
            (map (fun p =>
                    if (status p =? "pending")%string &&
                       (request_timestamp p + h * 3600000000 <? now)%Z
                    then Database.expire_row p else p)
                 (payments w))
            (with_faults (tl (faults w)) w)).
Proof.
  unfold Database.cleanup_expired_pending_payments, bind, outside, get_world, modify.
  destruct (hd false (faults w)); reflexivity.
Qed.

(** A rewriting of rows that leaves the selected rows alone and selects
    no new ones does not change the selection. *)
Lemma filter_map_fixed {A} (sel : A -> bool) (f : A -> A) (l : list A) :
  (forall x, sel x = true -> f x = x) ->
  (forall x, sel x = false -> sel (f x) = false) ->
  filter sel (map f l) = filter sel l.
Proof.
  intros Hfix Hno. induction l as [|a l IH]; cbn [map filter]; [reflexivity|].
  destruct (sel a) eqn:E.
  - rewrite (Hfix a E), E, IH. reflexivity.
  - rewrite (Hno a E), IH. reflexivity.
Qed.

(** X15 ([cleanup_expired_pending_payments]): expiring at one moment and
    again at a later one leaves the ledger as a single expiry at the
    later moment does, so repeating an expiry changes nothing; the
    payments awaiting delivery, the order of the rows and their
    identifiers are as before; and a row that is still pending
    afterwards is a row of the ledger before, not yet past its expiry. *)
Theorem expiry_is_cumulative
    (expiry_hours now now' : Z) (w w1 w2 : World) :
  (now <= now')%Z ->
  Database.cleanup_expired_pending_payments expiry_hours now w = (Ok tt, w1) ->
  Database.cleanup_expired_pending_payments expiry_hours now' w1 = (Ok tt, w2) ->
  payments w2
  = payments (final (Database.cleanup_expired_pending_payments expiry_hours now' w)) /\
  Database.pending_rows (payments w2) = Database.pending_rows (payments w) /\
  map payment_id (payments w2) = map payment_id (payments w) /\
  (forall p, In p (payments w2) -> status p = "pending" ->
             In p (payments w) /\
             (now' <= request_timestamp p + expiry_hours * 3600000000)%Z).
Proof.
  intros Hle H1 H2.
  rewrite cleanup_run in H1. destruct (hd false (faults w)) eqn:Hf; [discriminate|].
  injection H1 as <-.
  rewrite cleanup_run in H2. cbn [faults with_payments with_faults] in H2.
  destruct (hd false (tl (faults w))); [discriminate|].
  injection H2 as <-.
  rewrite cleanup_run, Hf. unfold final.
  cbn [snd payments with_payments with_faults].
  set (f := fun (t : Z) (p : Payment) =>
              if (status p =? "pending")%string &&
                 (request_timestamp p + expiry_hours * 3600000000 <? t)%Z
              then Database.expire_row p else p).
  change (map (f now') (map (f now) (payments w)) = map (f now') (payments w) /\
          Database.pending_rows (map (f now') (map (f now) (payments w)))
          = Database.pending_rows (payments w) /\
          map payment_id (map (f now') (map (f now) (payments w)))
          = map payment_id (payments w) /\
          (forall p, In p (map (f now') (map (f now) (payments w))) ->
                     status p = "pending" ->
                     In p (payments w) /\
                     (now' <= request_timestamp p + expiry_hours * 3600000000)%Z)).
  assert (Hcomp : forall p, f now' (f now p) = f now' p).
  { intros p. unfold f.
    destruct (String.eqb_spec (status p) "pending") as [Hs|Hs]; cbn [andb].
    - destruct (Z.ltb_spec (request_timestamp p + expiry_hours * 3600000000) now)
        as [Hlt|Hge].
      + change (status (Database.expire_row p)) with "expired".
        change ("expired" =? "pending")%string with false. cbn [andb].
        destruct (Z.ltb_spec (request_timestamp p + expiry_hours * 3600000000) now');
          [reflexivity|lia].
      + rewrite Hs. reflexivity.
    - destruct (String.eqb_spec (status p) "pending"); [contradiction|reflexivity]. }
  assert (Hall : map (f now') (map (f now) (payments w)) = map (f now') (payments w)).
  { rewrite map_map. apply map_ext. exact Hcomp. }
  rewrite Hall.
  split; [reflexivity|]. split.
  { unfold Database.pending_rows. f_equal. apply filter_map_fixed.
    - intros p Hp. unfold f. unfold Database.is_pending_delivery in Hp.
      apply andb_true_iff in Hp. destruct Hp as [Hp _].
      apply String.eqb_eq in Hp. rewrite Hp. reflexivity.
    - intros p Hp. unfold f.
      destruct ((status p =? "pending")%string &&
                (request_timestamp p + expiry_hours * 3600000000 <? now')%Z);
        [reflexivity|exact Hp]. }
  split.
  { rewrite map_map. apply map_ext. intros p. unfold f.
    destruct ((status p =? "pending")%string &&
              (request_timestamp p + expiry_hours * 3600000000 <? now')%Z);
      reflexivity. }
  intros p Hin Hs. apply in_map_iff in Hin. destruct Hin as (p0 & <- & Hin0).
  unfold f in *.
  destruct (String.eqb_spec (status p0) "pending") as [Hs0|Hs0]; cbn [andb] in *.
  - destruct (Z.ltb_spec (request_timestamp p0 + expiry_hours * 3600000000) now')
      as [Hlt|Hge].
    + cbn in Hs. discriminate.
    + split; [exact Hin0|exact Hge].
  - contradiction.
Qed.

Lemma expiry_is_cumulative_witness :
  payments (Sample.world [Sample.unpaid "p1" 0; Sample.paid "p2" 5] [] [])
  <> payments (final (Database.cleanup_expired_pending_payments 1 3600000001
                        (Sample.world [Sample.unpaid "p1" 0; Sample.paid "p2" 5] [] []))) /\
  payments (final (Database.cleanup_expired_pending_payments 1 3600000002
                     (final (Database.cleanup_expired_pending_payments 1 3600000001
                               (Sample.world [Sample.unpaid "p1" 0; Sample.paid "p2" 5]
                                             [] [])))))
  = payments (final (Database.cleanup_expired_pending_payments 1 3600000002
                       (Sample.world [Sample.unpaid "p1" 0; Sample.paid "p2" 5] [] []))).
Proof.
  split; [vm_compute; discriminate|].
  apply (expiry_is_cumulative 1 3600000001 3600000002
           (Sample.world [Sample.unpaid "p1" 0; Sample.paid "p2" 5] [] [])
           (final (Database.cleanup_expired_pending_payments 1 3600000001
                     (Sample.world [Sample.unpaid "p1" 0; Sample.paid "p2" 5] [] [])))
           (final (Database.cleanup_expired_pending_payments 1 3600000002
                     (final (Database.cleanup_expired_pending_payments 1 3600000001
                               (Sample.world [Sample.unpaid "p1" 0; Sample.paid "p2" 5]
                                             [] [])))))).
  - vm_compute; discriminate.
  - vm_compute; reflexivity.
  - vm_compute; reflexivity.
Defined.

Lemma add_pending_payment_run now pid uid amt cur w :
  Database.add_pending_payment now pid uid amt cur w
  = if hd false (faults w) then (Raise DatabaseError, with_faults (tl (faults w)) w)
    else if Database.has_payment pid w || negb (Database.has_user uid w)
         then (Raise DatabaseError, with_faults (tl (faults w)) w)
         else (Ok tt,
               with_payments
                 (payments w ++ [mkPayment pid uid amt cur "pending" None now None])
                 (with_faults (tl (faults w)) w)).
Proof.
  unfold Database.add_pending_payment, bind, outside, get_world, modify, raise,
    Database.has_payment, Database.has_user.
  destruct (hd false (faults w)); cbn; [reflexivity|].
  destruct (existsb _ (payments w) || negb (existsb _ (users w))); reflexivity.
Qed.

Lemma update_payment_status_run now pid st w :
  Database.update_payment_status now pid st w
  = if hd false (faults w) then (Raise DatabaseError, with_faults (tl (faults w)) w)
    else (Ok tt,
          with_payments
            (map (fun p => if (payment_id p =? pid)%string
                           then Database.set_status st now p else p)
                 (payments w))
            (with_faults (tl (faults w)) w)).
Proof.
  unfold Database.update_payment_status, bind, outside, get_world, modify.
  destruct (hd false (faults w)); reflexivity.
Qed.

Lemma no_payment_no_row pid w p :
  Database.has_payment pid w = false -> In p (payments w) -> payment_id p <> pid.
Proof.
  unfold Database.has_payment. intros Hn Hin He.
  assert (Ht : existsb (fun q => (payment_id q =? pid)%string) (payments w) = true).
  { apply existsb_exists. exists p. split; [exact Hin|apply String.eqb_eq; exact He]. }
  congruence.
Qed.

(** X16 ([add_pending_payment], [update_payment_status],
    [get_pending_payments_for_admin]): a payment request that was
    recorded is not yet awaiting delivery; once the provider callback
    marks it completed it is, and the pending list shows it with the
    user, amount, currency and request time it was recorded with.  The
    identifier was new and the user known, or the request would not have
    been recorded; whether any other payment awaits delivery is not
    affected. *)
Theorem paid_request_joins_the_queue
    (now now2 : Z) (pid : string) (uid amt : Z) (cur : string) (w w1 w2 : World) :
  Database.add_pending_payment now pid uid amt cur w = (Ok tt, w1) ->
  Database.update_payment_status now2 pid "completed" w1 = (Ok tt, w2) ->
  Database.has_payment pid w = false /\ Database.has_user uid w = true /\
  ~ queued (payments w1) pid /\
  queued (payments w2) pid /\
  In (mkDelivery pid uid amt cur now)
     (map Database.delivery_of (Database.pending_rows (payments w2))) /\
  (forall pid', pid' <> pid ->
                (queued (payments w2) pid' <-> queued (payments w) pid')).
Proof.
  intros H1 H2.
  rewrite add_pending_payment_run in H1.
  destruct (hd false (faults w)); [discriminate|].
  destruct (Database.has_payment pid w) eqn:Hp; [discriminate|].
  destruct (Database.has_user uid w) eqn:Hu; [|discriminate].
  cbn [orb negb] in H1. injection H1 as <-.
  rewrite update_payment_status_run in H2.
  cbn [faults payments with_payments with_faults] in H2.
  destruct (hd false (tl (faults w))); [discriminate|].
  injection H2 as <-. cbn [payments with_payments with_faults].
  set (new := mkPayment pid uid amt cur "pending" None now None).
  set (g := fun p => if (payment_id p =? pid)%string
                     then Database.set_status "completed" now2 p else p).
  assert (Hold : forall p, In p (payments w) -> g p = p).
  { intros p Hin. unfold g.
    destruct (String.eqb_spec (payment_id p) pid) as [E|_]; [|reflexivity].
    exfalso. exact (no_payment_no_row _ _ _ Hp Hin E). }
  assert (Hmap : map g (payments w ++ [new])
                 = payments w ++ [Database.set_status "completed" now2 new]).
  { rewrite map_app. cbn [map]. f_equal.
    - rewrite <- (map_id (payments w)) at 2. apply map_ext_in. exact Hold.
    - unfold g. cbn [payment_id new]. rewrite String.eqb_refl. reflexivity. }
  rewrite Hmap.
  split; [reflexivity|]. split; [reflexivity|]. split.
  { intros (p & Hin & Hid & Hq). apply in_app_or in Hin. destruct Hin as [Hin|[<-|[]]].
    - exact (no_payment_no_row _ _ _ Hp Hin Hid).
    - discriminate Hq. }
  split.
  { exists (Database.set_status "completed" now2 new).
    split; [apply in_or_app; right; left; reflexivity|]. split; reflexivity. }
  split.
  { apply in_map_iff. exists (Database.set_status "completed" now2 new).
    split; [reflexivity|]. unfold Database.pending_rows.
    apply (Permutation_in _ (OrderFacts.order_by_perm Database.oldest_first _)).
    apply filter_In. split; [apply in_or_app; right; left; reflexivity|reflexivity]. }
  intros pid' Hne. unfold queued. split.
  - intros (p & Hin & Hid & Hq). exists p. split; [|split; assumption].
    apply in_app_or in Hin. destruct Hin as [Hin|[<-|[]]]; [exact Hin|].
    cbn in Hid. congruence.
  - intros (p & Hin & Hid & Hq). exists p. split; [|split; assumption].
    apply in_or_app. left. exact Hin.
Qed.

Lemma paid_request_joins_the_queue_witness :
  In (mkDelivery "p9" 7 500 "USD" 40)
     (map Database.delivery_of
        (Database.pending_rows
           (payments
              (final (Database.update_payment_status 41 "p9" "completed"
                        (final (Database.add_pending_payment 40 "p9" 7 500 "USD"
                                  (Sample.world [Sample.paid "p1" 5] [] []))))))) ).
Proof.
  apply (paid_request_joins_the_queue 40 41 "p9" 7 500 "USD"
           (Sample.world [Sample.paid "p1" 5] [] [])
           (final (Database.add_pending_payment 40 "p9" 7 500 "USD"
                     (Sample.world [Sample.paid "p1" 5] [] [])))
           (final (Database.update_payment_status 41 "p9" "completed"
                     (final (Database.add_pending_payment 40 "p9" 7 500 "USD"
                               (Sample.world [Sample.paid "p1" 5] [] [])))))).
  - vm_compute; reflexivity.
  - vm_compute; reflexivity.
Defined.

End TableFacts.

(** ** The fixed-interval loop *)

Module LoopFacts.
Import RunFacts DeliveryFacts.

Lemma delays_app evs2 evs1 : delays (evs2 ++ evs1) = delays evs1 ++ delays evs2.
Proof. unfold delays. rewrite flat_map_app, rev_app_distr. reflexivity. Qed.

Lemma waited_refl w : waited [] w w.
Proof. exists []. split; reflexivity. Qed.

Lemma waited_trans qs1 qs2 a b c :
  waited qs1 a b -> waited qs2 b c -> waited (qs1 ++ qs2) a c.
Proof.
  intros (evs1 & H1 & D1) (evs2 & H2 & D2). exists (evs2 ++ evs1).
  rewrite H2, H1, app_assoc, delays_app, D1, D2. split; reflexivity.
Qed.

Lemma no_wait_trans a b c : waited [] a b -> waited [] b c -> waited [] a c.
Proof. intros H1 H2. exact (waited_trans [] [] a b c H1 H2). Qed.

Lemma quiet_no_wait w w' : quiet w w' -> waited [] w w'.
Proof. intros (_ & _ & _ & Ht & _). exists []. split; [exact Ht|reflexivity]. Qed.

Lemma quiet_op_no_wait {A} (m : M A) : respects quiet m -> respects (waited []) m.
Proof. apply respects_weaken. exact quiet_no_wait. Qed.

Lemma outcome_no_wait w pid evs b ps :
  delivery_outcome w pid evs b ps -> delays evs = [].
Proof.
  intros O. destruct O as [|d|d sent Hs|d sent c notes Hs Hc Hn].
  - reflexivity.
  - reflexivity.
  - destruct sent; try discriminate; reflexivity.
  - rewrite delays_app.
    destruct Hn as [->|(t & u & ->)]; destruct sent; try discriminate; reflexivity.
Qed.

Lemma process_delivery_no_wait pid cid cname :
  respects (waited []) (DeliveryAutomator.process_delivery pid cid cname).
Proof.
  intros w.
  destruct (process_delivery_spec pid cid cname w) as (evs & b & ps & E & O & _).
  exists evs. split; [exact (effect_trace _ _ _ _ E)|exact (outcome_no_wait _ _ _ _ _ O)].
Qed.

Lemma log_processing_no_wait pid uid : respects (waited []) (emit (LogProcessing pid uid)).
Proof. intros w. exists [LogProcessing pid uid]. split; reflexivity. Qed.

Lemma count_success_no_wait :
  respects (waited []) (modify (fun w => with_processed_count (S (processed_count w)) w)).
Proof. intros w. exists []. split; reflexivity. Qed.

Lemma count_error_no_wait :
  respects (waited []) (modify (fun w => with_error_count (S (error_count w)) w)).
Proof. intros w. exists []. split; reflexivity. Qed.

Lemma determine_no_wait uid pid strategy :
  respects (waited []) (DeliveryAutomator._determine_content_to_deliver uid pid strategy).
Proof. apply quiet_op_no_wait, QuietFacts.determine_content_quiet. Qed.

Lemma get_pending_no_wait : respects (waited []) DeliveryAutomator.get_pending_deliveries.
Proof. apply quiet_op_no_wait, QuietFacts.get_pending_deliveries_quiet. Qed.

Lemma process_one_no_wait delivery counts :
  respects (waited []) (ContinuousDelivery.process_one delivery counts).
Proof.
  unfold ContinuousDelivery.process_one. destruct counts as [s e].
  pose proof process_delivery_no_wait. pose proof log_processing_no_wait.
  pose proof count_success_no_wait. pose proof count_error_no_wait.
  pose proof determine_no_wait.
  respects_walk waited_refl no_wait_trans ltac:(auto).
Qed.

Lemma process_each_no_wait pending :
  forall counts, respects (waited []) (ContinuousDelivery.process_each pending counts).
Proof.
  induction pending as [|d rest IH]; intros counts; cbn [ContinuousDelivery.process_each].
  - respects_walk waited_refl no_wait_trans ltac:(auto).
  - pose proof (process_one_no_wait d counts).
    respects_walk waited_refl no_wait_trans ltac:(auto).
Qed.

(** A batch pass does not sleep. *)
Lemma check_and_process_no_wait :
  respects (waited []) ContinuousDelivery.check_and_process_deliveries.
Proof.
  unfold ContinuousDelivery.check_and_process_deliveries, ContinuousDelivery.batch_pass.
  apply (respects_try _ no_wait_trans);
    [|intros ?; respects_walk waited_refl no_wait_trans ltac:(auto)].
  apply (respects_bind _ no_wait_trans); [exact get_pending_no_wait|].
  intros pending. pose proof (process_each_no_wait pending (0, 0)%nat).
  destruct pending; [respects_walk waited_refl no_wait_trans ltac:(auto)|assumption].
Qed.

Lemma sleep_or_cancel_run q w :
  ContinuousDelivery.sleep_or_cancel q w
  = if hd false (faults w)
    then (Raise (if hd false (tl (faults w)) then CancelledError else SleepError),
          with_faults (tl (tl (faults w))) w)
    else (Ok tt, with_trace (Slept q :: trace w) (with_faults (tl (faults w)) w)).
Proof.
  unfold ContinuousDelivery.sleep_or_cancel, emit, modify.
  destruct (hd false (faults w)); cbn [faults with_faults]; [|reflexivity].
  destruct (hd false (tl (faults w))); reflexivity.
Qed.

(** A sleep has waited exactly when it returns; what it raises
    otherwise is the cancellation or the sleep's own error. *)
Lemma sleep_or_cancel_cases q w :
  (value (ContinuousDelivery.sleep_or_cancel q w) = Ok tt /\
   trace (final (ContinuousDelivery.sleep_or_cancel q w)) = Slept q :: trace w)
  \/
  ((value (ContinuousDelivery.sleep_or_cancel q w) = Raise SleepError \/
    value (ContinuousDelivery.sleep_or_cancel q w) = Raise CancelledError) /\
   trace (final (ContinuousDelivery.sleep_or_cancel q w)) = trace w).
Proof.
  rewrite sleep_or_cancel_run. unfold value, final.
  destruct (hd false (faults w)); cbn [fst snd]; [right|left; split; reflexivity].
  destruct (hd false (tl (faults w))); split; auto.
Qed.

(** The batch pass of a turn returns; what the turn does then is decided
    by its sleeps. *)
Lemma continuous_cycle_by_sleeps interval w :
  let w1 := final (ContinuousDelivery.check_and_process_deliveries w) in
  let s1 := ContinuousDelivery.sleep_or_cancel (inject_Z interval) w1 in
  let s2 := ContinuousDelivery.sleep_or_cancel 60%Q (final s1) in
  (value s1 = Ok tt ->
   ContinuousDelivery.continuous_cycle interval w = (Ok true, final s1)) /\
  (value s1 = Raise CancelledError ->
   ContinuousDelivery.continuous_cycle interval w = (Ok false, final s1)) /\
  (forall e, value s1 = Raise e -> e <> CancelledError ->
   ContinuousDelivery.continuous_cycle interval w
   = (match value s2 with Ok _ => Ok true | Raise e2 => Raise e2 end, final s2)).
Proof.
  cbv zeta.
  destruct (try_ret_total ContinuousDelivery.batch_pass (0, 0)%nat w) as [a Ha].
  fold ContinuousDelivery.check_and_process_deliveries in Ha.
  unfold ContinuousDelivery.continuous_cycle, ContinuousDelivery.try_except_cancelled.
  rewrite run_bind. unfold value, final in *.
  destruct (ContinuousDelivery.check_and_process_deliveries w) as [v w1].
  cbn [fst snd] in *. subst v. rewrite run_bind.
  destruct (ContinuousDelivery.sleep_or_cancel (inject_Z interval) w1) as [[[]|e1] w2];
    cbn [fst snd ret].
  - split; [reflexivity|]. split; [discriminate|]. intros e He. discriminate He.
  - split; [discriminate|]. split.
    + intros [= ->]. reflexivity.
    + intros e [= ->] Hne. rewrite run_bind.
      destruct (ContinuousDelivery.sleep_or_cancel 60%Q w2) as [[[]|e2] w3];
        cbn [fst snd ret]; destruct e; try reflexivity; contradiction.
Qed.

(** One turn of the loop: one wait, of the interval or of a minute, and
    the loop goes on; or no wait, and either the [break] or the
    exception of the second sleep. *)
Lemma continuous_cycle_run interval w :
  exists qs,
    waited qs w (final (ContinuousDelivery.continuous_cycle interval w)) /\
    (value (ContinuousDelivery.continuous_cycle interval w) = Ok true /\
     (qs = [inject_Z interval] \/ qs = [60%Q])
     \/
     value (ContinuousDelivery.continuous_cycle interval w) = Ok false /\ qs = []
     \/
     (value (ContinuousDelivery.continuous_cycle interval w) = Raise SleepError \/
      value (ContinuousDelivery.continuous_cycle interval w) = Raise CancelledError) /\
     qs = []).
Proof.
  pose proof (check_and_process_no_wait w) as W0.
  destruct (continuous_cycle_by_sleeps interval w) as (Hok & Hcancel & Hfail).
  cbv zeta in *.
  set (w1 := final (ContinuousDelivery.check_and_process_deliveries w)) in *.
  destruct (sleep_or_cancel_cases (inject_Z interval) w1) as [[Hv Ht]|[Hv Ht]].
  - exists [inject_Z interval]. rewrite (Hok Hv). unfold value, final. cbn [fst snd].
    split; [|left; split; [reflexivity|left; reflexivity]].
    destruct W0 as (evs0 & Ht0 & Hd0).
    exists (Slept (inject_Z interval) :: evs0).
    split; [etransitivity; [exact Ht|fold w1 in Ht0; rewrite Ht0; reflexivity]|].
    change (Slept (inject_Z interval) :: evs0) with ([Slept (inject_Z interval)] ++ evs0).
    rewrite delays_app, Hd0. reflexivity.
  - assert (Wsame : waited [] w
                      (final (ContinuousDelivery.sleep_or_cancel (inject_Z interval) w1))).
    { destruct W0 as (evs0 & Ht0 & Hd0). exists evs0.
      split; [etransitivity; [exact Ht|exact Ht0]|exact Hd0]. }
    destruct Hv as [Hv|Hv].
    + rewrite (Hfail _ Hv ltac:(discriminate)).
      set (w2 := final (ContinuousDelivery.sleep_or_cancel (inject_Z interval) w1)) in *.
      destruct (sleep_or_cancel_cases 60%Q w2) as [[Hv2 Ht2]|[Hv2 Ht2]].
      * exists [60%Q]. rewrite Hv2. unfold value, final. cbn [fst snd].
        split; [|left; split; [reflexivity|right; reflexivity]].
        destruct Wsame as (evs0 & Ht0 & Hd0).
        exists (Slept 60%Q :: evs0).
        split; [etransitivity; [exact Ht2|rewrite Ht0; reflexivity]|].
        change (Slept 60%Q :: evs0) with ([Slept 60%Q] ++ evs0).
        rewrite delays_app, Hd0. reflexivity.
      * exists []. unfold value at 1 2 3 4, final at 1. cbn [fst snd].
        split.
        { destruct Wsame as (evs0 & Ht0 & Hd0). exists evs0.
          split; [etransitivity; [exact Ht2|exact Ht0]|exact Hd0]. }
        right. right. split; [|reflexivity].
        destruct Hv2 as [Hv2|Hv2]; rewrite Hv2; auto.
    + rewrite (Hcancel Hv). exists []. unfold value, final. cbn [fst snd].
      split; [exact Wsame|]. right. left. split; reflexivity.
Qed.

Lemma continuous_loop_run interval turns :
  forall w,
  exists qs,
    waited qs w (final (Scheduler.continuous_loop interval turns w)) /\
    Forall (fun q => q = inject_Z interval \/ q = 60%Q) qs /\
    (value (Scheduler.continuous_loop interval turns w) = Ok tt /\
     (List.length qs <= turns)%nat
     \/
     (value (Scheduler.continuous_loop interval turns w) = Raise SleepError \/
      value (Scheduler.continuous_loop interval turns w) = Raise CancelledError) /\
     (List.length qs < turns)%nat).
Proof.
  induction turns as [|n IH]; intros w; cbn [Scheduler.continuous_loop].
  - exists []. split; [apply waited_refl|]. split; [constructor|].
    left. split; [reflexivity|cbn [List.length]; lia].
  - rewrite run_bind.
    destruct (continuous_cycle_run interval w) as (qs1 & W1 & H1).
    unfold value, final in *.
    destruct (ContinuousDelivery.continuous_cycle interval w) as [v w1].
    cbn [fst snd] in *.
    destruct H1 as [(-> & Hq)|[(-> & ->)|(Hv & ->)]].
    + destruct (IH w1) as (qs2 & W2 & F2 & H2).
      exists (qs1 ++ qs2). split; [exact (waited_trans _ _ _ _ _ W1 W2)|].
      split.
      * apply Forall_app. split; [|exact F2].
        destruct Hq as [->| ->]; constructor; auto.
      * rewrite length_app.
        assert (Hl : List.length qs1 = 1%nat) by (destruct Hq as [->| ->]; reflexivity).
        destruct H2 as [(Hv & Hlen)|(Hv & Hlen)]; [left|right];
          (split; [exact Hv|lia]).
    + exists []. cbn [fst snd ret]. split; [exact W1|]. split; [constructor|].
      left. split; [reflexivity|cbn [List.length]; lia].
    + exists []. split; [destruct Hv as [->| ->]; exact W1|]. split; [constructor|].
      right. split; [destruct Hv as [->| ->]; cbn [fst]; auto|cbn [List.length]; lia].
Qed.

Lemma cd_initialize_quiet : respects quiet ContinuousDelivery.initialize.
Proof.
  unfold ContinuousDelivery.initialize.
  pose proof QuietFacts.initialize_quiet. quiet_walk.
Qed.

(** X17 ([run_continuous]).  A turn of the fixed-interval loop runs the
    batch pass and sleeps for the check interval; if that sleep returns,
    the loop goes on; if it is cancelled, the loop is left by the [break]
    and nothing more is slept; if it raises anything else, the turn
    sleeps for 60 seconds instead, and the loop goes on when that second
    sleep returns, while what the second sleep raises is the only thing
    that leaves the loop as an exception.  A sleep that raises has not
    waited.  Over a run: every wait is the check interval or 60 seconds,
    there is at most one per turn, so the waits never grow; when the
    start-up initialisation fails the loop is not entered and nothing is
    slept; and a run that ends in an exception has slept in fewer turns
    than it was given. *)
Theorem fixed_interval_loop_waits (interval : Z) (turns : nat) (w : World) :
  (let w1 := final (ContinuousDelivery.check_and_process_deliveries w) in
   let s1 := ContinuousDelivery.sleep_or_cancel (inject_Z interval) w1 in
   let s2 := ContinuousDelivery.sleep_or_cancel 60%Q (final s1) in
   (value s1 = Ok tt ->
    ContinuousDelivery.continuous_cycle interval w = (Ok true, final s1) /\
    trace (final s1) = Slept (inject_Z interval) :: trace w1) /\
   (value s1 = Raise CancelledError ->
    ContinuousDelivery.continuous_cycle interval w = (Ok false, final s1) /\
    trace (final s1) = trace w1) /\
   (forall e, value s1 = Raise e -> e <> CancelledError ->
    ContinuousDelivery.continuous_cycle interval w
    = (match value s2 with Ok _ => Ok true | Raise e2 => Raise e2 end, final s2) /\
    trace (final s2)
    = match value s2 with Ok _ => Slept 60%Q :: trace w1 | Raise _ => trace w1 end) /\
   delays (trace w1) = delays (trace w) /\
   Scheduler.continuous_loop interval (S turns) w
   = match ContinuousDelivery.continuous_cycle interval w with
     | (Ok true, w') => Scheduler.continuous_loop interval turns w'
     | (Ok false, w') => (Ok tt, w')
     | (Raise e, w') => (Raise e, w')
     end) /\
  exists qs,
    waited qs w (final (Scheduler.run_continuous interval turns w)) /\
    Forall (fun q => q = inject_Z interval \/ q = 60%Q) qs /\
    (List.length qs <= turns)%nat /\
    (value (ContinuousDelivery.initialize w) = Ok false /\
     value (Scheduler.run_continuous interval turns w) = Ok tt /\ qs = []
     \/
     value (ContinuousDelivery.initialize w) = Ok true /\
     (value (Scheduler.run_continuous interval turns w) = Ok tt
      \/
      (value (Scheduler.run_continuous interval turns w) = Raise SleepError \/
       value (Scheduler.run_continuous interval turns w) = Raise CancelledError) /\
      (List.length qs < turns)%nat)).
Proof.
  split.
  - cbv zeta.
    destruct (continuous_cycle_by_sleeps interval w) as (Hok & Hcancel & Hfail).
    cbv zeta in *.
    set (w1 := final (ContinuousDelivery.check_and_process_deliveries w)) in *.
    split; [|split; [|split; [|split]]].
    + intros Hv. split; [exact (Hok Hv)|].
      destruct (sleep_or_cancel_cases (inject_Z interval) w1) as [[_ Ht]|[[Hv'|Hv'] _]];
        [exact Ht|congruence|congruence].
    + intros Hv. split; [exact (Hcancel Hv)|].
      destruct (sleep_or_cancel_cases (inject_Z interval) w1) as [[Hv' _]|[_ Ht]];
        [congruence|exact Ht].
    + intros e Hv Hne. split; [exact (Hfail e Hv Hne)|].
      assert (Ht1 : trace (final (ContinuousDelivery.sleep_or_cancel
                                    (inject_Z interval) w1)) = trace w1).
      { destruct (sleep_or_cancel_cases (inject_Z interval) w1) as [[Hv' _]|[_ Ht]];
          [congruence|exact Ht]. }
      destruct (sleep_or_cancel_cases 60%Q
                  (final (ContinuousDelivery.sleep_or_cancel (inject_Z interval) w1)))
        as [[Hv2 Ht2]|[[Hv2|Hv2] Ht2]]; rewrite Hv2, Ht2, Ht1; reflexivity.
    + destruct (check_and_process_no_wait w) as (evs & Ht & Hd).
      fold w1 in Ht. rewrite Ht, delays_app, Hd. apply app_nil_r.
    + cbn [Scheduler.continuous_loop]. rewrite run_bind.
      destruct (ContinuousDelivery.continuous_cycle interval w) as [[[]|e] w'];
        reflexivity.
  - unfold Scheduler.run_continuous. rewrite run_bind.
    pose proof (cd_initialize_quiet w) as Q0. apply quiet_no_wait in Q0.
    destruct (try_ret_total (DeliveryAutomator.initialize ;; ret true) false w)
      as [ok Hok].
    fold ContinuousDelivery.initialize in Hok.
    unfold value, final in *.
    destruct (ContinuousDelivery.initialize w) as [v w1]. cbn [fst snd] in *. subst v.
    destruct ok; cbn [negb].
    + destruct (continuous_loop_run interval turns w1) as (qs & W & F & H).
      exists qs. split; [exact (waited_trans [] qs _ _ _ Q0 W)|]. split; [exact F|].
      split; [destruct H as [[_ H]|[_ H]]; lia|].
      right. split; [reflexivity|].
      destruct H as [[H _]|[H Hl]]; [left; exact H|right; split; assumption].
    + exists []. cbn [ret fst snd]. split; [exact Q0|]. split; [constructor|].
      split; [cbn [List.length]; lia|]. left. auto.
Qed.

End LoopFacts.
